(** * College_Rag: the hybrid retrieval engine, embedded in Rocq

    A shallow embedding of [rag/vector_store.py], [rag/keyword_search.py],
    [rag/hybrid.py], [rag/pipeline.py] and the [/query] endpoint of [app.py].

    Conventions of the embedding.
    - Python [float] scores are exact rationals ([Q]); comparisons are the
      numeric ones ([Qle_bool], [Qeq_bool]).
    - Python [str] is [string]; case mapping and the whitespace and word
      classes are the ASCII ones.
    - A course record (a row of [courses.json] / [metadata.pkl]) is a
      dictionary from field names to [str] or [None]: [gmap string fval].
      A scored result is such a dictionary together with the four float
      keys the code ever writes ([similarity_score], [keyword_score],
      [final_score], [rrf_score]); an absent key is [None].
    - A raised exception is the [Raise] branch of [result].
    - The libraries the code calls (sentence-transformers, FAISS, rank_bm25,
      the answer generator) are variables of the sections that use them;
      [Sample] holds small stand-ins on which the definitions are run.
    - The data directory is a record of its three files; a file has a
      content and a modification time in clock ticks.  The functions that
      write take the disk and return the new one, and the environment
      ([Env]) says when each write happens and how it ends. *)

From Stdlib Require Import QArith Qminmax Lqa ZArith Lia Bool Ascii String Sorted Permutation.
From stdpp Require Import gmap strings list sorting.

Set Default Proof Using "Type".
Local Open Scope Z_scope.

(** ** Python prelude *)

Module Py.

Inductive exn : Type :=
| KeyError
| IndexError
| AttributeError
| TypeError
| ValueError
| ZeroDivisionError
| FileNotFoundError
| FAISSIndexMissingError
| RuntimeError          (* faiss.read_index on a file that is not an index *)
| UnpicklingError       (* pickle.load on a file that is not a pickle *)
| JSONDecodeError
| OSError               (* a write that cannot be carried out *)
| EmbeddingFailure      (* the embedding model raised *)
| HTTPException (status : Z) (detail : string).

Inductive result (A : Type) : Type :=
| Ok (a : A)
| Raise (e : exn).
Arguments Ok {A} a.
Arguments Raise {A} e.

Definition bind {A B} (m : result A) (f : A -> result B) : result B :=
  match m with
  | Ok a => f a
  | Raise e => Raise e
  end.

(** [seq[i]] for a Python list and a (possibly negative) integer index. *)
Definition getitem {A} (l : list A) (i : Z) : result A :=
  let n := Z.of_nat (length l) in
  let j := if i <? 0 then n + i else i in
  if (0 <=? j) && (j <? n)
  then match l !! Z.to_nat j with Some x => Ok x | None => Raise IndexError end
  else Raise IndexError.

(** [seq[:k]]. *)
Definition slice_to {A} (l : list A) (k : Z) : list A :=
  if k <? 0 then take (Z.to_nat (Z.of_nat (length l) + k)) l
  else take (Z.to_nat k) l.

(** *** Strings (ASCII) *)

Definition is_upper (c : ascii) : bool :=
  let n := nat_of_ascii c in (65 <=? n)%nat && (n <=? 90)%nat.
Definition is_lower (c : ascii) : bool :=
  let n := nat_of_ascii c in (97 <=? n)%nat && (n <=? 122)%nat.
Definition is_digit (c : ascii) : bool :=
  let n := nat_of_ascii c in (48 <=? n)%nat && (n <=? 57)%nat.

(** [str.isspace] on one character: TAB, LF, VT, FF, CR, FS, GS, RS, US
    and the space. *)
Definition is_space (c : ascii) : bool :=
  let n := nat_of_ascii c in
  ((9 <=? n)%nat && (n <=? 13)%nat) || ((28 <=? n)%nat && (n <=? 32)%nat).

(** The class [\w] of [re]: letters, digits and the underscore. *)
Definition is_word (c : ascii) : bool :=
  is_upper c || is_lower c || is_digit c || (nat_of_ascii c =? 95)%nat.

Definition lower_char (c : ascii) : ascii :=
  if is_upper c then ascii_of_nat (nat_of_ascii c + 32) else c.
Definition upper_char (c : ascii) : ascii :=
  if is_lower c then ascii_of_nat (nat_of_ascii c - 32) else c.

Fixpoint map_chars (f : ascii -> ascii) (s : string) : string :=
  match s with
  | EmptyString => EmptyString
  | String c s' => String (f c) (map_chars f s')
  end.

Definition lower (s : string) : string := map_chars lower_char s.
Definition upper (s : string) : string := map_chars upper_char s.

(** [needle in hay]. *)
Fixpoint contains (needle hay : string) : bool :=
  String.prefix needle hay ||
  match hay with
  | EmptyString => false
  | String _ hay' => contains needle hay'
  end.

Fixpoint lstrip (s : string) : string :=
  match s with
  | EmptyString => EmptyString
  | String c s' => if is_space c then lstrip s' else s
  end.

(** Drops the trailing whitespace: a character is kept when it is not a
    space or something is kept after it. *)
Fixpoint rstrip (s : string) : string :=
  match s with
  | EmptyString => EmptyString
  | String c s' =>
      match rstrip s' with
      | EmptyString => if is_space c then EmptyString else String c EmptyString
      | r => String c r
      end
  end.

(** [str.strip()]. *)
Definition strip (s : string) : string := rstrip (lstrip s).

(** [str.split()] with no argument: the maximal runs of non-space
    characters.  [cur] is the run being read, reversed. *)
Fixpoint split_go (s : string) (cur : list ascii) : list string :=
  let flush := match cur with
               | [] => []
               | _ => [string_of_list_ascii (rev cur)]
               end in
  match s with
  | EmptyString => flush
  | String c s' =>
      if is_space c then flush ++ split_go s' [] else split_go s' (c :: cur)
  end.

Definition split (s : string) : list string := split_go s [].

(** Truthiness of an [Optional[str]]: [None] and [''] are false. *)
Definition truthy (o : option string) : bool :=
  match o with
  | Some s => negb (String.eqb s "")
  | None => false
  end.

(** [a > b] on floats. *)
Definition Qgt_bool (a b : Q) : bool := negb (Qle_bool a b).

(** *** [sorted(xs, key=..., reverse=True)]

    Python's sort is stable, also with [reverse=True]: among elements of
    equal key the input order is kept.  [insert_desc] puts [x] in front of
    the first element whose key does not exceed the key of [x]. *)
Section Sorted.
Context {A : Type} (key : A -> Q).

Fixpoint insert_desc (x : A) (l : list A) : list A :=
  match l with
  | [] => [x]
  | y :: l' =>
      if Qle_bool (key y) (key x) then x :: y :: l'
      else y :: insert_desc x l'
  end.

Fixpoint sorted_desc (l : list A) : list A :=
  match l with
  | [] => []
  | x :: l' => insert_desc x (sorted_desc l')
  end.
End Sorted.

End Py.

Export Py.

Notation "'do' x <- m ; k" := (bind m (fun x => k))
  (at level 10, x name, m at level 100, k at level 200).

(** ** Records and scored results *)

Inductive fval : Type :=
| VStr (s : string)
| VNone.

Global Instance fval_eq_dec : EqDecision fval.
Proof. solve_decision. Defined.

(** A row of the corpus. *)
Abbreviation Course := (gmap string fval).

(** A result dictionary: the copied course fields and the float keys. *)
Record Rec : Type := mkRec {
  fields : Course;
  similarity_score : option Q;
  keyword_score : option Q;
  final_score : option Q;
  rrf_score : option Q
}.

(** [dict(course)]. *)
Definition dict_of (c : Course) : Rec :=
  mkRec c None None None None.

Definition set_similarity (r : Rec) (q : Q) : Rec :=
  mkRec (fields r) (Some q) (keyword_score r) (final_score r) (rrf_score r).
Definition set_keyword (r : Rec) (q : Q) : Rec :=
  mkRec (fields r) (similarity_score r) (Some q) (final_score r) (rrf_score r).
Definition set_final (r : Rec) (q : Q) : Rec :=
  mkRec (fields r) (similarity_score r) (keyword_score r) (Some q) (rrf_score r).
Definition set_rrf (r : Rec) (q : Q) : Rec :=
  mkRec (fields r) (similarity_score r) (keyword_score r) (final_score r) (Some q).
Definition pop_rrf (r : Rec) : Rec :=
  mkRec (fields r) (similarity_score r) (keyword_score r) (final_score r) None.

(** [r.setdefault(key, q)] for the three score keys. *)
Definition setdefault_similarity (r : Rec) (q : Q) : Rec :=
  match similarity_score r with Some _ => r | None => set_similarity r q end.
Definition setdefault_keyword (r : Rec) (q : Q) : Rec :=
  match keyword_score r with Some _ => r | None => set_keyword r q end.
Definition setdefault_final (r : Rec) (q : Q) : Rec :=
  match final_score r with Some _ => r | None => set_final r q end.

(** [o.get(key, d)] on a float key. *)
Definition get_or (o : option Q) (d : Q) : Q := default d o.

(** [rec.get(key, "")] on a course field, as the receiver of a string
    method: a [None] value has no [lower] / [upper]. *)
Definition get_str (c : Course) (key : string) : result string :=
  match c !! key with
  | None => Ok ""%string
  | Some (VStr s) => Ok s
  | Some VNone => Raise AttributeError
  end.

(** [rec["course_code"]]. *)
Definition course_code (r : Rec) : result fval :=
  match fields r !! "course_code"%string with
  | Some v => Ok v
  | None => Raise KeyError
  end.

(** The department and source filters, written twice in the source (in
    [vector_store.search] and in [KeywordSearcher.search]) with the same
    text.  [Ok false] is the [continue] branch. *)
Definition passes_filters (department source : option string) (rec : Course)
  : result bool :=
  do dept_ok <-
    (if truthy department then
       do d <- get_str rec "department";
       Ok (contains (lower (default ""%string department)) (lower d))
     else Ok true);
  if negb dept_ok then Ok false
  else if truthy source then
    do s <- get_str rec "source";
    Ok (String.eqb (upper s) (upper (default ""%string source)))
  else Ok true.

(** ** [rag/embedder.py] *)

Module Embedder.

(** A field inside an f-string: [None] prints as the word. *)
Definition fmt (record : Course) (key : string) : string :=
  match record !! key with
  | None => ""
  | Some (VStr s) => s
  | Some VNone => "None"
  end.

Definition join_space (parts : list string) : string :=
  match parts with
  | [] => ""
  | p :: ps => fold_left (fun acc x => acc +:+ " " +:+ x) ps p
  end.

Definition build_embed_text (record : Course) : result string :=
  let code := fmt record "course_code" in
  let title := fmt record "title" in
  let dept := fmt record "department" in
  do desc <- match record !! "description" with
             | None => Ok ""%string
             | Some (VStr s) => Ok s
             | Some VNone => Raise TypeError
             end;
  let prereq := match record !! "prerequisites" with
                | Some (VStr s) => s
                | _ => ""%string
                end in
  let parts := [code +:+ " " +:+ title +:+ " – " +:+ dept +:+ "."; desc +:+ "."] in
  let parts := if String.eqb prereq "" then parts
               else parts ++ ["Prerequisites: " +:+ prereq +:+ "."] in
  Ok (join_space parts).

End Embedder.

(** [[f(x) for x in xs]] for an [f] that may raise. *)
Fixpoint map_result {A B} (f : A -> result B) (l : list A) : result (list B) :=
  match l with
  | [] => Ok []
  | x :: l' =>
      do y <- f x;
      do ys <- map_result f l';
      Ok (y :: ys)
  end.

(** ** [rag/vector_store.py]: search *)

Module VectorStore.

Definition vec : Type := list Q.

(** An [IndexFlatIP]: the vectors added to it, in row order. *)
Record Index : Type := mkIndex { rows : list vec }.

Definition ntotal (index : Index) : Z := Z.of_nat (length (rows index)).

(** [np.clip(score, 0.0, 1.0)]. *)
Definition clip01 (score : Q) : Q := Qmin (Qmax score 0) 1.

Definition fetch_k (index : Index) (top_k : Z) (department source : option string) : Z :=
  let fetch_k := if truthy department || truthy source then top_k * 3 else top_k in
  Z.min fetch_k (ntotal index).

(** The body of the [for score, idx in zip(scores, ids)] loop; [results]
    is the list built so far. *)
Fixpoint search_loop (metadata : list Course) (top_k : Z)
    (department source : option string)
    (cands : list (Q * Z)) (results : list Rec) : result (list Rec) :=
  match cands with
  | [] => Ok results
  | (score, idx) :: cands' =>
      if idx =? -1 then search_loop metadata top_k department source cands' results
      else
        do rec <- getitem metadata idx;
        do keep <- passes_filters department source rec;
        if negb keep then search_loop metadata top_k department source cands' results
        else
          let results' := results ++ [set_similarity (dict_of rec) (clip01 score)] in
          if Z.of_nat (length results') >=? top_k then Ok results'
          else search_loop metadata top_k department source cands' results'
  end.

Section Search.
(** [index.search(query_vec, k)]: for each query row, the [k] best
    (score, id) pairs; FAISS pads with id [-1]. *)
Variable index_search : Index -> list vec -> Z -> list (list (Q * Z)).

Definition search (index : Index) (metadata : list Course) (query_vec : list vec)
    (top_k : Z) (department source : option string) : result (list Rec) :=
  match index_search index query_vec (fetch_k index top_k department source) with
  | [] => Raise IndexError
  | cands :: _ => search_loop metadata top_k department source cands []
  end.
End Search.

(** *** Persistence

    The three files of [DATA_DIR].  A file holds either the serialisation
    of a value or bytes that do not deserialise ([Garbage]: a truncated or
    foreign file); [mtime] is its modification time in clock ticks. *)

Inductive blob (A : Type) : Type :=
| Valid (a : A)
| Garbage.
Arguments Valid {A} a.
Arguments Garbage {A}.

Record file (A : Type) : Type := mkFile { content : blob A; mtime : Z }.
Arguments mkFile {A} content mtime.
Arguments content {A} f.
Arguments mtime {A} f.

Record Disk : Type := mkDisk {
  COURSES_PATH : option (file (list Course));   (* data/courses.json *)
  FAISS_PATH : option (file Index);             (* data/faiss.index *)
  META_PATH : option (file (list Course))       (* data/metadata.pkl *)
}.

(** How one write to a file ends: it completes; it raises before the
    file is opened for writing (the old file stays); or it raises after
    the file was opened and truncated (a partial file stays). *)
Inductive write_outcome : Type :=
| Written
| FailsAtOpen
| FailsMidway.

(** What the environment decides during one [save_index]: the clock at
    each of the two writes and how each write ends. *)
Record Env : Type := mkEnv {
  index_clock : Z;
  index_write : write_outcome;
  meta_clock : Z;
  meta_write : write_outcome
}.

Definition write_file {A} (old : option (file A)) (a : A) (clock : Z)
    (w : write_outcome) : option (file A) * result unit :=
  match w with
  | Written => (Some (mkFile (Valid a) clock), Ok tt)
  | FailsAtOpen => (old, Raise OSError)
  | FailsMidway => (Some (mkFile Garbage clock), Raise OSError)
  end.

Definition save_index (env : Env) (index : Index) (metadata : list Course)
    (disk : Disk) : Disk * result unit :=
  (* DATA_DIR.mkdir(parents=True, exist_ok=True) touches none of the files *)
  (* faiss.write_index(index, str(FAISS_PATH)) *)
  let '(f, r) := write_file (FAISS_PATH disk) index (index_clock env) (index_write env) in
  let disk := mkDisk (COURSES_PATH disk) f (META_PATH disk) in
  match r with
  | Raise e => (disk, Raise e)
  | Ok _ =>
      (* with open(META_PATH, "wb") as f: pickle.dump(metadata, f, ...) *)
      let '(g, r) := write_file (META_PATH disk) metadata (meta_clock env) (meta_write env) in
      (mkDisk (COURSES_PATH disk) (FAISS_PATH disk) g, r)
  end.

Definition load_index (disk : Disk) : result (Index * list Course) :=
  match FAISS_PATH disk with
  | None => Raise FAISSIndexMissingError
  | Some f =>
      match META_PATH disk with
      | None => Raise FAISSIndexMissingError
      | Some g =>
          do index <- match content f with
                      | Valid i => Ok i
                      | Garbage => Raise RuntimeError
                      end;
          do metadata <- match content g with
                         | Valid m => Ok m
                         | Garbage => Raise UnpicklingError
                         end;
          Ok (index, metadata)
      end
  end.

(** [os.path.getmtime(path)]. *)
Definition getmtime {A} (f : option (file A)) : result Z :=
  match f with
  | Some f => Ok (mtime f)
  | None => Raise FileNotFoundError
  end.

Definition exists_ {A} (f : option (file A)) : bool :=
  match f with Some _ => true | None => false end.

Definition index_is_stale (disk : Disk) : result bool :=
  if negb (exists_ (FAISS_PATH disk)) || negb (exists_ (META_PATH disk)) then Ok true
  else
    do courses_mtime <- getmtime (COURSES_PATH disk);
    do faiss_mtime <- getmtime (FAISS_PATH disk);
    do meta_mtime <- getmtime (META_PATH disk);
    let index_mtime := Z.min faiss_mtime meta_mtime in
    Ok (courses_mtime >? index_mtime).

Section Build.
(** [embed_texts(texts)]: one vector per text; the model may raise. *)
Variable embed_texts : list string -> result (list vec).

Definition build_index (records : list Course) : result (Index * list Course) :=
  do texts <- map_result Embedder.build_embed_text records;
  do embeddings <- embed_texts texts;
  (* dim = embeddings.shape[1] *)
  match embeddings with
  | [] => Raise IndexError
  | _ => Ok (mkIndex embeddings, records)
  end.

Definition load_or_build (env : Env) (force_rebuild : bool) (disk : Disk)
    : Disk * result (Index * list Course) :=
  (* not force_rebuild and FAISS_PATH.exists() and not index_is_stale() *)
  let use_persisted :=
    if negb force_rebuild && exists_ (FAISS_PATH disk)
    then do stale <- index_is_stale disk; Ok (negb stale)
    else Ok false in
  match use_persisted with
  | Raise e => (disk, Raise e)
  | Ok true => (disk, load_index disk)
  | Ok false =>
      match COURSES_PATH disk with
      | None => (disk, Raise FileNotFoundError)
      | Some c =>
          match content c with
          | Garbage => (disk, Raise JSONDecodeError)
          | Valid records =>
              match build_index records with
              | Raise e => (disk, Raise e)
              | Ok (index, meta) =>
                  let '(disk', r) := save_index env index meta disk in
                  (disk', do _ <- r; Ok (index, meta))
              end
          end
      end
  end.
End Build.

End VectorStore.

(** ** [rag/keyword_search.py] *)

Module KeywordSearch.

Definition _tokenise (text : string) : list string :=
  let text := lower text in
  let text := map_chars (fun c => if is_word c || is_space c then c else " "%char) text in
  split text.

Record KeywordSearcher : Type := mkKeywordSearcher {
  _records : list Course;
  _bm25 : list (list string)       (* the tokenised corpus given to BM25Okapi *)
}.

(** [__init__]: the corpus is tokenised; building the [BM25Okapi] object
    from it is left to the library. *)
Definition KeywordSearcher_init (records : list Course) : result KeywordSearcher :=
  do corpus <- map_result (fun r => do t <- Embedder.build_embed_text r; Ok (_tokenise t)) records;
  Ok (mkKeywordSearcher records corpus).

(** [enumerate(xs)]. *)
Definition enumerate {A} (l : list A) : list (Z * A) :=
  imap (fun i x => (Z.of_nat i, x)) l.

(** [raw_scores.max()]; an empty array has no maximum. *)
Definition array_max (l : list Q) : result Q :=
  match l with
  | [] => Raise ValueError
  | x :: l' => Ok (fold_left Qmax l' x)
  end.

Fixpoint kw_loop (records : list Course) (top_k : Z)
    (department source : option string)
    (scored : list (Z * Q)) (results : list Rec) : result (list Rec) :=
  match scored with
  | [] => Ok results
  | (idx, score) :: scored' =>
      if Qle_bool score 0 then Ok results
      else
        do rec <- getitem records idx;
        do keep <- passes_filters department source rec;
        if negb keep then kw_loop records top_k department source scored' results
        else
          let results' := results ++ [set_keyword (dict_of rec) score] in
          if Z.of_nat (length results') >=? top_k then Ok results'
          else kw_loop records top_k department source scored' results'
  end.

Section Search.
(** [BM25Okapi(corpus).get_scores(tokens)]: one raw score per document. *)
Variable bm25_get_scores : list (list string) -> list string -> list Q.

Definition search (self : KeywordSearcher) (query : string) (top_k : Z)
    (department source : option string) : result (list Rec) :=
  let tokens := _tokenise query in
  match tokens with
  | [] => Ok []
  | _ =>
      let raw_scores := bm25_get_scores (_bm25 self) tokens in
      do m <- array_max raw_scores;
      let max_score := if Qgt_bool m 0 then m else 1%Q in
      let normed := map (fun x => x / max_score)%Q raw_scores in
      let scored := sorted_desc snd (enumerate normed) in
      kw_loop (_records self) top_k department source scored []
  end.
End Search.

End KeywordSearch.

(** ** [rag/hybrid.py] *)

Module Hybrid.

(** A [dict] keyed by course code: the entries in insertion order. *)
Definition odict : Type := list (fval * Rec).

Fixpoint od_get (d : odict) (k : fval) : option Rec :=
  match d with
  | [] => None
  | (k', v) :: d' => if decide (k' = k) then Some v else od_get d' k
  end.

(** [d[k] = v]: an existing key keeps its place, a new one goes last. *)
Fixpoint od_set (d : odict) (k : fval) (v : Rec) : odict :=
  match d with
  | [] => [(k, v)]
  | (k', v') :: d' =>
      if decide (k' = k) then (k, v) :: d' else (k', v') :: od_set d' k v
  end.

Definition od_values (d : odict) : list Rec := map snd d.
Definition od_keys (d : odict) : list fval := map fst d.

(** [1.0 / (k + rank)]. *)
Definition rrf_term (k rank : Z) : result Q :=
  if k + rank =? 0 then Raise ZeroDivisionError
  else Ok (1 / inject_Z (k + rank))%Q.

Definition rrf_sem_step (k : Z) (combined : odict) (rank : Z) (rec : Rec)
  : result odict :=
  do code <- course_code rec;
  let entry := match od_get combined code with
               | Some e => e
               | None => setdefault_keyword rec 0
               end in
  do t <- rrf_term k rank;
  Ok (od_set combined code (set_rrf entry (get_or (rrf_score entry) 0 + t))).

Definition rrf_kw_step (k : Z) (combined : odict) (rank : Z) (rec : Rec)
  : result odict :=
  do code <- course_code rec;
  let entry := match od_get combined code with
               | Some e => e
               | None => setdefault_similarity rec 0
               end in
  let entry := setdefault_keyword entry (get_or (keyword_score rec) 0) in
  do t <- rrf_term k rank;
  Ok (od_set combined code (set_rrf entry (get_or (rrf_score entry) 0 + t))).

(** [for rank, rec in enumerate(results, start=1)]. *)
Fixpoint ranked_loop (step : odict -> Z -> Rec -> result odict)
    (combined : odict) (rank : Z) (l : list Rec) : result odict :=
  match l with
  | [] => Ok combined
  | rec :: l' =>
      do combined' <- step combined rank rec;
      ranked_loop step combined' (rank + 1) l'
  end.

(** The normalisation of [rrf_score] into [final_score].  When [max_rrf]
    is zero the conditional expression does not evaluate the [pop]. *)
Definition rrf_normalise (results : list Rec) : list Rec :=
  match results with
  | [] => []
  | r0 :: _ =>
      let max_rrf := get_or (rrf_score r0) 1 in
      map (fun r =>
             if Qeq_bool max_rrf 0 then set_final r 0
             else set_final (pop_rrf r) (get_or (rrf_score r) 0 / max_rrf))
          results
  end.

Definition rrf_combined (semantic_results keyword_results : list Rec) (k : Z)
  : result odict :=
  do combined <- ranked_loop (rrf_sem_step k) [] 1 semantic_results;
  ranked_loop (rrf_kw_step k) combined 1 keyword_results.

Definition _reciprocal_rank_fusion (semantic_results keyword_results : list Rec)
    (k : Z) : result (list Rec) :=
  do combined <- rrf_combined semantic_results keyword_results k;
  let results := sorted_desc (fun r => get_or (rrf_score r) 0) (od_values combined) in
  Ok (rrf_normalise results).

Definition ws_sem_step (combined : odict) (rec : Rec) : result odict :=
  do code <- course_code rec;
  let entry := match od_get combined code with
               | Some e => e
               | None => setdefault_keyword rec 0
               end in
  Ok (od_set combined code (set_similarity entry (get_or (similarity_score rec) 0))).

Definition ws_kw_step (combined : odict) (rec : Rec) : result odict :=
  do code <- course_code rec;
  let entry := match od_get combined code with
               | Some e => e
               | None => setdefault_similarity rec 0
               end in
  Ok (od_set combined code (set_keyword entry (get_or (keyword_score rec) 0))).

Fixpoint plain_loop (step : odict -> Rec -> result odict)
    (combined : odict) (l : list Rec) : result odict :=
  match l with
  | [] => Ok combined
  | rec :: l' =>
      do combined' <- step combined rec;
      plain_loop step combined' l'
  end.

Definition ws_final (alpha beta : Q) (rec : Rec) : Rec :=
  set_final rec (alpha * get_or (similarity_score rec) 0
                 + beta * get_or (keyword_score rec) 0)%Q.

(** [combined] after the three loops of [_weighted_sum]. *)
Definition ws_combined (semantic_results keyword_results : list Rec)
    (alpha beta : Q) : result odict :=
  do combined <- plain_loop ws_sem_step [] semantic_results;
  do combined <- plain_loop ws_kw_step combined keyword_results;
  Ok (map (fun kv => (fst kv, ws_final alpha beta (snd kv))) combined).

(** The sort key [r["final_score"]] is present on every entry: the third
    loop has just written it. *)
Definition _weighted_sum (semantic_results keyword_results : list Rec)
    (alpha beta : Q) : result (list Rec) :=
  do combined <- ws_combined semantic_results keyword_results alpha beta;
  Ok (sorted_desc (fun r => get_or (final_score r) 0) (od_values combined)).

Section Search.
Variable embed_texts : list string -> result (list VectorStore.vec).
Variable index_search :
  VectorStore.Index -> list VectorStore.vec -> Z -> list (list (Q * Z)).
Variable bm25_get_scores : list (list string) -> list string -> list Q.

Definition embed_query (query : string) : result (list VectorStore.vec) :=
  embed_texts [query].

Definition hybrid_search (query : string) (index : VectorStore.Index)
    (metadata : list Course) (keyword_searcher : KeywordSearch.KeywordSearcher)
    (top_k : Z) (department source : option string) (fusion : string)
    (alpha beta : Q) (semantic_pool keyword_pool : Z) : result (list Rec) :=
  do q_vec <- embed_query query;
  do sem_results <- VectorStore.search index_search index metadata q_vec
                      semantic_pool department source;
  do kw_results <- KeywordSearch.search bm25_get_scores keyword_searcher query
                     keyword_pool department source;
  do merged <- (if String.eqb fusion "rrf"
                then _reciprocal_rank_fusion sem_results kw_results 60
                else _weighted_sum sem_results kw_results alpha beta);
  let merged :=
    map (fun r => setdefault_final
                    (setdefault_keyword (setdefault_similarity r 0) 0) 0) merged in
  Ok (slice_to merged top_k).

Definition vector_search (query : string) (index : VectorStore.Index)
    (metadata : list Course) (top_k : Z) (department source : option string)
    : result (list Rec) :=
  do q_vec <- embed_query query;
  do results <- VectorStore.search index_search index metadata q_vec
                  top_k department source;
  Ok (map (fun r => let r := setdefault_keyword r 0 in
                    set_final r (get_or (similarity_score r) 0)) results).
End Search.

End Hybrid.

(** ** [rag/pipeline.py] *)

Module Pipeline.

Record RAGPipeline : Type := mkRAGPipeline {
  _index : VectorStore.Index;
  _metadata : list Course;
  _keyword_searcher : KeywordSearch.KeywordSearcher
}.

Record QueryResult : Type := mkQueryResult {
  question : string;
  answer : string;
  context : string;
  records : list Rec
}.

Definition nonempty {A} (l : list A) : bool :=
  match l with [] => false | _ => true end.

Section Pipeline.
Variable embed_texts : list string -> result (list VectorStore.vec).
Variable index_search :
  VectorStore.Index -> list VectorStore.vec -> Z -> list (list (Q * Z)).
Variable bm25_get_scores : list (list string) -> list string -> list Q.
(** [rag/generator.py]: both catch the failures of the LLM backends. *)
Variable generate_answer : string -> list Rec -> string * string.
Variable assemble_context : list Rec -> string.

Definition _load (env : VectorStore.Env) (force_rebuild : bool)
    (disk : VectorStore.Disk) : VectorStore.Disk * result RAGPipeline :=
  let '(disk', r) := VectorStore.load_or_build embed_texts env force_rebuild disk in
  (disk',
   do im <- r;
   do ks <- KeywordSearch.KeywordSearcher_init (snd im);
   Ok (mkRAGPipeline (fst im) (snd im) ks)).

Definition query (self : RAGPipeline) (question : string) (top_k : Z)
    (department source : option string) (mode fusion : string)
    (alpha beta : Q) (generate : bool) : result QueryResult :=
  do records <-
    (if String.eqb mode "vector"
     then Hybrid.vector_search embed_texts index_search question
            (_index self) (_metadata self) top_k department source
     else Hybrid.hybrid_search embed_texts index_search bm25_get_scores question
            (_index self) (_metadata self) (_keyword_searcher self)
            top_k department source fusion alpha beta 50 50);
  let '(answer, context) :=
    if generate && nonempty records then generate_answer question records
    else if nonempty records then (""%string, assemble_context records)
    else (""%string, ""%string) in
  Ok (mkQueryResult question answer context records).
End Pipeline.

End Pipeline.

(** ** [app.py]: the [/query] endpoint

    The endpoint is followed up to the call of the pipeline; the shaping
    of the response (the [CourseResult] projection, the latency and the
    query log) reads the pipeline's result and is not part of the model. *)

Module App.

Record QueryRequest : Type := mkQueryRequest {
  body_q : option string;
  body_department : option string;
  body_source : option string;
  body_k : Z
}.

(** The settings of [config.py] that the endpoint passes on. *)
Record Config : Type := mkConfig {
  SEARCH_MODE : string;
  FUSION_STRATEGY : string;
  FUSION_ALPHA : Q;
  FUSION_BETA : Q
}.

Definition default_config : Config :=
  mkConfig "hybrid" "weighted" (7 # 10) (3 # 10).

Section App.
Variable embed_texts : list string -> result (list VectorStore.vec).
Variable index_search :
  VectorStore.Index -> list VectorStore.vec -> Z -> list (list (Q * Z)).
Variable bm25_get_scores : list (list string) -> list string -> list Q.
Variable generate_answer : string -> list Rec -> string * string.
Variable assemble_context : list Rec -> string.

Definition post_query (cfg : Config) (_rag : option Pipeline.RAGPipeline)
    (body : QueryRequest) : result Pipeline.QueryResult :=
  let blank := match body_q body with
               | None => true
               | Some q => String.eqb q "" || String.eqb (strip q) ""
               end in
  if blank then Raise (HTTPException 400 "q field is required")
  else
    match _rag with
    | None =>
        Raise (HTTPException 503
          "Index not loaded. Run python run_pipeline.py && python run_rag.py --build first.")
    | Some rag =>
        Pipeline.query embed_texts index_search bm25_get_scores
          generate_answer assemble_context rag
          (strip (default ""%string (body_q body))) (body_k body)
          (body_department body) (body_source body)
          (SEARCH_MODE cfg) (FUSION_STRATEGY cfg)
          (FUSION_ALPHA cfg) (FUSION_BETA cfg) true
    end.
End App.

End App.

(** ** [rag/generator.py] *)

Module Generator.

(** ["\n"]. *)
Definition nl : string := String (ascii_of_nat 10) EmptyString.

(** [len(s)]: the number of characters.  In the UTF-8 text of a string a
    character is every byte that is not a continuation byte; on ASCII text
    this is the number of bytes. *)
Definition is_continuation (c : ascii) : bool :=
  let n := nat_of_ascii c in (128 <=? n)%nat && (n <=? 191)%nat.

Fixpoint len (s : string) : Z :=
  match s with
  | EmptyString => 0
  | String c s' => (if is_continuation c then 0 else 1) + len s'
  end.

(** [s[:n]] for [0 <= n]: the first [n] characters, each with the
    continuation bytes that follow it. *)
Fixpoint slice_chars (n : nat) (s : string) : string :=
  match s with
  | EmptyString => EmptyString
  | String c s' =>
      if is_continuation c then String c (slice_chars n s')
      else match n with
           | O => EmptyString
           | S n' => String c (slice_chars n' s')
           end
  end.

Definition MAX_CONTEXT_TOKENS : Z := 2048.
Definition _CHAR_BUDGET : Z := MAX_CONTEXT_TOKENS * 4.

(** [_RECORD_TEMPLATE.format(...)]. *)
Definition _RECORD_TEMPLATE_format
    (course_code title department source description prerequisites : string)
  : string :=
  "[" +:+ course_code +:+ "] " +:+ title +:+ nl +:+
  "Department: " +:+ department +:+ nl +:+
  "Source: " +:+ source +:+ nl +:+
  "Description: " +:+ description +:+ nl +:+
  "Prerequisites: " +:+ prerequisites +:+ nl +:+
  "---".

(** [rec.get(key) or d]: the default also replaces [None] and ['']. *)
Definition get_or_else (record : Course) (key d : string) : string :=
  match record !! key with
  | Some (VStr s) => if String.eqb s "" then d else s
  | _ => d
  end.

(** The block of one record, before any truncation. *)
Definition record_block (rec : Rec) : string :=
  let desc := get_or_else (fields rec) "description" "" in
  let prereq := get_or_else (fields rec) "prerequisites" "None listed" in
  _RECORD_TEMPLATE_format
    (Embedder.fmt (fields rec) "course_code") (Embedder.fmt (fields rec) "title")
    (Embedder.fmt (fields rec) "department") (Embedder.fmt (fields rec) "source")
    desc prereq.

Definition truncation_marker : string := nl +:+ "[…truncated…]" +:+ nl +:+ "---".

(** The [for rec in records] loop of [assemble_context]. *)
Fixpoint assemble_loop (records : list Rec) (blocks : list string) (char_count : Z)
  : list string :=
  match records with
  | [] => blocks
  | rec :: records' =>
      let block := record_block rec in
      if char_count + len block >? _CHAR_BUDGET then
        let remaining := _CHAR_BUDGET - char_count in
        if remaining >? 80 then
          let block := slice_chars (Z.to_nat remaining) block +:+ truncation_marker in
          assemble_loop records' (blocks ++ [block]) (char_count + len block)
        else blocks
      else assemble_loop records' (blocks ++ [block]) (char_count + len block)
  end.

(** [sep.join(parts)]. *)
Definition join (sep : string) (parts : list string) : string :=
  match parts with
  | [] => ""
  | p :: ps => fold_left (fun acc x => acc +:+ sep +:+ x) ps p
  end.

Definition assemble_context (records : list Rec) : string :=
  join nl (assemble_loop records [] 0).

Definition _SYSTEM_PROMPT : string :=
  "You are a helpful academic advisor for Brown University." +:+ nl +:+
  "Answer the user's question using ONLY the course information provided below." +:+ nl +:+
  "Cite course codes (e.g. CSCI0150) when referencing specific courses." +:+ nl +:+
  "If the answer is not in the provided context, say so clearly." +:+ nl +:+
  "Be concise and factual.".

(** A chat message: its role and its content. *)
Definition build_prompt (query context : string) : list (string * string) :=
  [ ("system"%string, _SYSTEM_PROMPT);
    ("user"%string,
     "Context:" +:+ nl +:+ context +:+ nl +:+ nl +:+ "Question: " +:+ query) ].

Section Backends.
(** The three LLM backends: each catches its own failures and returns
    the generated text or [None]. *)
Variables _try_ollama _try_huggingface _try_openai :
  list (string * string) -> option string.

(** [for backend in (...): answer = backend(messages); if answer: return]. *)
Fixpoint first_answer (backends : list (list (string * string) -> option string))
    (messages : list (string * string)) : option string :=
  match backends with
  | [] => None
  | backend :: backends' =>
      if truthy (backend messages) then backend messages
      else first_answer backends' messages
  end.

Definition fallback_prefix : string :=
  "No LLM backend is currently available.  " +:+
  "Here are the most relevant courses found:" +:+ nl +:+ nl.

Definition generate_answer (query : string) (retrieved_records : list Rec)
  : string * string :=
  let context := assemble_context retrieved_records in
  let messages := build_prompt query context in
  match first_answer [_try_ollama; _try_huggingface; _try_openai] messages with
  | Some answer => (answer, context)
  | None => (fallback_prefix +:+ context, context)
  end.
End Backends.

End Generator.

(** ** [rag/pipeline.py]: the pipeline object and [rebuild]

    The object of [RAGPipeline] after its construction: the flag
    [force_rebuild] and the three loaded fields.  [_load] assigns
    [_index] and [_metadata] before it builds the keyword searcher, so an
    exception of the latter leaves the first two assigned.  The
    constructor of [BM25Okapi] is the library's and may raise on the
    tokenised corpus. *)

Module Lifecycle.

Record State : Type := mkState {
  force_rebuild : bool;
  loaded : Pipeline.RAGPipeline
}.

Section Lifecycle.
Variable embed_texts : list string -> result (list VectorStore.vec).
Variable BM25Okapi : list (list string) -> result unit.

(** [KeywordSearcher(records)], with the construction of the BM25 object. *)
Definition KeywordSearcher (records : list Course)
  : result KeywordSearch.KeywordSearcher :=
  do ks <- KeywordSearch.KeywordSearcher_init records;
  do _ <- BM25Okapi (KeywordSearch._bm25 ks);
  Ok ks.

Definition _load (env : VectorStore.Env) (self : State) (disk : VectorStore.Disk)
  : VectorStore.Disk * (State * result unit) :=
  let '(disk', r) :=
    VectorStore.load_or_build embed_texts env (force_rebuild self) disk in
  match r with
  | Raise e => (disk', (self, Raise e))
  | Ok (index, metadata) =>
      let self :=
        mkState (force_rebuild self)
          (Pipeline.mkRAGPipeline index metadata
             (Pipeline._keyword_searcher (loaded self))) in
      match KeywordSearcher metadata with
      | Raise e => (disk', (self, Raise e))
      | Ok ks =>
          (disk',
           (mkState (force_rebuild self) (Pipeline.mkRAGPipeline index metadata ks),
            Ok tt))
      end
  end.

Definition rebuild (env : VectorStore.Env) (self : State) (disk : VectorStore.Disk)
  : VectorStore.Disk * (State * result unit) :=
  let self := mkState true (loaded self) in
  let '(disk', (self, r)) := _load env self disk in
  match r with
  | Raise e => (disk', (self, Raise e))
  | Ok _ => (disk', (mkState false (loaded self), Ok tt))
  end.
End Lifecycle.

Definition num_records (self : State) : Z :=
  Z.of_nat (length (Pipeline._metadata (loaded self))).

(** [index_size] of a pipeline whose index is loaded. *)
Definition index_size (self : State) : Z :=
  VectorStore.ntotal (Pipeline._index (loaded self)).

End Lifecycle.

(** ** Vocabulary of the properties *)

Section Order.
Context {A : Type} (key : A -> Q).

(** Descending order of the keys. *)
Definition desc (a b : A) : Prop := (key b <= key a)%Q.

(** The elements whose key equals [v], in the order of the list. *)
Definition with_key (v : Q) (l : list A) : list A :=
  List.filter (fun a => Qeq_bool (key a) v) l.
End Order.

Definition in01 (q : Q) : Prop := (0 <= q /\ q <= 1)%Q.

(** The record has a [course_code] key. *)
Definition has_code (r : Rec) : bool :=
  match fields r !! "course_code"%string with Some _ => true | None => false end.

(** The record has no [rrf_score] key (no result of a search has one). *)
Definition no_rrf (r : Rec) : bool :=
  match rrf_score r with None => true | Some _ => false end.

(** The similarity and keyword scores that are present lie in [0, 1]. *)
Definition scores_ok (r : Rec) : Prop :=
  (forall s, similarity_score r = Some s -> in01 s) /\
  (forall k, keyword_score r = Some k -> in01 k).

(** The raw RRF score is present and positive. *)
Definition rrf_pos (r : Rec) : Prop :=
  exists q, rrf_score r = Some q /\ (0 < q)%Q.

(** The three scores of a returned result are present and lie in [0, 1]. *)
Definition scores_in_unit (r : Rec) : Prop :=
  exists s k f,
    similarity_score r = Some s /\ keyword_score r = Some k /\
    final_score r = Some f /\ in01 s /\ in01 k /\ in01 f.

(** A scored entry whose final score is present and in range. *)
Definition scored_ok (r : Rec) : Prop :=
  scores_ok r /\ exists f, final_score r = Some f /\ in01 f.

(** The sort keys of the two fusions. *)
Definition final_key (r : Rec) : Q := get_or (final_score r) 0.
Definition rrf_key (r : Rec) : Q := get_or (rrf_score r) 0.

(** What one candidate of the vector search contributes: nothing for the
    padding id [-1] and for a record the filters reject, the scored copy
    of the record otherwise. *)
Definition candidate_match (metadata : list Course) (department source : option string)
    (cand : Q * Z) : result (option Rec) :=
  if snd cand =? -1 then Ok None
  else
    do rec <- getitem metadata (snd cand);
    do keep <- passes_filters department source rec;
    Ok (if keep then Some (set_similarity (dict_of rec) (VectorStore.clip01 (fst cand)))
        else None).

(** The matches of a candidate pool, in the order of the pool. *)
Definition pool_matches (metadata : list Course) (department source : option string)
    (cands : list (Q * Z)) : result (list Rec) :=
  do ms <- map_result (candidate_match metadata department source) cands;
  Ok (omap id ms).

(** The field is present and holds a string. *)
Definition has_str (c : Course) (key : string) : Prop :=
  exists s, c !! key = Some (VStr s).

(** The field is absent or holds a string (it is not [None]). *)
Definition not_null (c : Course) (key : string) : bool :=
  match c !! key with Some VNone => false | _ => true end.

(** A candidate id is the padding [-1] or a row of the metadata. *)
Definition valid_id (metadata : list Course) (idx : Z) : bool :=
  (idx =? -1) || ((0 <=? idx) && (idx <? Z.of_nat (length metadata))).

(** The sort key of the vector search: the similarity score. *)
Definition sim_key (r : Rec) : Q := get_or (similarity_score r) 0.

(** The order in which course codes are first met: the insertion order
    of a dictionary keyed by them. *)
Definition see (seen : list fval) (code : fval) : list fval :=
  if decide (code ∈ seen) then seen else seen ++ [code].
Definition first_seen (codes : list fval) : list fval := fold_left see codes [].

(** The similarity and the keyword score are both present. *)
Definition both_present (r : Rec) : Prop :=
  similarity_score r <> None /\ keyword_score r <> None.

(** The record carries the course code [code]. *)
Definition code_eqb (code : fval) (r : Rec) : bool :=
  match fields r !! "course_code"%string with
  | Some c => bool_decide (c = code)
  | None => false
  end.

(** Every entry of the dictionary sits under its own course code. *)
Definition keyed (c : Hybrid.odict) : Prop :=
  Forall (fun kv => course_code (snd kv) = Ok (fst kv)) c.

(** The text is empty or consists only of whitespace. *)
Fixpoint blank (s : string) : bool :=
  match s with
  | EmptyString => true
  | String c s' => is_space c && blank s'
  end.

(** The record satisfies the filters that are active: its department
    contains the filter text and its source equals the filter text, both
    without regard to case. *)
Definition matches_filters (department source : option string) (c : Course) : Prop :=
  (truthy department = true ->
   exists d x, department = Some d /\ c !! "department"%string = Some (VStr x) /\
               contains (lower d) (lower x) = true) /\
  (truthy source = true ->
   exists s x, source = Some s /\ c !! "source"%string = Some (VStr x) /\
               upper x = upper s).

(** The sort key of the keyword search. *)
Definition kw_key (r : Rec) : Q := get_or (keyword_score r) 0.

(** The course code of a result, as the dictionary holds it. *)
Definition code_of (r : Rec) : option fval := fields r !! "course_code"%string.

Fixpoint all_chars (p : ascii -> bool) (s : string) : bool :=
  match s with
  | EmptyString => true
  | String c s' => p c && all_chars p s'
  end.

(** The sum of the lengths of the blocks. *)
Definition total_len (blocks : list string) : Z :=
  fold_right (fun b n => Generator.len b + n) 0 blocks.

(** The result carries both leg scores, and its final score is their
    weighted sum. *)
Definition weighted_formula (alpha beta : Q) (r : Rec) : Prop :=
  exists s k, similarity_score r = Some s /\ keyword_score r = Some k /\
              final_score r = Some (alpha * s + beta * k)%Q.


(** What [_tokenise] does to one character after lowering it. *)
Definition clean_char (c : ascii) : ascii :=
  if is_word c || is_space c then c else " "%char.

(** Two optional texts that differ at most in the case of their letters. *)
Definition same_case (a b : option string) : Prop := lower <$> a = lower <$> b.

(** The embedding model returns one vector for each text. *)
Definition one_vector_per_text
    (embed_texts : list string -> result (list VectorStore.vec)) : Prop :=
  forall texts embeddings,
    embed_texts texts = Ok embeddings -> length embeddings = length texts.

(** The token list of a record's document text. *)
Definition tokens_of (r : Course) (tokens : list string) : Prop :=
  exists text, Embedder.build_embed_text r = Ok text /\
               tokens = KeywordSearch._tokenise text.

(** The in-memory snapshot is all of one corpus: the keyword searcher
    holds the metadata rows and, row for row, their token lists. *)
Definition consistent (p : Pipeline.RAGPipeline) : Prop :=
  KeywordSearch._records (Pipeline._keyword_searcher p) = Pipeline._metadata p /\
  Forall2 tokens_of (Pipeline._metadata p)
    (KeywordSearch._bm25 (Pipeline._keyword_searcher p)).

(** The disk holds exactly the index and the metadata of the pipeline. *)
Definition persisted (p : Pipeline.RAGPipeline) (disk : VectorStore.Disk) : Prop :=
  VectorStore.load_index disk = Ok (Pipeline._index p, Pipeline._metadata p).

(** ** Sample data *)

Module Sample.

Definition course (code title dept src : string) : Course :=
  {[ "course_code"%string := VStr code; "title"%string := VStr title;
     "department"%string := VStr dept; "description"%string := VStr title;
     "source"%string := VStr src ]}.

Definition csci0150 : Course := course "CSCI0150" "Intro to OOP" "Computer Science" "CAB".
Definition csci0320 : Course :=
  course "CSCI0320" "Intro to Software Engineering" "Computer Science" "BULLETIN".
Definition engl0100 : Course := course "ENGL0100" "How Literature Matters" "English" "CAB".

(** One document found by both legs. *)
Definition sem_leg : list Rec := [set_similarity (dict_of csci0320) (9 # 10)].
Definition kw_leg : list Rec := [set_keyword (dict_of csci0320) 1].

(** The corpus of the scenario and stand-ins for the three libraries: a
    two-dimensional embedding, an exhaustive inner-product search padded
    with [-1], and a term-overlap count in place of BM25. *)
Definition corpus : list Course := [csci0150; csci0320; engl0100].

Definition index : VectorStore.Index :=
  VectorStore.mkIndex [[3 # 5; 4 # 5]; [1; 0]; [0; 1]]%Q.

Definition embed_texts (texts : list string) : result (list VectorStore.vec) :=
  Ok (map (fun _ => [1; 0]%Q) texts).

Definition dot (a b : VectorStore.vec) : Q :=
  Qred (fold_right Qplus 0%Q (zip_with Qmult a b)).

Definition index_search (index : VectorStore.Index) (qs : list VectorStore.vec)
    (k : Z) : list (list (Q * Z)) :=
  map (fun q =>
         let scored :=
           sorted_desc fst (imap (fun i row => (dot q row, Z.of_nat i))
                                 (VectorStore.rows index)) in
         take (Z.to_nat k) scored
         ++ replicate (Z.to_nat k - length scored) ((-1)%Q, -1)) qs.

Definition overlap (tokens doc : list string) : Q :=
  inject_Z (Z.of_nat (length (List.filter (fun t => bool_decide (t ∈ doc)) tokens))).

Definition bm25_get_scores (corpus : list (list string)) (tokens : list string)
  : list Q :=
  map (overlap tokens) corpus.

Definition keyword_searcher : KeywordSearch.KeywordSearcher :=
  match KeywordSearch.KeywordSearcher_init corpus with
  | Ok ks => ks
  | Raise _ => KeywordSearch.mkKeywordSearcher [] []
  end.

Definition generate_answer (question : string) (records : list Rec)
  : string * string := (""%string, ""%string).
Definition assemble_context (records : list Rec) : string := ""%string.

(** A record with neither a department nor a source. *)
Definition bare : Course :=
  {[ "course_code"%string := VStr "MATH0100"; "title"%string := VStr "Calculus" ]}.

Definition corpus_bare : list Course := [csci0150; bare].
Definition index_bare : VectorStore.Index := VectorStore.mkIndex [[1; 0]; [1; 0]]%Q.

(** The pool the index returns for [top_k = 1] under a department filter. *)
Definition pool : list (Q * Z) := [(1%Q, 1); (3 # 5, 0); (0%Q, 2)].

(** A persisted snapshot of an older, one-course corpus, written at
    clock 5; [courses.json] was modified at clock 10. *)
Definition old_index : VectorStore.Index := VectorStore.mkIndex [[0; 1]]%Q.
Definition old_metadata : list Course := [engl0100].

Definition stale_disk : VectorStore.Disk :=
  VectorStore.mkDisk
    (Some (VectorStore.mkFile (VectorStore.Valid corpus) 10))
    (Some (VectorStore.mkFile (VectorStore.Valid old_index) 5))
    (Some (VectorStore.mkFile (VectorStore.Valid old_metadata) 5)).

(** Both writes of [save_index] complete, at clocks 20 and 21. *)
Definition env_ok : VectorStore.Env :=
  VectorStore.mkEnv 20 VectorStore.Written 21 VectorStore.Written.

(** The index is written; [metadata.pkl] cannot be opened for writing. *)
Definition env_meta_fails : VectorStore.Env :=
  VectorStore.mkEnv 20 VectorStore.Written 21 VectorStore.FailsAtOpen.

(** An index of three rows next to the metadata of one course. *)
Definition mismatched_disk : VectorStore.Disk :=
  VectorStore.mkDisk
    (Some (VectorStore.mkFile (VectorStore.Valid corpus) 10))
    (Some (VectorStore.mkFile (VectorStore.Valid index) 20))
    (Some (VectorStore.mkFile (VectorStore.Valid old_metadata) 20)).

Definition rag : Pipeline.RAGPipeline :=
  Pipeline.mkRAGPipeline index corpus keyword_searcher.

(** The scenario of the specification: "software engineering", hybrid
    mode, [top_k = 2], under either fusion. *)
Definition hybrid_out (fusion : string) : list Rec :=
  match Hybrid.hybrid_search embed_texts index_search bm25_get_scores
          "software engineering" index corpus keyword_searcher 2 None None
          fusion (7 # 10) (3 # 10) 50 50 with
  | Ok out => out
  | Raise _ => []
  end.

End Sample.

(** ** More runs on the sample corpus *)

Module Scenario.

Definition unwrap {A} (r : result (list A)) : list A :=
  match r with Ok l => l | Raise _ => [] end.

(** The vector search for two results among the CAB courses of a
    department containing "computer". *)
Definition search_out : list Rec :=
  unwrap (VectorStore.search Sample.index_search Sample.index Sample.corpus
            [[1; 0]%Q] 2 (Some "computer"%string) (Some "cab"%string)).

Definition keyword_out : list Rec :=
  unwrap (KeywordSearch.search Sample.bm25_get_scores Sample.keyword_searcher
            "software engineering" 50 None None).

Definition vector_out : list Rec :=
  unwrap (Hybrid.vector_search Sample.embed_texts Sample.index_search
            "software engineering" Sample.index Sample.corpus 2 None None).

(** The document text of the second course of the corpus. *)
Definition csci0320_text : string :=
  match Embedder.build_embed_text Sample.csci0320 with
  | Ok t => t
  | Raise _ => ""%string
  end.

(** A course whose description is [None]. *)
Definition undescribed : Course :=
  <["description"%string := VNone]> Sample.engl0100.

(** A stand-in for the constructor of [BM25Okapi]: it divides by the
    number of documents. *)
Definition BM25Okapi (corpus : list (list string)) : result unit :=
  match corpus with [] => Raise ZeroDivisionError | _ => Ok tt end.

(** A constructor that raises on every corpus. *)
Definition BM25Okapi_raises (corpus : list (list string)) : result unit :=
  Raise ZeroDivisionError.

(** A pipeline object holding the older, one-course snapshot. *)
Definition old_searcher : KeywordSearch.KeywordSearcher :=
  match KeywordSearch.KeywordSearcher_init Sample.old_metadata with
  | Ok ks => ks
  | Raise _ => KeywordSearch.mkKeywordSearcher [] []
  end.

Definition old_state : Lifecycle.State :=
  Lifecycle.mkState false
    (Pipeline.mkRAGPipeline Sample.old_index Sample.old_metadata old_searcher).

Definition rebuilt : VectorStore.Disk * (Lifecycle.State * result unit) :=
  Lifecycle.rebuild Sample.embed_texts BM25Okapi Sample.env_ok old_state
    Sample.stale_disk.

Definition rebuild_torn : VectorStore.Disk * (Lifecycle.State * result unit) :=
  Lifecycle.rebuild Sample.embed_texts BM25Okapi_raises Sample.env_ok old_state
    Sample.stale_disk.

End Scenario.

(** * Properties *)

(** ** The result monad *)

Lemma bind_Ok {A B} (m : result A) (f : A -> result B) (b : B) :
  bind m f = Ok b -> exists a, m = Ok a /\ f a = Ok b.
Proof. destruct m as [a|e]; simpl; [eauto | discriminate]. Qed.

Ltac inv_bind H :=
  let a := fresh "a" in
  let Ha := fresh "Ha" in
  apply bind_Ok in H; destruct H as (a & Ha & H).

(** ** [sorted(..., reverse=True)] is a stable descending sort *)

Section SortedFacts.
Context {A : Type} (key : A -> Q).

Lemma insert_desc_perm x l : Permutation (x :: l) (insert_desc key x l).
Proof.
  induction l as [|y l IH]; simpl; [reflexivity|].
  destruct (Qle_bool (key y) (key x)); [reflexivity|].
  rewrite perm_swap. now apply perm_skip.
Qed.

Lemma sorted_desc_perm l : Permutation l (sorted_desc key l).
Proof.
  induction l as [|x l IH]; simpl; [reflexivity|].
  rewrite <- insert_desc_perm. now apply perm_skip.
Qed.

Lemma insert_desc_sorted x l :
  StronglySorted (desc key) l -> StronglySorted (desc key) (insert_desc key x l).
Proof.
  induction l as [|y l IH]; simpl; intros Hs.
  - repeat constructor.
  - inversion Hs as [|? ? Hl Hy]; subst.
    destruct (Qle_bool (key y) (key x)) eqn:E.
    + apply Qle_bool_iff in E. constructor; [assumption|].
      constructor; [exact E|].
      eapply Forall_impl; [exact Hy|]. unfold desc; simpl.
      intros a Ha. apply Qle_trans with (key y); assumption.
    + assert (Hlt : (key x < key y)%Q).
      { apply Qnot_le_lt. intros Hle. apply Qle_bool_iff in Hle. congruence. }
      constructor; [now apply IH|].
      rewrite <- insert_desc_perm. constructor; [|exact Hy].
      unfold desc. now apply Qlt_le_weak.
Qed.

Lemma sorted_desc_sorted l : StronglySorted (desc key) (sorted_desc key l).
Proof.
  induction l as [|x l IH]; simpl; [constructor | now apply insert_desc_sorted].
Qed.

Lemma insert_desc_with_key v x l :
  with_key key v (insert_desc key x l) = with_key key v (x :: l).
Proof.
  induction l as [|y l IH]; simpl; [reflexivity|].
  destruct (Qle_bool (key y) (key x)) eqn:E; [reflexivity|].
  simpl in *. rewrite IH.
  destruct (Qeq_bool (key x) v) eqn:Ex; [|reflexivity].
  destruct (Qeq_bool (key y) v) eqn:Ey; [|reflexivity].
  apply Qeq_bool_iff in Ex, Ey.
  assert (Hle : Qle_bool (key y) (key x) = true).
  { apply Qle_bool_iff. rewrite Ex, Ey. apply Qle_refl. }
  congruence.
Qed.

(** Stability: the elements of any one key keep their input order. *)
Lemma sorted_desc_stable v l : with_key key v (sorted_desc key l) = with_key key v l.
Proof.
  induction l as [|x l IH]; simpl; [reflexivity|].
  rewrite insert_desc_with_key. unfold with_key in *. simpl. now rewrite IH.
Qed.

Lemma sorted_desc_Forall (P : A -> Prop) l :
  Forall P l -> Forall P (sorted_desc key l).
Proof. intros H. now rewrite <- sorted_desc_perm. Qed.

Lemma sorted_desc_nil_inv l : sorted_desc key l = [] -> l = [].
Proof.
  intros H. apply Permutation_nil. rewrite <- H. symmetry. apply sorted_desc_perm.
Qed.
End SortedFacts.

(** ** Rational arithmetic used by the scores *)

Lemma clip01_in01 score : in01 (VectorStore.clip01 score).
Proof.
  unfold in01, VectorStore.clip01. split.
  - apply Q.min_glb; [apply Q.le_max_r | discriminate].
  - apply Q.le_min_r.
Qed.

Lemma Qinv_inject_pos (z : Z) : 0 < z -> (0 < 1 / inject_Z z)%Q.
Proof.
  intros Hz. unfold Qdiv. rewrite Qmult_1_l. apply Qinv_lt_0_compat.
  change 0%Q with (inject_Z 0). rewrite <- Zlt_Qlt. exact Hz.
Qed.

Lemma Qdiv_self (q : Q) : ~ (q == 0)%Q -> (q / q == 1)%Q.
Proof. intros H. unfold Qdiv. now apply Qmult_inv_r. Qed.

Lemma Qdiv_le_1 (a b : Q) : (0 < b)%Q -> (a <= b)%Q -> (a / b <= 1)%Q.
Proof.
  intros Hb Hab. apply Qle_shift_div_r; [exact Hb|]. now rewrite Qmult_1_l.
Qed.

Lemma Qdiv_pos (a b : Q) : (0 < a)%Q -> (0 < b)%Q -> (0 < a / b)%Q.
Proof. intros Ha Hb. apply Qlt_shift_div_l; [exact Hb|]. now rewrite Qmult_0_l. Qed.

Lemma Qeq_bool_false_pos (q : Q) : (0 < q)%Q -> Qeq_bool q 0 = false.
Proof.
  intros H. destruct (Qeq_bool q 0) eqn:E; [|reflexivity].
  apply Qeq_bool_iff in E. rewrite E in H. now apply Qlt_irrefl in H.
Qed.

(** ** The insertion-ordered dictionary *)

Section ODictFacts.
Import Hybrid.

Lemma od_get_In (d : odict) k e : od_get d k = Some e -> In e (od_values d).
Proof.
  induction d as [|[k' v] d IH]; simpl; [discriminate|].
  destruct (decide (k' = k)); intros H; [left; congruence | right; auto].
Qed.

Lemma od_set_Forall (P : Rec -> Prop) (d : odict) k v :
  Forall P (od_values d) -> P v -> Forall P (od_values (od_set d k v)).
Proof.
  induction d as [|[k' v'] d IH]; simpl; intros Hd Hv.
  - now constructor.
  - inversion Hd; subst.
    destruct (decide (k' = k)); simpl; constructor; auto.
Qed.

Lemma od_set_not_nil (d : odict) k v : od_set d k v <> [].
Proof. destruct d as [|[k' v'] d]; simpl; [|destruct (decide (k' = k))]; discriminate. Qed.

Lemma od_get_set_eq (d : odict) k v : od_get (od_set d k v) k = Some v.
Proof.
  induction d as [|[k' v'] d IH]; simpl.
  - now rewrite decide_True.
  - destruct (decide (k' = k)) as [->|Hne]; simpl.
    + now rewrite decide_True.
    + now rewrite decide_False.
Qed.

Lemma od_get_set_ne (d : odict) k k' v :
  k <> k' -> od_get (od_set d k v) k' = od_get d k'.
Proof.
  intros Hne. induction d as [|[k0 v0] d IH]; simpl.
  - now rewrite decide_False.
  - destruct (decide (k0 = k)) as [->|Hne0]; simpl.
    + now rewrite !decide_False.
    + now rewrite IH.
Qed.

(** A key that is set keeps its place; a new key goes last. *)
Lemma od_set_keys (d : odict) k v :
  od_keys (od_set d k v) =
  if decide (k ∈ od_keys d) then od_keys d else od_keys d ++ [k].
Proof.
  unfold od_keys. induction d as [|[k' v'] d IH]; cbn [od_set map fst app].
  - rewrite decide_False; [reflexivity | apply not_elem_of_nil].
  - destruct (decide (k' = k)) as [->|Hne]; cbn [map fst].
    + rewrite decide_True; [reflexivity | apply elem_of_cons; now left].
    + rewrite IH. destruct (decide (k ∈ map fst d)) as [Hin|Hin].
      * rewrite decide_True; [reflexivity | apply elem_of_cons; now right].
      * rewrite decide_False; [reflexivity|].
        rewrite elem_of_cons. intros [?|?]; [congruence | contradiction].
Qed.

Lemma plain_loop_inv (I : odict -> Prop) (P : Rec -> Prop) step l :
  (forall c rec c', I c -> P rec -> step c rec = Ok c' -> I c') ->
  Forall P l -> forall c0 c, I c0 -> plain_loop step c0 l = Ok c -> I c.
Proof.
  intros Hstep HP. induction HP as [|rec l Hrec Hl IH]; simpl; intros c0 c H0 H.
  - congruence.
  - inv_bind H. eapply IH; [|exact H]. eauto.
Qed.

Lemma ranked_loop_inv (I : odict -> Prop) (P : Rec -> Prop) step l :
  (forall c rank rec c', 1 <= rank -> I c -> P rec -> step c rank rec = Ok c' -> I c') ->
  Forall P l -> forall c0 rank c, 1 <= rank -> I c0 ->
  ranked_loop step c0 rank l = Ok c -> I c.
Proof.
  intros Hstep HP. induction HP as [|rec l Hrec Hl IH]; simpl; intros c0 rank c Hr H0 H.
  - congruence.
  - inv_bind H. eapply IH; [| |exact H]; [lia|]. eauto.
Qed.

Lemma plain_loop_total (P : Rec -> Prop) step l :
  (forall c rec, P rec -> exists c', step c rec = Ok c') ->
  Forall P l -> forall c0, exists c, plain_loop step c0 l = Ok c.
Proof.
  intros Hstep HP. induction HP as [|rec l Hrec Hl IH]; simpl; intros c0; [eauto|].
  destruct (Hstep c0 rec Hrec) as [c' ->]. simpl. apply IH.
Qed.

Lemma ranked_loop_total (P : Rec -> Prop) step l :
  (forall c rank rec, 1 <= rank -> P rec -> exists c', step c rank rec = Ok c') ->
  Forall P l -> forall c0 rank, 1 <= rank ->
  exists c, ranked_loop step c0 rank l = Ok c.
Proof.
  intros Hstep HP. induction HP as [|rec l Hrec Hl IH]; simpl; intros c0 rank Hr; [eauto|].
  destruct (Hstep c0 rank rec Hr Hrec) as [c' ->]. simpl. apply IH. lia.
Qed.
End ODictFacts.

(** ** Reciprocal rank fusion *)

Section RRFFacts.
Import Hybrid.

Lemma rrf_term_pos k rank t :
  0 <= k -> 1 <= rank -> rrf_term k rank = Ok t -> (0 < t)%Q.
Proof.
  unfold rrf_term. intros Hk Hr H.
  destruct (k + rank =? 0) eqn:E; [discriminate|].
  injection H as <-. apply Qinv_inject_pos. lia.
Qed.

Lemma rrf_term_total k rank :
  0 <= k -> 1 <= rank -> exists t, rrf_term k rank = Ok t.
Proof.
  unfold rrf_term. intros Hk Hr.
  destruct (k + rank =? 0) eqn:E; [lia | eauto].
Qed.

Lemma no_rrf_None r : no_rrf r = true -> rrf_score r = None.
Proof. unfold no_rrf. now destruct (rrf_score r). Qed.

Lemma has_code_Ok r : has_code r = true -> exists c, course_code r = Ok c.
Proof.
  unfold has_code, course_code.
  destruct (fields r !! "course_code"%string); [eauto | discriminate].
Qed.

Lemma set_rrf_pos entry t :
  (0 < t)%Q -> (rrf_pos entry \/ rrf_score entry = None) ->
  rrf_pos (set_rrf entry (get_or (rrf_score entry) 0 + t)).
Proof.
  intros Ht H. eexists; split; [reflexivity|].
  destruct H as [(q & -> & Hq) | ->]; simpl; lra.
Qed.

Lemma rrf_sem_step_pos k c rank rec c' :
  0 <= k -> 1 <= rank -> Forall rrf_pos (od_values c) -> no_rrf rec = true ->
  rrf_sem_step k c rank rec = Ok c' -> Forall rrf_pos (od_values c').
Proof.
  intros Hk Hr Hc Hrec H. unfold rrf_sem_step in H.
  inv_bind H. inv_bind H. injection H as <-.
  apply od_set_Forall; [exact Hc|].
  apply set_rrf_pos; [eapply rrf_term_pos; eauto|].
  destruct (od_get c a) eqn:E.
  - left. apply od_get_In in E. rewrite Forall_forall in Hc.
    apply Hc. now apply list_elem_of_In.
  - right. apply no_rrf_None in Hrec.
    unfold setdefault_keyword. now destruct (keyword_score rec).
Qed.

Lemma rrf_kw_step_pos k c rank rec c' :
  0 <= k -> 1 <= rank -> Forall rrf_pos (od_values c) -> no_rrf rec = true ->
  rrf_kw_step k c rank rec = Ok c' -> Forall rrf_pos (od_values c').
Proof.
  intros Hk Hr Hc Hrec H. unfold rrf_kw_step in H.
  inv_bind H. inv_bind H. injection H as <-.
  apply od_set_Forall; [exact Hc|].
  apply set_rrf_pos; [eapply rrf_term_pos; eauto|].
  destruct (od_get c a) eqn:E.
  - left. apply od_get_In in E. rewrite Forall_forall in Hc.
    apply list_elem_of_In, Hc in E. destruct E as (q & Eq & Hq).
    exists q. split; [|exact Hq].
    unfold setdefault_keyword. now destruct (keyword_score r).
  - right. apply no_rrf_None in Hrec.
    unfold setdefault_keyword, setdefault_similarity.
    destruct (similarity_score rec); simpl; destruct (keyword_score rec); now simpl.
Qed.

Lemma ranked_loop_not_nil step l :
  (forall c rank rec c', step c rank rec = Ok c' -> c' <> []) ->
  forall c0 rank c, ranked_loop step c0 rank l = Ok c ->
  l <> [] \/ c0 <> [] -> c <> [].
Proof.
  intros Hstep. induction l as [|rec l IH]; simpl; intros c0 rank c H Hne.
  - injection H as <-. destruct Hne; congruence.
  - inv_bind H. eapply IH; [exact H|]. right. eauto.
Qed.

Lemma rrf_sem_step_not_nil k c rank rec c' :
  rrf_sem_step k c rank rec = Ok c' -> c' <> [].
Proof.
  unfold rrf_sem_step. intros H. inv_bind H. inv_bind H.
  injection H as <-. apply od_set_not_nil.
Qed.

Lemma rrf_kw_step_not_nil k c rank rec c' :
  rrf_kw_step k c rank rec = Ok c' -> c' <> [].
Proof.
  unfold rrf_kw_step. intros H. inv_bind H. inv_bind H.
  injection H as <-. apply od_set_not_nil.
Qed.

Lemma rrf_sem_step_total k c rank rec :
  0 <= k -> 1 <= rank -> has_code rec = true ->
  exists c', rrf_sem_step k c rank rec = Ok c'.
Proof.
  intros Hk Hr Hc. unfold rrf_sem_step.
  destruct (has_code_Ok _ Hc) as [code ->].
  destruct (rrf_term_total k rank Hk Hr) as [t ->]. simpl. eauto.
Qed.

Lemma rrf_kw_step_total k c rank rec :
  0 <= k -> 1 <= rank -> has_code rec = true ->
  exists c', rrf_kw_step k c rank rec = Ok c'.
Proof.
  intros Hk Hr Hc. unfold rrf_kw_step.
  destruct (has_code_Ok _ Hc) as [code ->].
  destruct (rrf_term_total k rank Hk Hr) as [t ->]. simpl. eauto.
Qed.

(** The merged dictionary exists when every record has a course code. *)
Lemma rrf_combined_total sem kw k :
  0 <= k -> Forall (fun r => has_code r = true) sem ->
  Forall (fun r => has_code r = true) kw ->
  exists c, rrf_combined sem kw k = Ok c.
Proof.
  intros Hk Hs Hw. unfold rrf_combined.
  destruct (ranked_loop_total _ (rrf_sem_step k) sem
              (fun c rank rec Hr Hc => rrf_sem_step_total k c rank rec Hk Hr Hc)
              Hs [] 1 ltac:(lia)) as [c1 ->].
  simpl.
  apply (ranked_loop_total _ (rrf_kw_step k) kw
           (fun c rank rec Hr Hc => rrf_kw_step_total k c rank rec Hk Hr Hc) Hw).
  lia.
Qed.

(** Every entry of the merged dictionary has a positive raw score. *)
Lemma rrf_combined_pos sem kw k c :
  0 <= k -> Forall (fun r => no_rrf r = true) sem ->
  Forall (fun r => no_rrf r = true) kw ->
  rrf_combined sem kw k = Ok c -> Forall rrf_pos (od_values c).
Proof.
  intros Hk Hs Hw H. unfold rrf_combined in H. inv_bind H.
  eapply (ranked_loop_inv (fun c => Forall rrf_pos (od_values c)) _ _ kw);
    [| exact Hw | | | exact H]; [| lia |].
  - intros c0 rank rec c' Hr Hc Hrec Hstep.
    exact (rrf_kw_step_pos k c0 rank rec c' Hk Hr Hc Hrec Hstep).
  - eapply (ranked_loop_inv (fun c => Forall rrf_pos (od_values c)) _ _ sem);
      [| exact Hs | | | exact Ha]; [| lia | constructor].
    intros c0 rank rec c' Hr Hc Hrec Hstep.
    exact (rrf_sem_step_pos k c0 rank rec c' Hk Hr Hc Hrec Hstep).
Qed.

Lemma rrf_combined_not_nil sem kw k c :
  rrf_combined sem kw k = Ok c -> sem <> [] \/ kw <> [] -> c <> [].
Proof.
  intros H Hne. unfold rrf_combined in H. inv_bind H.
  eapply ranked_loop_not_nil; [| exact H |].
  - intros; eapply rrf_kw_step_not_nil; eauto.
  - destruct Hne as [Hs|Hw]; [right | now left].
    eapply ranked_loop_not_nil; [| exact Ha | now left].
    intros; eapply rrf_sem_step_not_nil; eauto.
Qed.
End RRFFacts.

Lemma forallb_Forall {A} (f : A -> bool) (l : list A) :
  forallb f l = true -> Forall (fun x => f x = true) l.
Proof.
  induction l as [|x l IH]; simpl; intros H; [constructor|].
  apply andb_true_iff in H as [Hx Hl]. constructor; auto.
Qed.

Lemma od_values_nil (c : Hybrid.odict) : Hybrid.od_values c = [] -> c = [].
Proof. destruct c; [reflexivity | discriminate]. Qed.

(** C10.  Whenever at least one leg is non-empty, reciprocal rank fusion
    returns a non-empty list whose first result has [final_score] equal to
    1: the list is sorted by descending raw RRF score and every raw score
    is divided by the raw score of the first element, which is positive.
    The legs are results of the two searches: every record has a course
    code and none carries an [rrf_score] of its own. *)
Theorem rrf_first_result_has_final_score_one (sem kw : list Rec) (k : Z) :
  0 <= k ->
  sem <> [] \/ kw <> [] ->
  forallb has_code (sem ++ kw) = true ->
  forallb no_rrf (sem ++ kw) = true ->
  exists r rest q,
    Hybrid._reciprocal_rank_fusion sem kw k = Ok (r :: rest) /\
    final_score r = Some q /\ (q == 1)%Q.
Proof.
  intros Hk Hne Hcode Hrrf.
  rewrite forallb_app in Hcode, Hrrf.
  apply andb_true_iff in Hcode as [Hcs Hcw], Hrrf as [Hrs Hrw].
  apply forallb_Forall in Hcs, Hcw, Hrs, Hrw.
  destruct (rrf_combined_total sem kw k Hk Hcs Hcw) as [c Hc].
  pose proof (rrf_combined_pos sem kw k c Hk Hrs Hrw Hc) as Hpos.
  pose proof (rrf_combined_not_nil sem kw k c Hc Hne) as Hnil.
  unfold Hybrid._reciprocal_rank_fusion. rewrite Hc. simpl.
  apply (sorted_desc_Forall rrf_key) in Hpos.
  change (fun r : Rec => get_or (rrf_score r) 0) with rrf_key.
  destruct (sorted_desc rrf_key (Hybrid.od_values c)) as [|r0 rest] eqn:E.
  - apply sorted_desc_nil_inv, od_values_nil in E. contradiction.
  - inversion Hpos as [|? ? (q0 & Hq0 & Hgt) _]; subst.
    unfold Hybrid.rrf_normalise. rewrite Hq0. simpl.
    rewrite (Qeq_bool_false_pos q0 Hgt), Hq0. simpl.
    eexists _, _, _. split; [reflexivity|]. split; [reflexivity|].
    apply Qdiv_self. intros H0. rewrite H0 in Hgt. now apply Qlt_irrefl in Hgt.
Qed.

Lemma rrf_first_result_has_final_score_one_witness :
  exists r rest q,
    Hybrid._reciprocal_rank_fusion Sample.sem_leg Sample.kw_leg 60 = Ok (r :: rest) /\
    final_score r = Some q /\ (q == 1)%Q.
Proof.
  apply (rrf_first_result_has_final_score_one Sample.sem_leg Sample.kw_leg 60).
  - lia.
  - left. discriminate.
  - vm_compute. reflexivity.
  - vm_compute. reflexivity.
Defined.

(** C1.  The code at the failing input: one document, found by the
    semantic leg with similarity 0.9 and by the keyword leg with keyword
    score 1.  Reciprocal rank fusion returns it once, with its similarity
    score, but with [keyword_score] 0: the [setdefault] of the first loop
    has already stored 0.0, so the [setdefault] of the second loop never
    stores the score of the keyword leg.  The weighted sum, on the same
    input, carries both scores.  The same shows through [hybrid_search]
    on the scenario corpus: the best keyword match has [keyword_score] 1
    under the weighted fusion and 0 under RRF. *)
Theorem rrf_loses_keyword_score_of_shared_document :
  (exists r,
     Hybrid._reciprocal_rank_fusion Sample.sem_leg Sample.kw_leg 60 = Ok [r] /\
     similarity_score r = Some (9 # 10) /\ keyword_score r = Some 0%Q) /\
  (exists r,
     Hybrid._weighted_sum Sample.sem_leg Sample.kw_leg (7 # 10) (3 # 10) = Ok [r] /\
     similarity_score r = Some (9 # 10) /\ keyword_score r = Some 1%Q) /\
  (exists r rest,
     Sample.hybrid_out "weighted" = r :: rest /\
     fields r !! "course_code"%string = Some (VStr "CSCI0320") /\
     keyword_score r = Some (2 # 2)) /\
  (exists r rest,
     Sample.hybrid_out "rrf" = r :: rest /\
     fields r !! "course_code"%string = Some (VStr "CSCI0320") /\
     keyword_score r = Some 0%Q).
Proof.
  split; [|split; [|split]].
  - eexists. split; [vm_compute; reflexivity | split; reflexivity].
  - eexists. split; [vm_compute; reflexivity | split; reflexivity].
  - eexists _, _. split; [vm_compute; reflexivity | split; reflexivity].
  - eexists _, _. split; [vm_compute; reflexivity | split; reflexivity].
Qed.

(** ** Strings and the filters *)

Lemma truthy_Some (o : option string) :
  truthy o = true -> exists s, o = Some s /\ s <> ""%string.
Proof.
  destruct o as [s|]; simpl; [|discriminate].
  intros H. exists s. split; [reflexivity|].
  intros ->. discriminate.
Qed.

Lemma passes_filters_missing_department rec department source :
  truthy department = true -> rec !! "department"%string = None ->
  passes_filters department source rec = Ok false.
Proof.
  intros Ht Hm. destruct (truthy_Some _ Ht) as (d & -> & Hd).
  unfold passes_filters, get_str. rewrite Ht, Hm.
  destruct d; [congruence | reflexivity].
Qed.

Lemma passes_filters_missing_source rec department source :
  truthy source = true -> rec !! "source"%string = None ->
  (truthy department = true -> not_null rec "department" = true) ->
  passes_filters department source rec = Ok false.
Proof.
  intros Ht Hm Hd. destruct (truthy_Some _ Ht) as (s & -> & Hs).
  destruct s as [|a s]; [congruence|].
  unfold passes_filters, get_str. rewrite Hm.
  destruct (truthy department) eqn:Etd; [|reflexivity].
  specialize (Hd eq_refl). unfold not_null in Hd.
  destruct (rec !! "department"%string) as [[x|]|]; try discriminate; cbn [bind];
    (match goal with |- context [contains ?n ?h] => destruct (contains n h) end);
    reflexivity.
Qed.

(** A record that passes an active filter has the filtered field. *)
Lemma passes_filters_department rec department source :
  truthy department = true -> passes_filters department source rec = Ok true ->
  has_str rec "department".
Proof.
  intros Ht H. destruct (rec !! "department"%string) as [[x|]|] eqn:E.
  - now exists x.
  - unfold passes_filters, get_str in H. rewrite Ht, E in H. discriminate.
  - rewrite (passes_filters_missing_department _ _ _ Ht E) in H. discriminate.
Qed.

Lemma passes_filters_source rec department source :
  truthy source = true -> passes_filters department source rec = Ok true ->
  has_str rec "source".
Proof.
  intros Ht H. destruct (rec !! "source"%string) as [[x|]|] eqn:E.
  - now exists x.
  - unfold passes_filters, get_str in H. rewrite Ht, E in H.
    destruct (truthy department);
      destruct (rec !! "department"%string) as [[y|]|]; cbn [bind] in H;
      try discriminate;
      (match type of H with context [contains ?n ?h] => destruct (contains n h) end);
      discriminate.
  - destruct (rec !! "department"%string) as [[y|]|] eqn:Ed.
    + rewrite passes_filters_missing_source in H; try assumption; [discriminate|].
      intros _. unfold not_null. now rewrite Ed.
    + destruct (truthy department) eqn:Etd.
      * unfold passes_filters, get_str in H. rewrite Etd, Ed in H. discriminate.
      * rewrite passes_filters_missing_source in H; try assumption;
          [discriminate | congruence].
    + rewrite passes_filters_missing_source in H; try assumption; [discriminate|].
      intros _. unfold not_null. now rewrite Ed.
Qed.

(** The filters raise only on a [None]-valued field. *)
Lemma passes_filters_total rec department source :
  not_null rec "department" = true -> not_null rec "source" = true ->
  exists b, passes_filters department source rec = Ok b.
Proof.
  unfold not_null, passes_filters, get_str. intros Hd Hs.
  destruct (rec !! "department"%string) as [[x|]|]; try discriminate;
    destruct (rec !! "source"%string) as [[y|]|]; try discriminate;
    destruct (truthy department); cbn [bind];
    try (match goal with |- context [contains ?n ?h] => destruct (contains n h) end);
    cbn [negb]; destruct (truthy source); cbn [bind]; eauto.
Qed.

(** ** The loop of the vector search *)

Lemma omap_id_None {A} (l : list (option A)) : omap id (None :: l) = omap id l.
Proof. reflexivity. Qed.

Lemma omap_id_Some {A} (x : A) (l : list (option A)) :
  omap id (Some x :: l) = x :: omap id l.
Proof. reflexivity. Qed.

Section SearchLoopFacts.
Import VectorStore.
Variables (metadata : list Course) (top_k : Z) (department source : option string).

Lemma candidate_match_cases score idx a :
  candidate_match metadata department source (score, idx) = Ok a ->
  (idx = -1 /\ a = None) \/
  (idx <> -1 /\ exists rec keep,
      getitem metadata idx = Ok rec /\
      passes_filters department source rec = Ok keep /\
      a = if keep then Some (set_similarity (dict_of rec) (clip01 score)) else None).
Proof.
  unfold candidate_match. cbn [fst snd]. destruct (Z.eqb_spec idx (-1)) as [->|Hne].
  - intros [= <-]. now left.
  - intros H. right. split; [exact Hne|].
    inv_bind H. inv_bind H. injection H as <-. eauto.
Qed.

(** The loop returns the first [top_k] matches of the pool, in the
    order of the pool. *)
Lemma search_loop_spec cands : forall acc ms,
  1 <= top_k -> Z.of_nat (length acc) < top_k ->
  map_result (candidate_match metadata department source) cands = Ok ms ->
  search_loop metadata top_k department source cands acc
  = Ok (take (Z.to_nat top_k) (acc ++ omap id ms)).
Proof.
  induction cands as [|[score idx] cands IH]; intros acc ms Hk Hacc Hm;
    cbn [map_result] in Hm.
  - injection Hm as <-. cbn [search_loop omap]. rewrite app_nil_r, take_ge; [reflexivity | lia].
  - inv_bind Hm. inv_bind Hm. injection Hm as <-.
    apply candidate_match_cases in Ha as [[-> ->] | (Hne & rec & keep & Hg & Hp & ->)];
      cbn [search_loop].
    + rewrite Z.eqb_refl, omap_id_None. now apply IH.
    + apply Z.eqb_neq in Hne. rewrite Hne, Hg. cbn [bind]. rewrite Hp. cbn [bind].
      destruct keep; cbn [negb]; [|rewrite omap_id_None; now apply IH].
      rewrite omap_id_Some. remember (set_similarity _ _) as r.
      replace (acc ++ r :: omap id a0) with ((acc ++ [r]) ++ omap id a0)
        by now rewrite <- app_assoc.
      rewrite Z.geb_leb.
      destruct (Z.leb_spec top_k (Z.of_nat (length (acc ++ [r])))) as [Hge|Hlt].
      * rewrite take_app_length'; [reflexivity|].
        rewrite length_app in *. simpl in *. lia.
      * apply IH; assumption.
Qed.

(** Every result is the scored copy of a record that passed the filters. *)
Lemma search_loop_Forall (P : Rec -> Prop) cands :
  (forall rec score, passes_filters department source rec = Ok true ->
                     P (set_similarity (dict_of rec) (clip01 score))) ->
  forall acc res, Forall P acc ->
  search_loop metadata top_k department source cands acc = Ok res -> Forall P res.
Proof.
  intros HP. induction cands as [|[score idx] cands IH]; intros acc res Hacc H;
    cbn [search_loop] in H.
  - congruence.
  - destruct (idx =? -1); [eauto|].
    inv_bind H. inv_bind H. destruct a0; cbn [negb] in H; [|eauto].
    assert (Hacc' : Forall P (acc ++ [set_similarity (dict_of a) (clip01 score)])).
    { apply Forall_app. split; [exact Hacc|]. constructor; [now apply HP | constructor]. }
    destruct (_ >=? _); [congruence | eauto].
Qed.

(** The loop raises only on an id outside the metadata or on a
    [None]-valued filter field. *)
Lemma search_loop_total cands :
  Forall (fun c => not_null c "department" = true /\ not_null c "source" = true) metadata ->
  Forall (fun c => valid_id metadata (snd c) = true) cands ->
  forall acc, exists res, search_loop metadata top_k department source cands acc = Ok res.
Proof.
  intros Hmd Hids. induction Hids as [|[score idx] cands Hid _ IH]; intros acc;
    cbn [search_loop]; [eauto|].
  destruct (Z.eqb_spec idx (-1)) as [->|Hne]; [apply IH|].
  unfold valid_id in Hid. cbn [snd] in Hid.
  apply orb_true_iff in Hid as [Hid|Hid]; [apply Z.eqb_eq in Hid; contradiction|].
  apply andb_true_iff in Hid as [H0 Hlt].
  apply Z.leb_le in H0. apply Z.ltb_lt in Hlt.
  unfold getitem. destruct (Z.ltb_spec idx 0) as [?|_]; [lia|].
  destruct (Z.leb_spec 0 idx) as [_|?]; [|lia].
  destruct (Z.ltb_spec idx (Z.of_nat (length metadata))) as [_|?]; [|lia].
  cbn [andb]. destruct (metadata !! Z.to_nat idx) as [rec|] eqn:E.
  - cbn [bind]. assert (Hrec : In rec metadata).
    { apply list_elem_of_In. eapply list_elem_of_lookup_2; eauto. }
    rewrite Forall_forall in Hmd. apply list_elem_of_In, Hmd in Hrec as [Hd Hs].
    destruct (passes_filters_total rec department source Hd Hs) as [b ->].
    cbn [bind]. destruct b; cbn [negb]; [|apply IH].
    destruct (_ >=? _); [eauto | apply IH].
  - apply lookup_ge_None in E. lia.
Qed.
End SearchLoopFacts.

(** C5.  The vector search asks the index for [top_k * 3] candidates when
    a department or source filter is active and for [top_k] otherwise,
    capped at the row count of the index; it walks the pool in the order
    the index returned it (descending score), keeps the candidates that
    pass the filters and stops at [top_k] of them.  When the pool holds
    fewer than [top_k] matches the result is all of them: a shorter list,
    not an error. *)
Theorem search_pool_and_accumulation
    (index_search : VectorStore.Index -> list VectorStore.vec -> Z -> list (list (Q * Z)))
    (index : VectorStore.Index) (metadata : list Course)
    (query_vec : list VectorStore.vec) (top_k : Z)
    (department source : option string)
    (cands : list (Q * Z)) (others : list (list (Q * Z))) (ms : list Rec) :
  1 <= top_k ->
  index_search index query_vec
    (Z.min (if truthy department || truthy source then top_k * 3 else top_k)
           (VectorStore.ntotal index)) = cands :: others ->
  pool_matches metadata department source cands = Ok ms ->
  VectorStore.search index_search index metadata query_vec top_k department source
    = Ok (take (Z.to_nat top_k) ms) /\
  (Z.of_nat (length ms) < top_k ->
   VectorStore.search index_search index metadata query_vec top_k department source
     = Ok ms).
Proof.
  intros Hk Hpool Hms.
  assert (Hs : VectorStore.search index_search index metadata query_vec top_k
                 department source = Ok (take (Z.to_nat top_k) ms)).
  { unfold VectorStore.search, VectorStore.fetch_k. rewrite Hpool.
    unfold pool_matches in Hms. inv_bind Hms. injection Hms as <-.
    rewrite (search_loop_spec metadata top_k department source cands [] a Hk);
      [reflexivity | simpl; lia | exact Ha]. }
  split; [exact Hs|].
  intros Hlt. rewrite Hs. f_equal. apply take_ge. lia.
Qed.

Lemma search_pool_and_accumulation_witness :
  VectorStore.search Sample.index_search Sample.index Sample.corpus [[1; 0]%Q] 1
    (Some "computer"%string) None
  = Ok (take 1 [set_similarity (dict_of Sample.csci0320) 1;
                set_similarity (dict_of Sample.csci0150) (3 # 5)]).
Proof.
  apply (search_pool_and_accumulation Sample.index_search Sample.index Sample.corpus
           [[1; 0]%Q] 1 (Some "computer"%string) None Sample.pool []
           [set_similarity (dict_of Sample.csci0320) 1;
            set_similarity (dict_of Sample.csci0150) (3 # 5)]).
  - lia.
  - vm_compute. reflexivity.
  - vm_compute. reflexivity.
Defined.

(** ** The keyword search *)

Section KeywordFacts.
Import KeywordSearch.

Lemma fold_left_Qmax_ge l : forall init,
  (init <= fold_left Qmax l init)%Q /\
  Forall (fun x => (x <= fold_left Qmax l init)%Q) l.
Proof.
  induction l as [|x l IH]; intros init; cbn [fold_left].
  - split; [apply Qle_refl | constructor].
  - destruct (IH (Qmax init x)) as [H1 H2]. split.
    + eapply Qle_trans; [apply Q.le_max_l | exact H1].
    + constructor; [|exact H2].
      eapply Qle_trans; [apply Q.le_max_r | exact H1].
Qed.

Lemma array_max_ge l m : array_max l = Ok m -> Forall (fun x => (x <= m)%Q) l.
Proof.
  destruct l as [|x l]; cbn [array_max]; [discriminate|].
  intros [= <-]. destruct (fold_left_Qmax_ge l x) as [H1 H2]. now constructor.
Qed.

Lemma normed_le_1 x m :
  (x <= m)%Q -> (x / (if Qgt_bool m 0 then m else 1) <= 1)%Q.
Proof.
  intros Hx. unfold Qgt_bool. destruct (Qle_bool m 0) eqn:E; cbn [negb].
  - apply Qle_bool_iff in E.
    assert (H1 : (x / 1 == x)%Q) by field. rewrite H1. lra.
  - apply Qdiv_le_1; [|exact Hx].
    apply Qnot_le_lt. intros H. apply Qle_bool_iff in H. congruence.
Qed.

Lemma enumerate_ids {A} (l : list A) :
  Forall (fun p => 0 <= fst p < Z.of_nat (length l)) (enumerate l).
Proof.
  apply Forall_forall. intros [i x] Hin. unfold enumerate in Hin.
  apply elem_of_lookup_imap in Hin as (j & y & [= -> ->] & Hj).
  apply lookup_lt_Some in Hj. cbn [fst]. lia.
Qed.

Lemma enumerate_snd {A} (P : A -> Prop) (l : list A) :
  Forall P l -> Forall (fun p => P (snd p)) (enumerate l).
Proof.
  intros HP. apply Forall_forall. intros [i x] Hin. unfold enumerate in Hin.
  apply elem_of_lookup_imap in Hin as (j & y & [= -> ->] & Hj).
  rewrite Forall_forall in HP. apply HP. eapply list_elem_of_lookup_2; eauto.
Qed.

Variables (records : list Course) (top_k : Z) (department source : option string).

(** Every result is the scored copy of a record that passed the filters,
    with a positive score taken from the scored list. *)
Lemma kw_loop_Forall (P : Rec -> Prop) (S : Q -> Prop) scored :
  (forall rec score, passes_filters department source rec = Ok true ->
                     (0 < score)%Q -> S score -> P (set_keyword (dict_of rec) score)) ->
  Forall (fun p => S (snd p)) scored ->
  forall acc res, Forall P acc ->
  kw_loop records top_k department source scored acc = Ok res -> Forall P res.
Proof.
  intros HP HS. induction HS as [|[idx score] scored Hs _ IH]; intros acc res Hacc H;
    cbn [kw_loop] in H.
  - congruence.
  - destruct (Qle_bool score 0) eqn:E; [congruence|].
    inv_bind H. inv_bind H. destruct a0; cbn [negb] in H; [|eauto].
    assert (Hacc' : Forall P (acc ++ [set_keyword (dict_of a) score])).
    { apply Forall_app. split; [exact Hacc|]. constructor; [|constructor].
      apply HP; [assumption | | exact Hs].
      apply Qnot_le_lt. intros Hle. apply Qle_bool_iff in Hle. congruence. }
    destruct (_ >=? _); [congruence | eauto].
Qed.

Lemma kw_loop_total scored :
  Forall (fun c => not_null c "department" = true /\ not_null c "source" = true) records ->
  Forall (fun p => 0 <= fst p < Z.of_nat (length records)) scored ->
  forall acc, exists res, kw_loop records top_k department source scored acc = Ok res.
Proof.
  intros Hmd Hids. induction Hids as [|[idx score] scored Hid _ IH]; intros acc;
    cbn [kw_loop]; [eauto|].
  destruct (Qle_bool score 0); [eauto|].
  cbn [fst] in Hid. unfold getitem.
  destruct (Z.ltb_spec idx 0) as [?|_]; [lia|].
  destruct (Z.leb_spec 0 idx) as [_|?]; [|lia].
  destruct (Z.ltb_spec idx (Z.of_nat (length records))) as [_|?]; [|lia].
  cbn [andb]. destruct (records !! Z.to_nat idx) as [rec|] eqn:E.
  - cbn [bind]. assert (Hrec : In rec records).
    { apply list_elem_of_In. eapply list_elem_of_lookup_2; eauto. }
    rewrite Forall_forall in Hmd. apply list_elem_of_In, Hmd in Hrec as [Hd Hs].
    destruct (passes_filters_total rec department source Hd Hs) as [b ->].
    cbn [bind]. destruct b; cbn [negb]; [|apply IH].
    destruct (_ >=? _); [eauto | apply IH].
  - apply lookup_ge_None in E. lia.
Qed.
End KeywordFacts.

Section LegFacts.
Variable index_search :
  VectorStore.Index -> list VectorStore.vec -> Z -> list (list (Q * Z)).
Variable bm25_get_scores : list (list string) -> list string -> list Q.

Lemma vector_search_Forall (P : Rec -> Prop) index metadata q top_k department source res :
  (forall rec score, passes_filters department source rec = Ok true ->
                     P (set_similarity (dict_of rec) (VectorStore.clip01 score))) ->
  VectorStore.search index_search index metadata q top_k department source = Ok res ->
  Forall P res.
Proof.
  intros HP H. unfold VectorStore.search in H.
  destruct (index_search _ _ _) as [|cands ?]; [discriminate|].
  eapply search_loop_Forall; [exact HP | constructor | exact H].
Qed.

Lemma keyword_search_Forall (P : Rec -> Prop) self query top_k department source res :
  (forall rec score, passes_filters department source rec = Ok true ->
                     (0 < score)%Q -> (score <= 1)%Q ->
                     P (set_keyword (dict_of rec) score)) ->
  KeywordSearch.search bm25_get_scores self query top_k department source = Ok res ->
  Forall P res.
Proof.
  intros HP H. unfold KeywordSearch.search in H.
  destruct (KeywordSearch._tokenise query) as [|t ts]; [injection H as <-; constructor|].
  inv_bind H.
  eapply (kw_loop_Forall _ _ _ _ P (fun x => (x <= 1)%Q)); [exact HP | | constructor | exact H].
  apply sorted_desc_Forall. apply (enumerate_snd (fun x => (x <= 1)%Q)).
  apply Forall_map. eapply Forall_impl; [exact (array_max_ge _ _ Ha)|].
  intros x Hx. now apply normed_le_1.
Qed.
End LegFacts.

(** C9.  With an active department or source filter, a record that lacks
    the filtered field is read as having the empty string there and is
    rejected, without an exception; the padding id [-1] is skipped before
    the metadata list is indexed.  Hence both searches return a result
    list, and no result lacks a filtered field, whenever no row holds
    [None] in a filter field, the ids of the pool are [-1] or rows of the
    metadata, and BM25 yields one score per (at least one) document. *)
Theorem missing_filter_fields_are_excluded_without_error :
  (forall (rec : Course) department source,
     truthy department = true -> rec !! "department"%string = None ->
     passes_filters department source rec = Ok false) /\
  (forall (rec : Course) department source,
     truthy source = true -> rec !! "source"%string = None ->
     (truthy department = true -> not_null rec "department" = true) ->
     passes_filters department source rec = Ok false) /\
  (forall metadata top_k department source score cands acc,
     VectorStore.search_loop metadata top_k department source ((score, -1) :: cands) acc
     = VectorStore.search_loop metadata top_k department source cands acc) /\
  (forall index_search index metadata q top_k department source cands others,
     Forall (fun c => not_null c "department" = true /\ not_null c "source" = true)
            metadata ->
     index_search index q (VectorStore.fetch_k index top_k department source)
       = cands :: others ->
     Forall (fun c => valid_id metadata (snd c) = true) cands ->
     exists results,
       VectorStore.search index_search index metadata q top_k department source
         = Ok results /\
       (truthy department = true ->
        Forall (fun r => has_str (fields r) "department") results) /\
       (truthy source = true ->
        Forall (fun r => has_str (fields r) "source") results)) /\
  (forall bm25_get_scores self query top_k department source,
     Forall (fun c => not_null c "department" = true /\ not_null c "source" = true)
            (KeywordSearch._records self) ->
     KeywordSearch._records self <> [] ->
     length (bm25_get_scores (KeywordSearch._bm25 self) (KeywordSearch._tokenise query))
       = length (KeywordSearch._records self) ->
     exists results,
       KeywordSearch.search bm25_get_scores self query top_k department source
         = Ok results /\
       (truthy department = true ->
        Forall (fun r => has_str (fields r) "department") results) /\
       (truthy source = true ->
        Forall (fun r => has_str (fields r) "source") results)).
Proof.
  split; [exact passes_filters_missing_department|].
  split; [exact passes_filters_missing_source|].
  split; [reflexivity|].
  split.
  - intros index_search index metadata q top_k department source cands others
      Hmd Hpool Hids.
    assert (Hex : exists results,
               VectorStore.search index_search index metadata q top_k department source
               = Ok results).
    { unfold VectorStore.search. rewrite Hpool. now apply search_loop_total. }
    destruct Hex as [results Hres]. exists results. split; [exact Hres|].
    split; intros Ht;
      (eapply vector_search_Forall; [|exact Hres]); intros rec score Hp; cbn [fields dict_of set_similarity].
    + eapply passes_filters_department; eauto.
    + eapply passes_filters_source; eauto.
  - intros bm25_get_scores self query top_k department source Hmd Hne Hlen.
    assert (Hex : exists results,
               KeywordSearch.search bm25_get_scores self query top_k department source
               = Ok results).
    { unfold KeywordSearch.search.
      destruct (KeywordSearch._tokenise query) as [|t ts] eqn:Et; [eauto|].
      destruct (bm25_get_scores _ _) as [|x raw] eqn:Er.
      - destruct (KeywordSearch._records self); [congruence | discriminate].
      - cbn [KeywordSearch.array_max bind].
        apply kw_loop_total; [exact Hmd|].
        apply sorted_desc_Forall. rewrite <- Hlen.
        match goal with
        | |- context [map ?f (x :: raw)] => rewrite <- (length_map f (x :: raw))
        end.
        apply enumerate_ids. }
    destruct Hex as [results Hres]. exists results. split; [exact Hres|].
    split; intros Ht;
      (eapply keyword_search_Forall; [|exact Hres]); intros rec score Hp _ _;
      cbn [fields dict_of set_keyword].
    + eapply passes_filters_department; eauto.
    + eapply passes_filters_source; eauto.
Qed.

Lemma missing_filter_fields_are_excluded_without_error_witness :
  exists results,
    VectorStore.search Sample.index_search Sample.index_bare Sample.corpus_bare
      [[1; 0]%Q] 2 (Some "math"%string) None = Ok results /\
    (truthy (Some "math"%string) = true ->
     Forall (fun r => has_str (fields r) "department") results) /\
    (truthy None = true ->
     Forall (fun r => has_str (fields r) "source") results).
Proof.
  destruct missing_filter_fields_are_excluded_without_error as (_ & _ & _ & H & _).
  apply (H Sample.index_search Sample.index_bare Sample.corpus_bare [[1; 0]%Q] 2
           (Some "math"%string) None [(1%Q, 0); (1%Q, 1)] []).
  - repeat constructor.
  - vm_compute. reflexivity.
  - repeat constructor.
Defined.

(** ** The scores stay in the unit interval *)

Section ScoreFacts.
Import Hybrid.

Lemma in01_0 : in01 0.
Proof. unfold in01. lra. Qed.

Lemma in01_get_or_similarity r : scores_ok r -> in01 (get_or (similarity_score r) 0).
Proof.
  intros [Hs _]. destruct (similarity_score r) as [s|]; [now apply Hs | apply in01_0].
Qed.

Lemma in01_get_or_keyword r : scores_ok r -> in01 (get_or (keyword_score r) 0).
Proof.
  intros [_ Hk]. destruct (keyword_score r) as [k|]; [now apply Hk | apply in01_0].
Qed.

Lemma scores_ok_set_similarity r q : scores_ok r -> in01 q -> scores_ok (set_similarity r q).
Proof. intros [Hs Hk] Hq. split; cbn; [intros ? [= <-]; exact Hq | exact Hk]. Qed.

Lemma scores_ok_set_keyword r q : scores_ok r -> in01 q -> scores_ok (set_keyword r q).
Proof. intros [Hs Hk] Hq. split; cbn; [exact Hs | intros ? [= <-]; exact Hq]. Qed.

Lemma scores_ok_setdefault_similarity r q :
  scores_ok r -> in01 q -> scores_ok (setdefault_similarity r q).
Proof.
  intros Hr Hq. unfold setdefault_similarity.
  destruct (similarity_score r); [exact Hr | now apply scores_ok_set_similarity].
Qed.

Lemma scores_ok_setdefault_keyword r q :
  scores_ok r -> in01 q -> scores_ok (setdefault_keyword r q).
Proof.
  intros Hr Hq. unfold setdefault_keyword.
  destruct (keyword_score r); [exact Hr | now apply scores_ok_set_keyword].
Qed.

Lemma scores_ok_set_rrf r q : scores_ok r -> scores_ok (set_rrf r q).
Proof. intros [Hs Hk]. split; cbn; assumption. Qed.

Lemma scores_ok_entry (c : odict) code (fresh : Rec) :
  Forall scores_ok (od_values c) -> scores_ok fresh ->
  scores_ok (match od_get c code with Some e => e | None => fresh end).
Proof.
  intros Hc Hf. destruct (od_get c code) as [e|] eqn:E; [|exact Hf].
  apply od_get_In in E. rewrite Forall_forall in Hc. now apply Hc, list_elem_of_In.
Qed.

Lemma ws_sem_step_ok c rec c' :
  Forall scores_ok (od_values c) -> scores_ok rec ->
  ws_sem_step c rec = Ok c' -> Forall scores_ok (od_values c').
Proof.
  intros Hc Hrec H. unfold ws_sem_step in H. inv_bind H. injection H as <-.
  apply od_set_Forall; [exact Hc|].
  apply scores_ok_set_similarity; [|now apply in01_get_or_similarity].
  apply scores_ok_entry; [exact Hc|].
  apply scores_ok_setdefault_keyword; [exact Hrec | apply in01_0].
Qed.

Lemma ws_kw_step_ok c rec c' :
  Forall scores_ok (od_values c) -> scores_ok rec ->
  ws_kw_step c rec = Ok c' -> Forall scores_ok (od_values c').
Proof.
  intros Hc Hrec H. unfold ws_kw_step in H. inv_bind H. injection H as <-.
  apply od_set_Forall; [exact Hc|].
  apply scores_ok_set_keyword; [|now apply in01_get_or_keyword].
  apply scores_ok_entry; [exact Hc|].
  apply scores_ok_setdefault_similarity; [exact Hrec | apply in01_0].
Qed.

Lemma rrf_sem_step_ok k c rank rec c' :
  Forall scores_ok (od_values c) -> scores_ok rec ->
  rrf_sem_step k c rank rec = Ok c' -> Forall scores_ok (od_values c').
Proof.
  intros Hc Hrec H. unfold rrf_sem_step in H. inv_bind H. inv_bind H.
  injection H as <-.
  apply od_set_Forall; [exact Hc|]. apply scores_ok_set_rrf.
  apply scores_ok_entry; [exact Hc|].
  apply scores_ok_setdefault_keyword; [exact Hrec | apply in01_0].
Qed.

Lemma rrf_kw_step_ok k c rank rec c' :
  Forall scores_ok (od_values c) -> scores_ok rec ->
  rrf_kw_step k c rank rec = Ok c' -> Forall scores_ok (od_values c').
Proof.
  intros Hc Hrec H. unfold rrf_kw_step in H. inv_bind H. inv_bind H.
  injection H as <-.
  apply od_set_Forall; [exact Hc|]. apply scores_ok_set_rrf.
  apply scores_ok_setdefault_keyword; [|now apply in01_get_or_keyword].
  apply scores_ok_entry; [exact Hc|].
  apply scores_ok_setdefault_similarity; [exact Hrec | apply in01_0].
Qed.

Lemma weighted_in01 (alpha beta s k : Q) :
  (0 <= alpha)%Q -> (0 <= beta)%Q -> (alpha + beta <= 1)%Q ->
  in01 s -> in01 k -> in01 (alpha * s + beta * k).
Proof. unfold in01. intros Ha Hb Hab [Hs0 Hs1] [Hk0 Hk1]. split; nra. Qed.

Lemma ws_combined_ok sem kw alpha beta c :
  (0 <= alpha)%Q -> (0 <= beta)%Q -> (alpha + beta <= 1)%Q ->
  Forall scores_ok sem -> Forall scores_ok kw ->
  ws_combined sem kw alpha beta = Ok c -> Forall scored_ok (od_values c).
Proof.
  intros Ha Hb Hab Hs Hw H. unfold ws_combined in H. inv_bind H. inv_bind H.
  injection H as <-.
  assert (H1 : Forall scores_ok (od_values a)).
  { eapply (plain_loop_inv (fun c => Forall scores_ok (od_values c)) scores_ok);
      [| exact Hs | | exact Ha0]; [|constructor].
    intros; eapply ws_sem_step_ok; eauto. }
  assert (H2 : Forall scores_ok (od_values a0)).
  { eapply (plain_loop_inv (fun c => Forall scores_ok (od_values c)) scores_ok);
      [| exact Hw | exact H1 | exact Ha1].
    intros; eapply ws_kw_step_ok; eauto. }
  unfold od_values in *. rewrite map_map. cbn [snd].
  rewrite Forall_map in H2. apply Forall_map.
  eapply Forall_impl; [exact H2|]. intros [code r] Hr. cbn [snd] in *.
  split.
  - destruct Hr as [Hrs Hrk]. split; cbn; assumption.
  - eexists. split; [reflexivity|].
    apply weighted_in01; auto using in01_get_or_similarity, in01_get_or_keyword.
Qed.

Lemma rrf_combined_ok sem kw k c :
  Forall scores_ok sem -> Forall scores_ok kw ->
  rrf_combined sem kw k = Ok c -> Forall scores_ok (od_values c).
Proof.
  intros Hs Hw H. unfold rrf_combined in H. inv_bind H.
  eapply (ranked_loop_inv (fun c => Forall scores_ok (od_values c)) scores_ok _ kw);
    [| exact Hw | | | exact H]; [| lia |].
  - intros; eapply rrf_kw_step_ok; eauto.
  - eapply (ranked_loop_inv (fun c => Forall scores_ok (od_values c)) scores_ok _ sem);
      [| exact Hs | | | exact Ha]; [| lia | constructor].
    intros; eapply rrf_sem_step_ok; eauto.
Qed.

(** After the normalisation, every final score is in (0, 1]. *)
Lemma rrf_normalise_ok results :
  StronglySorted (desc rrf_key) results -> Forall rrf_pos results ->
  Forall scores_ok results -> Forall scored_ok (rrf_normalise results).
Proof.
  intros Hsorted Hpos Hok. destruct results as [|r0 rest]; [constructor|].
  unfold rrf_normalise.
  assert (Hmax : Forall (fun r => (rrf_key r <= rrf_key r0)%Q) (r0 :: rest)).
  { inversion Hsorted; subst. constructor; [apply Qle_refl | assumption]. }
  inversion Hpos as [|? ? (q0 & Hq0 & Hgt) _]; subst.
  unfold rrf_key in Hmax. rewrite Hq0 in *. cbn [get_or default from_option id] in *.
  rewrite (Qeq_bool_false_pos q0 Hgt).
  apply Forall_map. rewrite Forall_forall in *. intros r Hr.
  destruct (Hpos r Hr) as (q & Hq & Hqpos). specialize (Hmax r Hr).
  rewrite Hq in *. cbn [get_or default from_option id] in *. split.
  - destruct (Hok r Hr) as [Hrs Hrk]. split; cbn; assumption.
  - eexists. split; [reflexivity|]. split.
    + apply Qlt_le_weak. now apply Qdiv_pos.
    + now apply Qdiv_le_1.
Qed.

(** The three [setdefault] calls at the end of [hybrid_search]. *)
Lemma scored_ok_in_unit r :
  scored_ok r ->
  scores_in_unit (setdefault_final
                    (setdefault_keyword (setdefault_similarity r 0) 0) 0).
Proof.
  intros [[Hs Hk] (f & Hf & Hf01)]. unfold scores_in_unit.
  destruct r as [fl [s|] [k|] fo rr]; cbn in Hs, Hk, Hf; subst fo;
    cbv [setdefault_final setdefault_keyword setdefault_similarity
         set_final set_keyword set_similarity
         similarity_score keyword_score final_score fields rrf_score];
    eexists _, _, _; (split; [reflexivity|]); (split; [reflexivity|]);
    (split; [reflexivity|]); auto using in01_0.
Qed.
End ScoreFacts.

Lemma slice_to_Forall {A} (P : A -> Prop) (l : list A) (k : Z) :
  Forall P l -> Forall P (slice_to l k).
Proof. intros H. unfold slice_to. destruct (k <? 0); now apply Forall_take. Qed.

Section HybridFacts.
Variable embed_texts : list string -> result (list VectorStore.vec).
Variable index_search :
  VectorStore.Index -> list VectorStore.vec -> Z -> list (list (Q * Z)).
Variable bm25_get_scores : list (list string) -> list string -> list Q.

(** What the two legs hand to the fusion. *)
Lemma semantic_leg_ok index metadata q top_k department source res :
  VectorStore.search index_search index metadata q top_k department source = Ok res ->
  Forall (fun r => no_rrf r = true /\ scores_ok r) res.
Proof.
  apply vector_search_Forall. intros rec score _. split; [reflexivity|].
  split; cbn; [intros ? [= <-]; apply clip01_in01 | discriminate].
Qed.

Lemma keyword_leg_ok self query top_k department source res :
  KeywordSearch.search bm25_get_scores self query top_k department source = Ok res ->
  Forall (fun r => no_rrf r = true /\ scores_ok r) res.
Proof.
  apply keyword_search_Forall. intros rec score _ H0 H1. split; [reflexivity|].
  split; cbn; [discriminate|]. intros ? [= <-]. split; [now apply Qlt_le_weak | exact H1].
Qed.

Lemma rrf_fusion_ok sem kw merged :
  Forall (fun r => no_rrf r = true /\ scores_ok r) sem ->
  Forall (fun r => no_rrf r = true /\ scores_ok r) kw ->
  Hybrid._reciprocal_rank_fusion sem kw 60 = Ok merged -> Forall scored_ok merged.
Proof.
  intros Hs Hw H. unfold Hybrid._reciprocal_rank_fusion in H. inv_bind H.
  injection H as <-. apply Forall_and in Hs as [Hs1 Hs2], Hw as [Hw1 Hw2].
  apply rrf_normalise_ok.
  - apply (sorted_desc_sorted rrf_key).
  - apply sorted_desc_Forall. eapply rrf_combined_pos; [| | | exact Ha]; [lia | |]; assumption.
  - apply sorted_desc_Forall. eapply rrf_combined_ok; [| | exact Ha]; assumption.
Qed.

Lemma weighted_fusion_ok sem kw alpha beta merged :
  (0 <= alpha)%Q -> (0 <= beta)%Q -> (alpha + beta <= 1)%Q ->
  Forall (fun r => no_rrf r = true /\ scores_ok r) sem ->
  Forall (fun r => no_rrf r = true /\ scores_ok r) kw ->
  Hybrid._weighted_sum sem kw alpha beta = Ok merged -> Forall scored_ok merged.
Proof.
  intros Ha Hb Hab Hs Hw H. unfold Hybrid._weighted_sum in H. inv_bind H.
  injection H as <-. apply Forall_and in Hs as [Hs1 Hs2], Hw as [Hw1 Hw2].
  apply sorted_desc_Forall. eapply ws_combined_ok; [| | | | | exact Ha0]; assumption.
Qed.

Lemma hybrid_search_in_unit query index metadata ks top_k department source
    fusion alpha beta semantic_pool keyword_pool out :
  (0 <= alpha)%Q -> (0 <= beta)%Q -> (alpha + beta <= 1)%Q ->
  Hybrid.hybrid_search embed_texts index_search bm25_get_scores query index metadata
    ks top_k department source fusion alpha beta semantic_pool keyword_pool = Ok out ->
  Forall scores_in_unit out.
Proof.
  intros Ha Hb Hab H. unfold Hybrid.hybrid_search in H.
  inv_bind H. inv_bind H. inv_bind H. inv_bind H. injection H as <-.
  apply semantic_leg_ok in Ha1. apply keyword_leg_ok in Ha2.
  apply slice_to_Forall, Forall_map.
  assert (Hm : Forall scored_ok a2).
  { destruct (String.eqb fusion "rrf").
    - eapply rrf_fusion_ok; [exact Ha1 | exact Ha2 | exact Ha3].
    - eapply weighted_fusion_ok; [| | | exact Ha1 | exact Ha2 | exact Ha3]; assumption. }
  eapply Forall_impl; [exact Hm|]. intros r Hr. now apply scored_ok_in_unit.
Qed.

Lemma vector_search_in_unit query index metadata top_k department source out :
  Hybrid.vector_search embed_texts index_search query index metadata
    top_k department source = Ok out ->
  Forall scores_in_unit out.
Proof.
  intros H. unfold Hybrid.vector_search in H. inv_bind H. inv_bind H.
  injection H as <-. apply Forall_map.
  eapply vector_search_Forall; [|exact Ha0].
  intros rec score _. unfold scores_in_unit.
  cbv [setdefault_keyword set_final set_keyword set_similarity dict_of
       similarity_score keyword_score final_score fields rrf_score get_or
       default from_option id].
  eexists _, _, _. repeat (split; [reflexivity|]).
  split; [apply clip01_in01|]. split; [apply in01_0 | apply clip01_in01].
Qed.
End HybridFacts.

(** C6.  The similarity scores attached by the vector search are clipped
    to [0, 1]; and with the default weights 0.7 and 0.3, every result of
    the hybrid search (under either fusion) and of the vector-only search
    carries the three scores [similarity_score], [keyword_score] and
    [final_score], each within [0, 1]. *)
Theorem returned_scores_lie_in_unit_interval
    (embed_texts : list string -> result (list VectorStore.vec))
    (index_search : VectorStore.Index -> list VectorStore.vec -> Z -> list (list (Q * Z)))
    (bm25_get_scores : list (list string) -> list string -> list Q)
    (query : string) (index : VectorStore.Index) (metadata : list Course)
    (keyword_searcher : KeywordSearch.KeywordSearcher)
    (top_k : Z) (department source : option string) :
  (forall q_vec res,
     VectorStore.search index_search index metadata q_vec top_k department source
       = Ok res ->
     Forall (fun r => exists s, similarity_score r = Some s /\ in01 s) res) /\
  (forall fusion semantic_pool keyword_pool out,
     Hybrid.hybrid_search embed_texts index_search bm25_get_scores query index metadata
       keyword_searcher top_k department source fusion (7 # 10) (3 # 10)
       semantic_pool keyword_pool = Ok out ->
     Forall scores_in_unit out) /\
  (forall out,
     Hybrid.vector_search embed_texts index_search query index metadata
       top_k department source = Ok out ->
     Forall scores_in_unit out).
Proof.
  split; [|split].
  - intros q_vec res. apply vector_search_Forall. intros rec score _.
    eexists. split; [reflexivity | apply clip01_in01].
  - intros fusion sp kp out. apply hybrid_search_in_unit; unfold Qle; simpl; lia.
  - intros out. apply vector_search_in_unit.
Qed.

Lemma returned_scores_lie_in_unit_interval_witness :
  Forall scores_in_unit (Sample.hybrid_out "weighted") /\
  Forall scores_in_unit (Sample.hybrid_out "rrf").
Proof.
  pose proof (returned_scores_lie_in_unit_interval Sample.embed_texts Sample.index_search
                Sample.bm25_get_scores "software engineering" Sample.index Sample.corpus
                Sample.keyword_searcher 2 None None) as (_ & H & _).
  split.
  - apply (H "weighted"%string 50 50). vm_compute. reflexivity.
  - apply (H "rrf"%string 50 50). vm_compute. reflexivity.
Defined.

(** ** Persistence *)

Section PersistenceFacts.
Import VectorStore.

Lemma load_index_missing disk :
  FAISS_PATH disk = None \/ META_PATH disk = None ->
  load_index disk = Raise FAISSIndexMissingError.
Proof.
  unfold load_index. intros [H|H]; rewrite H; [reflexivity|].
  now destruct (FAISS_PATH disk).
Qed.

Lemma load_index_valid disk f g i m :
  FAISS_PATH disk = Some f -> META_PATH disk = Some g ->
  content f = Valid i -> content g = Valid m ->
  load_index disk = Ok (i, m).
Proof. unfold load_index. now intros -> -> -> ->. Qed.

Lemma load_index_garbage disk f g :
  FAISS_PATH disk = Some f -> META_PATH disk = Some g ->
  content f = Garbage \/ content g = Garbage ->
  load_index disk = Raise RuntimeError \/ load_index disk = Raise UnpicklingError.
Proof.
  unfold load_index. intros -> -> [H|H]; rewrite H; [now left|].
  destruct (content f); [now right | now left].
Qed.

Lemma save_then_load env index metadata disk :
  index_write env = Written -> meta_write env = Written ->
  load_index (fst (save_index env index metadata disk)) = Ok (index, metadata).
Proof. unfold save_index, write_file. now intros -> ->. Qed.

(** The value of [index_is_stale] when all three files exist. *)
Lemma index_is_stale_present disk c f g :
  COURSES_PATH disk = Some c -> FAISS_PATH disk = Some f -> META_PATH disk = Some g ->
  index_is_stale disk = Ok (mtime c >? Z.min (mtime f) (mtime g)).
Proof. unfold index_is_stale. now intros -> -> ->. Qed.

Lemma index_is_stale_absent disk :
  FAISS_PATH disk = None \/ META_PATH disk = None -> index_is_stale disk = Ok true.
Proof.
  unfold index_is_stale. intros [H|H]; rewrite H; [reflexivity|].
  now destruct (FAISS_PATH disk).
Qed.

Variable embed_texts : list string -> result (list vec).

(** The three ways [load_or_build] ends without raising in [save_index]. *)
Lemma load_or_build_cases env force disk disk' r :
  load_or_build embed_texts env force disk = (disk', r) ->
  (* the snapshot is fresh and is loaded *)
  (force = false /\ index_is_stale disk = Ok false /\ disk' = disk /\ r = load_index disk) \/
  (* the rebuild stops before anything is written *)
  (disk' = disk /\ exists e, r = Raise e) \/
  (* the rebuild reaches [save_index] *)
  (exists c records index meta,
     COURSES_PATH disk = Some c /\ content c = Valid records /\
     build_index embed_texts records = Ok (index, meta) /\
     disk' = fst (save_index env index meta disk) /\
     r = (do _ <- snd (save_index env index meta disk); Ok (index, meta))).
Proof.
  unfold load_or_build. intros H.
  set (fresh := if negb force && exists_ (FAISS_PATH disk)
                then do stale <- index_is_stale disk; Ok (negb stale)
                else Ok false) in H.
  assert (Hfresh : fresh = Ok true ->
            force = false /\ index_is_stale disk = Ok false).
  { subst fresh. destruct force; [discriminate|]. cbn [negb andb].
    destruct (exists_ (FAISS_PATH disk)); [|discriminate].
    destruct (index_is_stale disk) as [[|]|]; try discriminate. auto. }
  destruct fresh as [[|]|e].
  - destruct (Hfresh eq_refl) as [-> Hs]. injection H as <- <-. left. auto.
  - destruct (COURSES_PATH disk) as [c|] eqn:Ec;
      [|injection H as <- <-; right; left; eauto].
    destruct (content c) as [records|] eqn:Er;
      [|injection H as <- <-; right; left; eauto].
    destruct (build_index embed_texts records) as [[index meta]|e] eqn:Eb;
      [|injection H as <- <-; right; left; eauto].
    destruct (save_index env index meta disk) as [d rs] eqn:Es.
    injection H as <- <-. right. right. exists c, records, index, meta.
    rewrite Es. auto.
  - injection H as <- <-. right. left. eauto.
Qed.
End PersistenceFacts.

(** C4, as the code has it.  [load_index] raises [FAISSIndexMissingError]
    when either file is absent.  When both exist it deserialises them: a
    file that does not deserialise makes the library's own exception
    propagate (there is no [CorruptIndexError]), and otherwise the persisted
    (index, metadata) pair is returned, whatever the two sizes are; in
    particular what [save_index] has written is read back. *)
Theorem load_index_outcomes :
  (forall disk,
     VectorStore.FAISS_PATH disk = None \/ VectorStore.META_PATH disk = None ->
     VectorStore.load_index disk = Raise FAISSIndexMissingError) /\
  (forall disk f g,
     VectorStore.FAISS_PATH disk = Some f -> VectorStore.META_PATH disk = Some g ->
     VectorStore.content f = VectorStore.Garbage \/
     VectorStore.content g = VectorStore.Garbage ->
     VectorStore.load_index disk = Raise RuntimeError \/
     VectorStore.load_index disk = Raise UnpicklingError) /\
  (forall disk f g i m,
     VectorStore.FAISS_PATH disk = Some f -> VectorStore.META_PATH disk = Some g ->
     VectorStore.content f = VectorStore.Valid i ->
     VectorStore.content g = VectorStore.Valid m ->
     VectorStore.load_index disk = Ok (i, m)) /\
  (forall env index metadata disk,
     VectorStore.index_write env = VectorStore.Written ->
     VectorStore.meta_write env = VectorStore.Written ->
     VectorStore.load_index (fst (VectorStore.save_index env index metadata disk))
       = Ok (index, metadata)).
Proof.
  split; [exact load_index_missing|].
  split; [exact load_index_garbage|].
  split; [exact load_index_valid | exact save_then_load].
Qed.

Lemma load_index_outcomes_witness :
  VectorStore.load_index
    (fst (VectorStore.save_index Sample.env_ok Sample.index Sample.corpus
            Sample.stale_disk))
  = Ok (Sample.index, Sample.corpus).
Proof.
  destruct load_index_outcomes as (_ & _ & _ & H).
  apply (H Sample.env_ok Sample.index Sample.corpus Sample.stale_disk); reflexivity.
Defined.

(** C4, the claim as stated fails: an index of three rows is persisted
    next to a metadata list of one course, and [load_index] returns the
    pair instead of raising. *)
Lemma load_index_accepts_size_mismatch :
  VectorStore.ntotal Sample.index <> Z.of_nat (length Sample.old_metadata) /\
  VectorStore.load_index Sample.mismatched_disk = Ok (Sample.index, Sample.old_metadata).
Proof. split; [discriminate | reflexivity]. Qed.

(** C7.  [index_is_stale] returns true when an artifact is missing; with
    the corpus file present it returns true exactly when an artifact is
    missing or the corpus is newer than the older of the two artifacts.
    And when [load_or_build] returns a snapshot, the staleness check on
    the disk it leaves is false, the corpus not having been modified after
    the clock of the two writes; if the snapshot was stale, the two files
    are the freshly written ones. *)
Theorem staleness_check_and_rebuild :
  (forall disk,
     VectorStore.FAISS_PATH disk = None \/ VectorStore.META_PATH disk = None ->
     VectorStore.index_is_stale disk = Ok true) /\
  (forall disk c,
     VectorStore.COURSES_PATH disk = Some c ->
     exists b,
       VectorStore.index_is_stale disk = Ok b /\
       (b = true <->
        VectorStore.FAISS_PATH disk = None \/ VectorStore.META_PATH disk = None \/
        exists f g,
          VectorStore.FAISS_PATH disk = Some f /\ VectorStore.META_PATH disk = Some g /\
          Z.min (VectorStore.mtime f) (VectorStore.mtime g) < VectorStore.mtime c)) /\
  (forall embed_texts env force_rebuild disk disk' c r,
     VectorStore.COURSES_PATH disk = Some c ->
     VectorStore.mtime c <= VectorStore.index_clock env ->
     VectorStore.mtime c <= VectorStore.meta_clock env ->
     VectorStore.load_or_build embed_texts env force_rebuild disk = (disk', Ok r) ->
     VectorStore.index_is_stale disk' = Ok false /\
     (VectorStore.index_is_stale disk = Ok true ->
      VectorStore.FAISS_PATH disk'
        = Some (VectorStore.mkFile (VectorStore.Valid (fst r))
                  (VectorStore.index_clock env)) /\
      VectorStore.META_PATH disk'
        = Some (VectorStore.mkFile (VectorStore.Valid (snd r))
                  (VectorStore.meta_clock env)))).
Proof.
  split; [exact index_is_stale_absent|]. split.
  - intros disk c Hc.
    destruct (VectorStore.FAISS_PATH disk) as [f|] eqn:Ef.
    + destruct (VectorStore.META_PATH disk) as [g|] eqn:Eg.
      * exists (VectorStore.mtime c >? Z.min (VectorStore.mtime f) (VectorStore.mtime g)).
        split; [now apply index_is_stale_present|].
        rewrite Z.gtb_ltb, Z.ltb_lt. split.
        -- intros Hlt. right. right. exists f, g. auto.
        -- intros [?|[?|(f' & g' & [= <-] & [= <-] & Hlt)]]; [discriminate.. | exact Hlt].
      * exists true. split; [apply index_is_stale_absent; now right|].
        split; auto.
    + exists true. split; [apply index_is_stale_absent; now left|].
      split; auto.
  - intros embed_texts env force_rebuild disk disk' c r Hc Hi Hm H.
    apply load_or_build_cases in H
      as [(-> & Hs & -> & Hr) | [(-> & e & He) | (c' & records & index & meta & Hc' & Hv & Hb & -> & Hr)]].
    + split; [exact Hs|]. intros Hs'. congruence.
    + discriminate.
    + unfold VectorStore.save_index, VectorStore.write_file in *.
      destruct (VectorStore.index_write env); cbn in Hr; try discriminate.
      destruct (VectorStore.meta_write env); cbn in Hr; try discriminate.
      injection Hr as ->. cbn. split.
      * unfold VectorStore.index_is_stale. cbn. rewrite Hc. cbn.
        f_equal. rewrite Z.gtb_ltb. apply Z.ltb_ge. lia.
      * auto.
Qed.

Lemma staleness_check_and_rebuild_witness :
  VectorStore.index_is_stale Sample.stale_disk = Ok true /\
  VectorStore.index_is_stale
    (fst (VectorStore.load_or_build Sample.embed_texts Sample.env_ok false
            Sample.stale_disk)) = Ok false.
Proof.
  split; [reflexivity|].
  destruct staleness_check_and_rebuild as (_ & _ & H).
  refine (proj1
    (H Sample.embed_texts Sample.env_ok false Sample.stale_disk _
       (VectorStore.mkFile (VectorStore.Valid Sample.corpus) 10)
       (VectorStore.mkIndex [[1; 0]; [1; 0]; [1; 0]]%Q, Sample.corpus) _ _ _ _)).
  - reflexivity.
  - simpl. lia.
  - simpl. lia.
  - vm_compute. reflexivity.
Defined.

(** C2, as the code has it.  A rebuild that fails while both writes of
    [save_index] would complete, or whose first write cannot open its
    file, has failed before anything was written: the three files are
    what they were.  (Reading the corpus and embedding it come before
    [save_index], which then writes the two files in place.) *)
Theorem failed_rebuild_before_persistence_keeps_snapshot
    (embed_texts : list string -> result (list VectorStore.vec))
    (env : VectorStore.Env) (force_rebuild : bool)
    (disk disk' : VectorStore.Disk) (e : exn) :
  VectorStore.load_or_build embed_texts env force_rebuild disk = (disk', Raise e) ->
  (VectorStore.index_write env = VectorStore.Written /\
   VectorStore.meta_write env = VectorStore.Written) \/
  VectorStore.index_write env = VectorStore.FailsAtOpen ->
  disk' = disk.
Proof.
  intros H Henv. apply load_or_build_cases in H
    as [(_ & _ & -> & _) | [(-> & _) | (c & records & index & meta & _ & _ & _ & -> & Hr)]];
    try reflexivity.
  unfold VectorStore.save_index, VectorStore.write_file in *.
  destruct Henv as [[Hi Hm] | Hi]; rewrite Hi in *; [rewrite Hm in *|].
  - discriminate.
  - now destruct disk.
Qed.

Lemma failed_rebuild_before_persistence_keeps_snapshot_witness :
  fst (VectorStore.load_or_build (fun _ => Raise EmbeddingFailure) Sample.env_ok true
         Sample.stale_disk) = Sample.stale_disk.
Proof.
  apply (failed_rebuild_before_persistence_keeps_snapshot
           (fun _ => Raise EmbeddingFailure) Sample.env_ok true Sample.stale_disk _
           EmbeddingFailure).
  - vm_compute. reflexivity.
  - left. split; reflexivity.
Defined.

(** C2, the claim as stated fails: the rebuild of a stale snapshot writes
    the new index over [faiss.index] and then fails to open
    [metadata.pkl]; the rebuild raises, and the disk holds the new index
    next to the old metadata, a pair that [load_index] accepts. *)
Lemma failed_rebuild_overwrites_index :
  let '(disk', r) :=
    VectorStore.load_or_build Sample.embed_texts Sample.env_meta_fails false
      Sample.stale_disk in
  r = Raise OSError /\
  VectorStore.FAISS_PATH disk' <> VectorStore.FAISS_PATH Sample.stale_disk /\
  VectorStore.META_PATH disk' = VectorStore.META_PATH Sample.stale_disk /\
  VectorStore.load_index disk'
    = Ok (VectorStore.mkIndex [[1; 0]; [1; 0]; [1; 0]]%Q, Sample.old_metadata).
Proof.
  vm_compute. split; [reflexivity|]. split; [discriminate|]. split; reflexivity.
Qed.

(** ** The query text *)

Lemma lstrip_blank s : blank s = true -> lstrip s = ""%string.
Proof.
  induction s as [|c s IH]; cbn [blank lstrip]; [reflexivity|].
  intros H. apply andb_true_iff in H as [-> Hs]. auto.
Qed.

Lemma lstrip_shape s :
  (lstrip s = ""%string /\ blank s = true) \/
  exists c r, lstrip s = String c r /\ is_space c = false.
Proof.
  induction s as [|c s IH]; cbn [blank lstrip]; [now left|].
  destruct (is_space c) eqn:E; [exact IH|]. right. eauto.
Qed.

Lemma rstrip_not_nil c r : is_space c = false -> rstrip (String c r) <> ""%string.
Proof. intros E. cbn [rstrip]. rewrite E. now destruct (rstrip r). Qed.

(** [strip] leaves nothing exactly of the blank texts. *)
Lemma strip_nil_iff s : strip s = ""%string <-> blank s = true.
Proof.
  unfold strip. split.
  - intros H. destruct (lstrip_shape s) as [[_ Hb] | (c & r & E & Hc)]; [exact Hb|].
    rewrite E in H. now apply rstrip_not_nil in H.
  - intros H. now rewrite lstrip_blank.
Qed.

(** C3, as the code has it.  The [/query] endpoint rejects a request
    whose text is absent, empty or only whitespace with the HTTP error 400
    "q field is required", before the pipeline is called. *)
Theorem blank_query_is_rejected_by_the_endpoint
    (embed_texts : list string -> result (list VectorStore.vec))
    (index_search : VectorStore.Index -> list VectorStore.vec -> Z -> list (list (Q * Z)))
    (bm25_get_scores : list (list string) -> list string -> list Q)
    (generate_answer : string -> list Rec -> string * string)
    (assemble_context : list Rec -> string)
    (cfg : App.Config) (_rag : option Pipeline.RAGPipeline) (body : App.QueryRequest) :
  App.body_q body = None \/ (exists q, App.body_q body = Some q /\ blank q = true) ->
  App.post_query embed_texts index_search bm25_get_scores generate_answer
    assemble_context cfg _rag body
  = Raise (HTTPException 400 "q field is required").
Proof.
  unfold App.post_query. intros [-> | (q & -> & Hb)]; [reflexivity|].
  apply strip_nil_iff in Hb. rewrite Hb. cbn [String.eqb]. now rewrite orb_true_r.
Qed.

Lemma blank_query_is_rejected_by_the_endpoint_witness :
  App.post_query Sample.embed_texts Sample.index_search Sample.bm25_get_scores
    Sample.generate_answer Sample.assemble_context App.default_config
    (Some Sample.rag) (App.mkQueryRequest (Some "   "%string) None None 5)
  = Raise (HTTPException 400 "q field is required").
Proof.
  apply blank_query_is_rejected_by_the_endpoint.
  right. exists "   "%string. split; reflexivity.
Defined.

(** C3, the claim as stated fails: [RAGPipeline.query] does not look at
    the text; called with three spaces it runs the retrieval and returns
    records. *)
Lemma pipeline_query_runs_on_blank_text :
  blank "   " = true /\
  exists res,
    Pipeline.query Sample.embed_texts Sample.index_search Sample.bm25_get_scores
      Sample.generate_answer Sample.assemble_context Sample.rag
      "   " 2 None None "hybrid" "weighted" (7 # 10) (3 # 10) true = Ok res /\
    length (Pipeline.records res) = 2%nat.
Proof.
  split; [reflexivity|]. eexists. split; [vm_compute; reflexivity | reflexivity].
Qed.

(** ** The order of the results *)

Lemma StronglySorted_take {A} (R : A -> A -> Prop) (l : list A) (n : nat) :
  StronglySorted R l -> StronglySorted R (take n l).
Proof.
  intros H. rewrite <- (take_drop n l) in H. now apply StronglySorted_app_1_l in H.
Qed.

Lemma StronglySorted_slice_to {A} (R : A -> A -> Prop) (l : list A) (k : Z) :
  StronglySorted R l -> StronglySorted R (slice_to l k).
Proof. intros H. unfold slice_to. destruct (k <? 0); now apply StronglySorted_take. Qed.

Lemma StronglySorted_map {A B} (R1 : A -> A -> Prop) (R2 : B -> B -> Prop)
    (f : A -> B) (l : list A) :
  (forall x y, R1 x y -> R2 (f x) (f y)) ->
  StronglySorted R1 l -> StronglySorted R2 (map f l).
Proof.
  intros Hf. induction 1 as [|x l Hl IH Hx]; cbn [map]; constructor; [exact IH|].
  apply Forall_map. eapply Forall_impl; [exact Hx|]. intros y. apply Hf.
Qed.

Lemma clip01_mono a b : (a <= b)%Q -> (VectorStore.clip01 a <= VectorStore.clip01 b)%Q.
Proof.
  intros H. unfold VectorStore.clip01.
  apply Q.min_le_compat_r, Q.max_le_compat_r, H.
Qed.

Lemma map_result_app {A B} (f : A -> result B) (l1 l2 : list A) y1 y2 :
  map_result f l1 = Ok y1 -> map_result f l2 = Ok y2 ->
  map_result f (l1 ++ l2) = Ok (y1 ++ y2).
Proof.
  revert y1. induction l1 as [|x l1 IH]; intros y1 H1 H2; cbn [map_result app] in *.
  - injection H1 as <-. exact H2.
  - inv_bind H1. inv_bind H1. injection H1 as <-.
    rewrite Ha. cbn [bind]. rewrite (IH a0 Ha0 H2). reflexivity.
Qed.

Section OrderFacts.
Import Hybrid.

Variables (metadata : list Course) (top_k : Z) (department source : option string).

(** The vector search keeps the order of the pool. *)
Lemma search_loop_sorted cands : forall acc res,
  StronglySorted (desc fst) cands ->
  StronglySorted (desc sim_key) acc ->
  Forall (fun r => Forall (fun c => (VectorStore.clip01 (fst c) <= sim_key r)%Q) cands) acc ->
  VectorStore.search_loop metadata top_k department source cands acc = Ok res ->
  StronglySorted (desc sim_key) res.
Proof.
  induction cands as [|[score idx] cands IH]; intros acc res Hs Hacc Hinv H;
    cbn [VectorStore.search_loop] in H.
  - congruence.
  - apply StronglySorted_cons in Hs as [Hhd Hs].
    assert (Htl : Forall (fun r => Forall (fun c =>
                    (VectorStore.clip01 (fst c) <= sim_key r)%Q) cands) acc).
    { eapply Forall_impl; [exact Hinv|]. intros r Hr. now inversion Hr. }
    destruct (idx =? -1); [eauto|].
    inv_bind H. inv_bind H. destruct a0; cbn [negb] in H; [|eauto].
    set (r := set_similarity (dict_of a) (VectorStore.clip01 score)) in *.
    assert (Hacc' : StronglySorted (desc sim_key) (acc ++ [r])).
    { apply StronglySorted_app_2; [| exact Hacc | repeat constructor].
      intros x1 x2 Hx1 Hx2. apply list_elem_of_singleton in Hx2 as ->.
      rewrite Forall_forall in Hinv. specialize (Hinv x1 Hx1).
      inversion Hinv; subst. assumption. }
    destruct (_ >=? _); [congruence|].
    eapply IH; [exact Hs | exact Hacc' | | exact H].
    apply Forall_app. split; [exact Htl|]. constructor; [|constructor].
    eapply Forall_impl; [exact Hhd|]. intros c Hc. now apply clip01_mono.
Qed.

(** The normalisation keeps the descending order. *)
Lemma rrf_normalise_sorted results :
  StronglySorted (desc rrf_key) results -> Forall rrf_pos results ->
  StronglySorted (desc final_key) (rrf_normalise results).
Proof.
  intros Hs Hpos. destruct results as [|r0 rest]; [constructor|].
  unfold rrf_normalise.
  inversion Hpos as [|? ? (q0 & Hq0 & Hgt) _]; subst.
  rewrite Hq0. cbn [get_or default from_option id].
  rewrite (Qeq_bool_false_pos q0 Hgt).
  eapply StronglySorted_map; [|exact Hs].
  intros x y Hxy. unfold desc, final_key, rrf_key in *. cbn.
  apply Qmult_le_compat_r; [exact Hxy|].
  apply Qlt_le_weak, Qinv_lt_0_compat, Hgt.
Qed.

Lemma ws_sem_step_present c rec c' :
  Forall both_present (od_values c) ->
  ws_sem_step c rec = Ok c' -> Forall both_present (od_values c').
Proof.
  intros Hc H. unfold ws_sem_step in H. inv_bind H. injection H as <-.
  apply od_set_Forall; [exact Hc|].
  destruct (od_get c a) as [e|] eqn:E.
  - apply od_get_In in E. rewrite Forall_forall in Hc.
    apply list_elem_of_In, Hc in E as [_ Hk]. split; [discriminate | exact Hk].
  - split; [discriminate|]. cbn. unfold setdefault_keyword.
    destruct (keyword_score rec) eqn:Ek; cbn; [now rewrite Ek | discriminate].
Qed.

Lemma ws_kw_step_present c rec c' :
  Forall both_present (od_values c) ->
  ws_kw_step c rec = Ok c' -> Forall both_present (od_values c').
Proof.
  intros Hc H. unfold ws_kw_step in H. inv_bind H. injection H as <-.
  apply od_set_Forall; [exact Hc|].
  destruct (od_get c a) as [e|] eqn:E.
  - apply od_get_In in E. rewrite Forall_forall in Hc.
    apply list_elem_of_In, Hc in E as [Hs _]. split; [exact Hs | discriminate].
  - split; [|discriminate]. cbn. unfold setdefault_similarity.
    destruct (similarity_score rec) eqn:Es; cbn; [now rewrite Es | discriminate].
Qed.

(** After the weighted merge the three [setdefault] calls change nothing. *)
Lemma ws_combined_filled sem kw alpha beta c :
  ws_combined sem kw alpha beta = Ok c ->
  Forall (fun r => setdefault_final
                     (setdefault_keyword (setdefault_similarity r 0) 0) 0 = r)
         (od_values c).
Proof.
  intros H. unfold ws_combined in H. inv_bind H. inv_bind H. injection H as <-.
  assert (H1 : Forall both_present (od_values a)).
  { refine (plain_loop_inv (fun c => Forall both_present (od_values c)) (fun _ => True)
              ws_sem_step sem _ _ [] a _ Ha).
    - intros c0 rec c' Hc _. now apply ws_sem_step_present.
    - apply Forall_forall. auto.
    - constructor. }
  assert (H2 : Forall both_present (od_values a0)).
  { refine (plain_loop_inv (fun c => Forall both_present (od_values c)) (fun _ => True)
              ws_kw_step kw _ _ a a0 H1 Ha0).
    - intros c0 rec c' Hc _. now apply ws_kw_step_present.
    - apply Forall_forall. auto. }
  unfold od_values in *. rewrite map_map. cbn [snd].
  apply Forall_map. rewrite Forall_map in H2.
  eapply Forall_impl; [exact H2|]. intros [code r] [Hs Hk]. cbn [snd] in *.
  destruct r as [fl [s|] [k|] fo rr]; cbn in Hs, Hk; try congruence. reflexivity.
Qed.

Lemma final_key_filled r :
  final_key (setdefault_final (setdefault_keyword (setdefault_similarity r 0) 0) 0)
  = final_key r.
Proof. destruct r as [fl [s|] [k|] [f|] rr]; reflexivity. Qed.

Lemma map_fixed {A} (f : A -> A) (l : list A) :
  Forall (fun x => f x = x) l -> map f l = l.
Proof. induction 1 as [|x l Hx _ IH]; cbn [map]; congruence. Qed.

(** The keys of the merged dictionary are the course codes in the order
    in which the legs first show them. *)
Lemma ws_sem_step_keys c rec c' :
  ws_sem_step c rec = Ok c' ->
  exists code, course_code rec = Ok code /\ od_keys c' = see (od_keys c) code.
Proof.
  intros H. unfold ws_sem_step in H. inv_bind H. injection H as <-.
  exists a. split; [exact Ha | apply od_set_keys].
Qed.

Lemma ws_kw_step_keys c rec c' :
  ws_kw_step c rec = Ok c' ->
  exists code, course_code rec = Ok code /\ od_keys c' = see (od_keys c) code.
Proof.
  intros H. unfold ws_kw_step in H. inv_bind H. injection H as <-.
  exists a. split; [exact Ha | apply od_set_keys].
Qed.

Lemma plain_loop_keys step l :
  (forall c rec c', step c rec = Ok c' ->
     exists code, course_code rec = Ok code /\ od_keys c' = see (od_keys c) code) ->
  forall c c', plain_loop step c l = Ok c' ->
  exists codes, map_result course_code l = Ok codes /\
                od_keys c' = fold_left see codes (od_keys c).
Proof.
  intros Hstep. induction l as [|rec l IH]; intros c c' H; cbn [plain_loop] in H.
  - injection H as <-. exists []. auto.
  - inv_bind H. destruct (Hstep _ _ _ Ha) as (code & Hcode & Hkeys).
    destruct (IH _ _ H) as (codes & Hcodes & Hk).
    exists (code :: codes). cbn [map_result fold_left].
    rewrite Hcode, Hcodes. cbn [bind]. rewrite Hk, Hkeys. auto.
Qed.

Lemma ws_combined_keys sem kw alpha beta c :
  ws_combined sem kw alpha beta = Ok c ->
  exists codes, map_result course_code (sem ++ kw) = Ok codes /\
                od_keys c = first_seen codes.
Proof.
  intros H. unfold ws_combined in H. inv_bind H. inv_bind H. injection H as <-.
  destruct (plain_loop_keys _ sem ws_sem_step_keys _ _ Ha) as (c1 & Hc1 & Hk1).
  destruct (plain_loop_keys _ kw ws_kw_step_keys _ _ Ha0) as (c2 & Hc2 & Hk2).
  exists (c1 ++ c2). split; [now apply map_result_app|].
  unfold first_seen. rewrite fold_left_app. cbn [od_keys map] in Hk1. rewrite <- Hk1, <- Hk2.
  unfold od_keys. rewrite map_map. reflexivity.
Qed.
End OrderFacts.

Section SearchOrder.
Variable embed_texts : list string -> result (list VectorStore.vec).
Variable index_search :
  VectorStore.Index -> list VectorStore.vec -> Z -> list (list (Q * Z)).
Variable bm25_get_scores : list (list string) -> list string -> list Q.

Lemma hybrid_search_sorted query index metadata ks top_k department source
    fusion alpha beta semantic_pool keyword_pool out :
  Hybrid.hybrid_search embed_texts index_search bm25_get_scores query index metadata
    ks top_k department source fusion alpha beta semantic_pool keyword_pool = Ok out ->
  StronglySorted (desc final_key) out.
Proof.
  intros H. unfold Hybrid.hybrid_search in H.
  inv_bind H. inv_bind H. inv_bind H. inv_bind H. injection H as <-.
  apply StronglySorted_slice_to.
  eapply (StronglySorted_map (desc final_key)).
  { intros x y. unfold desc. now rewrite !final_key_filled. }
  destruct (String.eqb fusion "rrf").
  - unfold Hybrid._reciprocal_rank_fusion in Ha2. inv_bind Ha2. injection Ha2 as <-.
    apply semantic_leg_ok, Forall_and in Ha0 as [Hs _].
    apply keyword_leg_ok, Forall_and in Ha1 as [Hw _].
    apply rrf_normalise_sorted; [apply (sorted_desc_sorted rrf_key)|].
    apply sorted_desc_Forall.
    eapply rrf_combined_pos; [| exact Hs | exact Hw | exact Ha3]. lia.
  - unfold Hybrid._weighted_sum in Ha2. inv_bind Ha2. injection Ha2 as <-.
    apply (sorted_desc_sorted final_key).
Qed.

Lemma hybrid_search_weighted_prefix query index metadata ks top_k department source
    fusion alpha beta semantic_pool keyword_pool out :
  String.eqb fusion "rrf" = false ->
  Hybrid.hybrid_search embed_texts index_search bm25_get_scores query index metadata
    ks top_k department source fusion alpha beta semantic_pool keyword_pool = Ok out ->
  exists q_vec sem kw merged,
    Hybrid.embed_query embed_texts query = Ok q_vec /\
    VectorStore.search index_search index metadata q_vec semantic_pool department source
      = Ok sem /\
    KeywordSearch.search bm25_get_scores ks query keyword_pool department source
      = Ok kw /\
    Hybrid._weighted_sum sem kw alpha beta = Ok merged /\
    out = slice_to merged top_k.
Proof.
  intros Hf H. unfold Hybrid.hybrid_search in H. rewrite Hf in H.
  inv_bind H. inv_bind H. inv_bind H. inv_bind H. injection H as <-.
  exists a, a0, a1, a2. repeat (split; [assumption|]).
  f_equal. apply map_fixed.
  unfold Hybrid._weighted_sum in Ha2. inv_bind Ha2. injection Ha2 as <-.
  apply sorted_desc_Forall. eapply ws_combined_filled; eauto.
Qed.

Lemma vector_search_sorted query index metadata top_k department source out :
  (forall q k, Forall (StronglySorted (desc fst)) (index_search index q k)) ->
  Hybrid.vector_search embed_texts index_search query index metadata
    top_k department source = Ok out ->
  StronglySorted (desc final_key) out.
Proof.
  intros Hidx H. unfold Hybrid.vector_search in H. inv_bind H. inv_bind H.
  injection H as <-.
  eapply (StronglySorted_map (desc sim_key)).
  { intros x y. unfold desc, final_key, sim_key.
    destruct x as [? ? [?|] ? ?], y as [? ? [?|] ? ?]; cbn; auto. }
  unfold VectorStore.search in Ha0.
  specialize (Hidx a (VectorStore.fetch_k index top_k department source)).
  destruct (index_search _ _ _) as [|cands others]; [discriminate|].
  inversion Hidx; subst.
  eapply search_loop_sorted; [eassumption | constructor | constructor | exact Ha0].
Qed.
End SearchOrder.

(** C8.  Both searches are functions of their arguments and of the
    snapshot, so two calls with the same arguments return the same ordered
    list.  The hybrid search returns its results in descending order of
    [final_score].  The weighted sum is the stable descending sort of the
    merged dictionary, whose insertion order is the order in which the
    legs (semantic first) first show each course code: results of equal
    [final_score] keep that order; and the hybrid search under the
    weighted fusion returns the first [top_k] of that list.  The
    vector-only search keeps the descending order of the index. *)
Theorem search_is_deterministic_and_stably_sorted
    (embed_texts : list string -> result (list VectorStore.vec))
    (index_search : VectorStore.Index -> list VectorStore.vec -> Z -> list (list (Q * Z)))
    (bm25_get_scores : list (list string) -> list string -> list Q)
    (query : string) (index : VectorStore.Index) (metadata : list Course)
    (keyword_searcher : KeywordSearch.KeywordSearcher)
    (top_k : Z) (department source : option string) (fusion : string)
    (alpha beta : Q) (semantic_pool keyword_pool : Z) :
  (forall r1 r2,
     Hybrid.hybrid_search embed_texts index_search bm25_get_scores query index metadata
       keyword_searcher top_k department source fusion alpha beta
       semantic_pool keyword_pool = r1 ->
     Hybrid.hybrid_search embed_texts index_search bm25_get_scores query index metadata
       keyword_searcher top_k department source fusion alpha beta
       semantic_pool keyword_pool = r2 ->
     r1 = r2) /\
  (forall r1 r2,
     Hybrid.vector_search embed_texts index_search query index metadata
       top_k department source = r1 ->
     Hybrid.vector_search embed_texts index_search query index metadata
       top_k department source = r2 ->
     r1 = r2) /\
  (forall out,
     Hybrid.hybrid_search embed_texts index_search bm25_get_scores query index metadata
       keyword_searcher top_k department source fusion alpha beta
       semantic_pool keyword_pool = Ok out ->
     StronglySorted (desc final_key) out) /\
  (forall sem kw out,
     Hybrid._weighted_sum sem kw alpha beta = Ok out ->
     exists combined codes,
       Hybrid.ws_combined sem kw alpha beta = Ok combined /\
       map_result course_code (sem ++ kw) = Ok codes /\
       Hybrid.od_keys combined = first_seen codes /\
       Permutation (Hybrid.od_values combined) out /\
       StronglySorted (desc final_key) out /\
       forall v, with_key final_key v out
                 = with_key final_key v (Hybrid.od_values combined)) /\
  (forall out,
     String.eqb fusion "rrf" = false ->
     Hybrid.hybrid_search embed_texts index_search bm25_get_scores query index metadata
       keyword_searcher top_k department source fusion alpha beta
       semantic_pool keyword_pool = Ok out ->
     exists q_vec sem kw merged,
       Hybrid.embed_query embed_texts query = Ok q_vec /\
       VectorStore.search index_search index metadata q_vec semantic_pool
         department source = Ok sem /\
       KeywordSearch.search bm25_get_scores keyword_searcher query keyword_pool
         department source = Ok kw /\
       Hybrid._weighted_sum sem kw alpha beta = Ok merged /\
       out = slice_to merged top_k) /\
  (forall out,
     (forall q k, Forall (StronglySorted (desc fst)) (index_search index q k)) ->
     Hybrid.vector_search embed_texts index_search query index metadata
       top_k department source = Ok out ->
     StronglySorted (desc final_key) out).
Proof.
  split; [intros r1 r2 <- <-; reflexivity|].
  split; [intros r1 r2 <- <-; reflexivity|].
  split; [intros out; apply hybrid_search_sorted|].
  split.
  - intros sem kw out H. unfold Hybrid._weighted_sum in H. inv_bind H.
    injection H as <-.
    destruct (ws_combined_keys _ _ _ _ _ Ha) as (codes & Hcodes & Hkeys).
    exists a, codes. split; [exact Ha|]. split; [exact Hcodes|].
    split; [exact Hkeys|]. split; [apply sorted_desc_perm|].
    split; [apply (sorted_desc_sorted final_key)|].
    intros v. apply (sorted_desc_stable final_key).
  - split; [intros out; apply hybrid_search_weighted_prefix|].
    intros out. apply vector_search_sorted.
Qed.

Lemma search_is_deterministic_and_stably_sorted_witness :
  StronglySorted (desc final_key) (Sample.hybrid_out "weighted").
Proof.
  destruct (search_is_deterministic_and_stably_sorted Sample.embed_texts
              Sample.index_search Sample.bm25_get_scores "software engineering"
              Sample.index Sample.corpus Sample.keyword_searcher 2 None None
              "weighted" (7 # 10) (3 # 10) 50 50) as (_ & _ & H & _).
  apply H. vm_compute. reflexivity.
Defined.

(** ** The weighted sum merges a shared document into one entry *)

Section WeightedMerge.
Import Hybrid.

Lemma code_eqb_true code r : code_eqb code r = true <-> course_code r = Ok code.
Proof.
  unfold code_eqb, course_code. destruct (fields r !! "course_code"%string) as [c|].
  - rewrite bool_decide_eq_true. split; congruence.
  - split; discriminate.
Qed.

Lemma code_eqb_false code r c :
  course_code r = Ok c -> c <> code -> code_eqb code r = false.
Proof.
  intros Hc Hne. destruct (code_eqb code r) eqn:E; [|reflexivity].
  apply code_eqb_true in E. congruence.
Qed.

Lemma od_set_NoDup (c : odict) k v : NoDup (od_keys c) -> NoDup (od_keys (od_set c k v)).
Proof.
  intros H. rewrite od_set_keys. destruct (decide (k ∈ od_keys c)) as [Hin|Hin]; [exact H|].
  apply NoDup_app. split; [exact H|]. split; [|apply NoDup_singleton].
  intros x Hx Hx'. apply list_elem_of_singleton in Hx' as ->. contradiction.
Qed.

Lemma od_set_keyed (c : odict) k v :
  keyed c -> course_code v = Ok k -> keyed (od_set c k v).
Proof.
  unfold keyed. induction c as [|[k' v'] c IH]; cbn [od_set]; intros Hc Hv.
  - now constructor.
  - inversion Hc; subst. destruct (decide (k' = k)); constructor; auto.
Qed.

Lemma od_get_keyed (c : odict) k e : keyed c -> od_get c k = Some e -> course_code e = Ok k.
Proof.
  unfold keyed. induction c as [|[k' v'] c IH]; cbn [od_get]; intros Hc H; [discriminate|].
  inversion Hc; subst. destruct (decide (k' = k)) as [<-|]; [|auto].
  injection H as <-. assumption.
Qed.

(** Under distinct keys, the entries carrying a code are the one stored
    under it. *)
Lemma od_get_filter (c : odict) code e :
  NoDup (od_keys c) -> keyed c -> od_get c code = Some e ->
  List.filter (code_eqb code) (od_values c) = [e].
Proof.
  unfold keyed. induction c as [|[k v] c IH];
    cbn [od_get od_keys od_values map fst snd List.filter]; intros Hnd Hk H; [discriminate|].
  apply NoDup_cons in Hnd as [Hk' Hnd]. inversion Hk as [|? ? Hv Hc]; subst.
  cbn [fst snd] in Hv. destruct (decide (k = code)) as [->|Hne].
  - injection H as <-. rewrite (proj2 (code_eqb_true code v) Hv). f_equal.
    clear IH. induction c as [|[k2 v2] c IH2]; cbn [map snd List.filter]; [reflexivity|].
    inversion Hc; subst. cbn [fst snd] in *.
    apply not_elem_of_cons in Hk' as [Hne2 Hk'].
    apply NoDup_cons in Hnd as [_ Hnd].
    rewrite (code_eqb_false code v2 k2); auto.
  - rewrite (code_eqb_false code v k Hv Hne). now apply IH.
Qed.

Lemma fields_setdefault_keyword r q : fields (setdefault_keyword r q) = fields r.
Proof. unfold setdefault_keyword. now destruct (keyword_score r). Qed.

Lemma fields_setdefault_similarity r q : fields (setdefault_similarity r q) = fields r.
Proof. unfold setdefault_similarity. now destruct (similarity_score r). Qed.

Lemma course_code_fields r r' : fields r = fields r' -> course_code r = course_code r'.
Proof. unfold course_code. now intros ->. Qed.

(** What one step of the first loop does to the entry of a code. *)
Lemma ws_sem_step_get c rec c' code :
  ws_sem_step c rec = Ok c' -> course_code rec = Ok code ->
  exists e, od_get c' code = Some e /\
            similarity_score e = Some (get_or (similarity_score rec) 0).
Proof.
  intros H Hc. unfold ws_sem_step in H. rewrite Hc in H. cbn [bind] in H.
  injection H as <-. rewrite od_get_set_eq. eauto.
Qed.

Lemma ws_sem_step_other c rec c' code0 code :
  ws_sem_step c rec = Ok c' -> course_code rec = Ok code0 -> code0 <> code ->
  od_get c' code = od_get c code.
Proof.
  intros H Hc Hne. unfold ws_sem_step in H. rewrite Hc in H. cbn [bind] in H.
  injection H as <-. now apply od_get_set_ne.
Qed.

Lemma ws_kw_step_get c rec c' code e0 :
  ws_kw_step c rec = Ok c' -> course_code rec = Ok code -> od_get c code = Some e0 ->
  exists e, od_get c' code = Some e /\
            similarity_score e = similarity_score e0 /\
            keyword_score e = Some (get_or (keyword_score rec) 0).
Proof.
  intros H Hc H0. unfold ws_kw_step in H. rewrite Hc in H. cbn [bind] in H.
  rewrite H0 in H. injection H as <-. rewrite od_get_set_eq. eauto.
Qed.

Lemma ws_kw_step_other c rec c' code0 code :
  ws_kw_step c rec = Ok c' -> course_code rec = Ok code0 -> code0 <> code ->
  od_get c' code = od_get c code.
Proof.
  intros H Hc Hne. unfold ws_kw_step in H. rewrite Hc in H. cbn [bind] in H.
  injection H as <-. now apply od_get_set_ne.
Qed.

Lemma ws_sem_step_keyed c rec c' :
  NoDup (od_keys c) /\ keyed c -> ws_sem_step c rec = Ok c' ->
  NoDup (od_keys c') /\ keyed c'.
Proof.
  intros [Hnd Hk] H. unfold ws_sem_step in H. inv_bind H. injection H as <-.
  split; [now apply od_set_NoDup|]. apply od_set_keyed; [exact Hk|].
  destruct (od_get c a) as [e|] eqn:E.
  - exact (od_get_keyed c a e Hk E).
  - rewrite <- Ha. apply course_code_fields. cbn [fields set_similarity].
    apply fields_setdefault_keyword.
Qed.

Lemma ws_kw_step_keyed c rec c' :
  NoDup (od_keys c) /\ keyed c -> ws_kw_step c rec = Ok c' ->
  NoDup (od_keys c') /\ keyed c'.
Proof.
  intros [Hnd Hk] H. unfold ws_kw_step in H. inv_bind H. injection H as <-.
  split; [now apply od_set_NoDup|]. apply od_set_keyed; [exact Hk|].
  destruct (od_get c a) as [e|] eqn:E.
  - exact (od_get_keyed c a e Hk E).
  - rewrite <- Ha. apply course_code_fields. cbn [fields set_keyword].
    apply fields_setdefault_similarity.
Qed.

(** Records of other codes leave the entry of [code] alone. *)
Lemma plain_loop_other step code l :
  (forall c rec c' code0, step c rec = Ok c' -> course_code rec = Ok code0 ->
                          code0 <> code -> od_get c' code = od_get c code) ->
  forall c c' codes, plain_loop step c l = Ok c' ->
  map_result course_code l = Ok codes -> code ∉ codes ->
  od_get c' code = od_get c code.
Proof.
  intros Hstep. induction l as [|rec l IH]; intros c c' codes H Hm Hnot;
    cbn [plain_loop map_result] in *.
  - congruence.
  - inv_bind H. inv_bind Hm. inv_bind Hm. injection Hm as <-.
    apply not_elem_of_cons in Hnot as [Hne Hnot].
    rewrite (IH _ _ _ H Ha1 Hnot). eapply Hstep; eauto.
Qed.

Lemma sem_loop_get rs code l : forall c c' codes,
  plain_loop ws_sem_step c l = Ok c' ->
  map_result course_code l = Ok codes -> NoDup codes ->
  rs ∈ l -> course_code rs = Ok code ->
  exists e, od_get c' code = Some e /\
            similarity_score e = Some (get_or (similarity_score rs) 0).
Proof.
  induction l as [|rec l IH]; intros c c' codes H Hm Hnd Hin Hc;
    cbn [plain_loop map_result] in *.
  - now apply elem_of_nil in Hin.
  - inv_bind H. inv_bind Hm. inv_bind Hm. injection Hm as <-.
    apply NoDup_cons in Hnd as [Hnot Hnd].
    apply elem_of_cons in Hin as [->|Hin]; [|eauto].
    assert (a0 = code) as -> by congruence.
    destruct (ws_sem_step_get _ _ _ _ Ha Hc) as (e & He & Hs).
    exists e. split; [|exact Hs]. rewrite <- He.
    eapply (plain_loop_other ws_sem_step code l
              (fun c0 r0 c1 code0 => ws_sem_step_other c0 r0 c1 code0 code)); eauto.
Qed.

Lemma kw_loop_get rk code l : forall c c' codes e0,
  plain_loop ws_kw_step c l = Ok c' ->
  map_result course_code l = Ok codes -> NoDup codes ->
  rk ∈ l -> course_code rk = Ok code -> od_get c code = Some e0 ->
  exists e, od_get c' code = Some e /\
            similarity_score e = similarity_score e0 /\
            keyword_score e = Some (get_or (keyword_score rk) 0).
Proof.
  induction l as [|rec l IH]; intros c c' codes e0 H Hm Hnd Hin Hc H0;
    cbn [plain_loop map_result] in *.
  - now apply elem_of_nil in Hin.
  - inv_bind H. inv_bind Hm. inv_bind Hm. injection Hm as <-.
    apply NoDup_cons in Hnd as [Hnot Hnd].
    apply elem_of_cons in Hin as [->|Hin].
    + assert (a0 = code) as -> by congruence.
      destruct (ws_kw_step_get _ _ _ _ _ Ha Hc H0) as (e & He & Hs & Hk).
      exists e. split; [|auto]. rewrite <- He.
      eapply (plain_loop_other ws_kw_step code l
                (fun c0 r0 c1 code0 => ws_kw_step_other c0 r0 c1 code0 code)); eauto.
    + destruct (decide (a0 = code)) as [->|Hne].
      * destruct (ws_kw_step_get _ _ _ _ _ Ha Ha0 H0) as (e & He & Hs & _).
        destruct (IH _ _ _ _ H Ha1 Hnd Hin Hc He) as (e' & He' & Hs' & Hk').
        exists e'. split; [exact He'|]. split; [congruence | exact Hk'].
      * eapply IH; eauto. rewrite <- H0. eapply ws_kw_step_other; eauto.
Qed.

Lemma filter_map_same {A} (p : A -> bool) (f : A -> A) (l : list A) :
  (forall x, p (f x) = p x) ->
  List.filter p (map f l) = map f (List.filter p l).
Proof.
  intros Hp. induction l as [|x l IH]; cbn [map List.filter]; [reflexivity|].
  rewrite Hp. destruct (p x); cbn [map]; now rewrite IH.
Qed.

Lemma filter_Permutation {A} (p : A -> bool) (l l' : list A) :
  Permutation l l' -> Permutation (List.filter p l) (List.filter p l').
Proof.
  induction 1 as [|x l l' _ IH|x y l|l l' l'' _ IH1 _ IH2]; cbn [List.filter].
  - reflexivity.
  - destruct (p x); [now apply perm_skip | exact IH].
  - destruct (p x), (p y); try reflexivity. apply perm_swap.
  - now rewrite IH1.
Qed.

(** The weighted sum returns a list whenever every record has a course
    code. *)
Lemma weighted_sum_total sem kw alpha beta :
  Forall (fun r => has_code r = true) sem -> Forall (fun r => has_code r = true) kw ->
  exists out, _weighted_sum sem kw alpha beta = Ok out.
Proof.
  intros Hs Hw. unfold _weighted_sum, ws_combined.
  assert (Hsem : forall c rec, has_code rec = true -> exists c', ws_sem_step c rec = Ok c').
  { intros c rec Hc. unfold ws_sem_step. destruct (has_code_Ok _ Hc) as [code ->].
    cbn [bind]. eauto. }
  assert (Hkw : forall c rec, has_code rec = true -> exists c', ws_kw_step c rec = Ok c').
  { intros c rec Hc. unfold ws_kw_step. destruct (has_code_Ok _ Hc) as [code ->].
    cbn [bind]. eauto. }
  destruct (plain_loop_total (fun r => has_code r = true) ws_sem_step sem Hsem Hs [])
    as [c1 ->].
  cbn [bind].
  destruct (plain_loop_total (fun r => has_code r = true) ws_kw_step kw Hkw Hw c1)
    as [c2 ->].
  cbn [bind]. eauto.
Qed.

(** A document found by both legs appears once in the weighted sum and
    carries the similarity score of the semantic leg and the keyword
    score of the keyword leg (each leg listing a course code once). *)
Lemma weighted_sum_carries_both_scores sem kw alpha beta out rs rk code codes_s codes_k :
  _weighted_sum sem kw alpha beta = Ok out ->
  map_result course_code sem = Ok codes_s -> NoDup codes_s ->
  map_result course_code kw = Ok codes_k -> NoDup codes_k ->
  rs ∈ sem -> rk ∈ kw -> course_code rs = Ok code -> course_code rk = Ok code ->
  exists r,
    List.filter (code_eqb code) out = [r] /\
    similarity_score r = Some (get_or (similarity_score rs) 0) /\
    keyword_score r = Some (get_or (keyword_score rk) 0).
Proof.
  intros H Hms Hns Hmk Hnk Hins Hink Hcs Hck.
  unfold _weighted_sum in H. inv_bind H. injection H as <-.
  unfold ws_combined in Ha. inv_bind Ha. inv_bind Ha. injection Ha as <-.
  assert (I1 : NoDup (od_keys a0) /\ keyed a0).
  { refine (plain_loop_inv (fun c => NoDup (od_keys c) /\ keyed c) (fun _ => True)
              ws_sem_step sem _ _ [] a0 _ Ha0).
    - intros c rec c' Hc _. now apply ws_sem_step_keyed.
    - apply Forall_forall. auto.
    - split; [apply NoDup_nil_2 | constructor]. }
  assert (I2 : NoDup (od_keys a1) /\ keyed a1).
  { refine (plain_loop_inv (fun c => NoDup (od_keys c) /\ keyed c) (fun _ => True)
              ws_kw_step kw _ _ a0 a1 I1 Ha1).
    - intros c rec c' Hc _. now apply ws_kw_step_keyed.
    - apply Forall_forall. auto. }
  destruct (sem_loop_get rs code sem _ _ _ Ha0 Hms Hns Hins Hcs) as (e1 & He1 & Hs1).
  destruct (kw_loop_get rk code kw _ _ _ _ Ha1 Hmk Hnk Hink Hck He1)
    as (e2 & He2 & Hs2 & Hk2).
  destruct I2 as [Hnd2 Hkeyed2].
  pose proof (od_get_filter a1 code e2 Hnd2 Hkeyed2 He2) as Hf.
  exists (ws_final alpha beta e2). split; [|split; cbn; congruence].
  apply Permutation_length_1_inv.
  rewrite <- (filter_Permutation _ _ _ (sorted_desc_perm _ _)).
  unfold od_values in *. rewrite map_map. cbn [snd].
  rewrite <- (map_map snd (ws_final alpha beta)).
  rewrite filter_map_same; [now rewrite Hf | reflexivity].
Qed.
End WeightedMerge.

(** * Further properties of the code *)

(** ** The two searches *)

Lemma getitem_elem_of {A} (l : list A) (i : Z) (x : A) : getitem l i = Ok x -> x ∈ l.
Proof.
  unfold getitem. destruct (_ && _); [|discriminate].
  destruct (l !! Z.to_nat _) eqn:E; [|discriminate].
  intros [= <-]. eapply list_elem_of_lookup_2; eauto.
Qed.

Lemma passes_filters_matches department source rec :
  passes_filters department source rec = Ok true ->
  matches_filters department source rec.
Proof.
  intros H. unfold matches_filters. split; intros Ht.
  - destruct (truthy_Some _ Ht) as (d & -> & Hd).
    unfold passes_filters, get_str in H. rewrite Ht in H.
    destruct (rec !! "department"%string) as [[x|]|]; cbn [bind] in H; try discriminate.
    + destruct (contains (lower (default ""%string (Some d))) (lower x)) eqn:E.
      * exists d, x. auto.
      * discriminate.
    + destruct (contains (lower (default ""%string (Some d))) (lower "")) eqn:E;
        [|discriminate].
      destruct d; [congruence | discriminate].
  - destruct (truthy_Some _ Ht) as (s & -> & Hs).
    destruct (passes_filters_source rec department (Some s) Ht H) as [x Hx].
    exists s, x. split; [reflexivity|]. split; [exact Hx|].
    unfold passes_filters, get_str in H. rewrite Ht, Hx in H.
    destruct (truthy department);
      destruct (rec !! "department"%string) as [[y|]|]; cbn [bind] in H;
      try discriminate;
      try (match type of H with context [contains ?n ?h] => destruct (contains n h) end);
      cbn [negb bind] in H; try discriminate;
      injection H as H; now apply String.eqb_eq in H.
Qed.

Section SearchShape.
Variables (metadata : list Course) (top_k : Z) (department source : option string).

(** What every result of the vector search is: the copy of a row that
    satisfies the filters, with the similarity score as its only score. *)
Lemma search_loop_rows (P : Rec -> Prop) cands :
  (forall rec score, rec ∈ metadata -> passes_filters department source rec = Ok true ->
                     P (set_similarity (dict_of rec) (VectorStore.clip01 score))) ->
  forall acc res, Forall P acc ->
  VectorStore.search_loop metadata top_k department source cands acc = Ok res ->
  Forall P res.
Proof.
  intros HP. induction cands as [|[score idx] cands IH]; intros acc res Hacc H;
    cbn [VectorStore.search_loop] in H.
  - congruence.
  - destruct (idx =? -1); [eauto|].
    inv_bind H. inv_bind H. destruct a0; cbn [negb] in H; [|eauto].
    assert (Hacc' : Forall P (acc ++ [set_similarity (dict_of a)
                                        (VectorStore.clip01 score)])).
    { apply Forall_app. split; [exact Hacc|]. constructor; [|constructor].
      apply HP; [eapply getitem_elem_of; eauto | assumption]. }
    destruct (_ >=? _); [congruence | eauto].
Qed.

Lemma search_loop_length cands : forall acc res,
  Z.of_nat (length acc) <= Z.max 1 top_k ->
  (Z.of_nat (length acc) < top_k \/ acc = []) ->
  VectorStore.search_loop metadata top_k department source cands acc = Ok res ->
  Z.of_nat (length res) <= Z.max 1 top_k.
Proof.
  induction cands as [|[score idx] cands IH]; intros acc res Hle Hlt H;
    cbn [VectorStore.search_loop] in H.
  - congruence.
  - destruct (idx =? -1); [eauto|].
    inv_bind H. inv_bind H. destruct a0; cbn [negb] in H; [|eauto].
    rewrite Z.geb_leb in H.
    destruct (Z.leb_spec top_k
                (Z.of_nat (length (acc ++ [set_similarity (dict_of a)
                                             (VectorStore.clip01 score)])))) as [Hge|Hl].
    + injection H as <-. rewrite length_app in *. cbn [length] in *.
      destruct Hlt as [Hlt | ->]; cbn [length] in *; lia.
    + eapply IH; [| |exact H]; rewrite length_app in *; cbn [length] in *; [lia|].
      left. lia.
Qed.

Lemma kw_loop_rows (records : list Course) (P : Rec -> Prop) (S : Q -> Prop) scored :
  (forall rec score, rec ∈ records -> passes_filters department source rec = Ok true ->
                     (0 < score)%Q -> S score -> P (set_keyword (dict_of rec) score)) ->
  Forall (fun p => S (snd p)) scored ->
  forall acc res, Forall P acc ->
  KeywordSearch.kw_loop records top_k department source scored acc = Ok res ->
  Forall P res.
Proof.
  intros HP HS. induction HS as [|[idx score] scored Hs _ IH]; intros acc res Hacc H;
    cbn [KeywordSearch.kw_loop] in H.
  - congruence.
  - destruct (Qle_bool score 0) eqn:E; [congruence|].
    inv_bind H. inv_bind H. destruct a0; cbn [negb] in H; [|eauto].
    assert (Hacc' : Forall P (acc ++ [set_keyword (dict_of a) score])).
    { apply Forall_app. split; [exact Hacc|]. constructor; [|constructor].
      apply HP; [eapply getitem_elem_of; eauto | assumption | | exact Hs].
      apply Qnot_le_lt. intros Hle. apply Qle_bool_iff in Hle. congruence. }
    destruct (_ >=? _); [congruence | eauto].
Qed.

Lemma kw_loop_length (records : list Course) scored : forall acc res,
  Z.of_nat (length acc) <= Z.max 1 top_k ->
  (Z.of_nat (length acc) < top_k \/ acc = []) ->
  KeywordSearch.kw_loop records top_k department source scored acc = Ok res ->
  Z.of_nat (length res) <= Z.max 1 top_k.
Proof.
  induction scored as [|[idx score] scored IH]; intros acc res Hle Hlt H;
    cbn [KeywordSearch.kw_loop] in H.
  - congruence.
  - destruct (Qle_bool score 0); [congruence|].
    inv_bind H. inv_bind H. destruct a0; cbn [negb] in H; [|eauto].
    rewrite Z.geb_leb in H.
    destruct (Z.leb_spec top_k
                (Z.of_nat (length (acc ++ [set_keyword (dict_of a) score]))))
      as [Hge|Hl].
    + injection H as <-. rewrite length_app in *. cbn [length] in *.
      destruct Hlt as [Hlt | ->]; cbn [length] in *; lia.
    + eapply IH; [| |exact H]; rewrite length_app in *; cbn [length] in *; [lia|].
      left. lia.
Qed.

(** The keyword search keeps the descending order of the scored list. *)
Lemma kw_loop_sorted (records : list Course) scored : forall acc res,
  StronglySorted (desc snd) scored ->
  StronglySorted (desc kw_key) acc ->
  Forall (fun r => Forall (fun p => (snd p <= kw_key r)%Q) scored) acc ->
  KeywordSearch.kw_loop records top_k department source scored acc = Ok res ->
  StronglySorted (desc kw_key) res.
Proof.
  induction scored as [|[idx score] scored IH]; intros acc res Hs Hacc Hinv H;
    cbn [KeywordSearch.kw_loop] in H.
  - congruence.
  - apply StronglySorted_cons in Hs as [Hhd Hs].
    assert (Htl : Forall (fun r => Forall (fun p => (snd p <= kw_key r)%Q) scored) acc).
    { eapply Forall_impl; [exact Hinv|]. intros r Hr. now inversion Hr. }
    destruct (Qle_bool score 0); [congruence|].
    inv_bind H. inv_bind H. destruct a0; cbn [negb] in H; [|eauto].
    set (r := set_keyword (dict_of a) score) in *.
    assert (Hacc' : StronglySorted (desc kw_key) (acc ++ [r])).
    { apply StronglySorted_app_2; [| exact Hacc | repeat constructor].
      intros x1 x2 Hx1 Hx2. apply list_elem_of_singleton in Hx2 as ->.
      rewrite Forall_forall in Hinv. specialize (Hinv x1 Hx1).
      inversion Hinv; subst. assumption. }
    destruct (_ >=? _); [congruence|].
    eapply IH; [exact Hs | exact Hacc' | | exact H].
    apply Forall_app. split; [exact Htl|]. constructor; [|constructor].
    eapply Forall_impl; [exact Hhd|]. intros p Hp. exact Hp.
Qed.
End SearchShape.

(** X1.  Every result of the vector search is the copy of a metadata row
    that satisfies the active filters, with [similarity_score] as its only
    score key; and there are at most [top_k] of them (at most one when
    [top_k] is below one: the length is tested after the first append). *)
Theorem vector_store_search_results
    (index_search : VectorStore.Index -> list VectorStore.vec -> Z -> list (list (Q * Z)))
    (index : VectorStore.Index) (metadata : list Course)
    (query_vec : list VectorStore.vec) (top_k : Z)
    (department source : option string) (res : list Rec) :
  VectorStore.search index_search index metadata query_vec top_k department source
    = Ok res ->
  Z.of_nat (length res) <= Z.max 1 top_k /\
  Forall (fun r =>
            fields r ∈ metadata /\ matches_filters department source (fields r) /\
            (exists x, similarity_score r = Some x) /\
            keyword_score r = None /\ final_score r = None /\ rrf_score r = None) res.
Proof.
  intros H. unfold VectorStore.search in H.
  destruct (index_search _ _ _) as [|cands others]; [discriminate|]. split.
  - eapply search_loop_length; [| |exact H]; cbn [length]; [lia | now right].
  - eapply search_loop_rows; [|constructor|exact H].
    intros rec score Hin Hp. cbn. split; [exact Hin|].
    split; [now apply passes_filters_matches|]. eauto.
Qed.

Lemma vector_store_search_results_witness :
  Z.of_nat (length Scenario.search_out) <= Z.max 1 2 /\
  Forall (fun r =>
            fields r ∈ Sample.corpus /\
            matches_filters (Some "computer"%string) (Some "cab"%string) (fields r) /\
            (exists x, similarity_score r = Some x) /\
            keyword_score r = None /\ final_score r = None /\ rrf_score r = None)
         Scenario.search_out.
Proof.
  apply (vector_store_search_results Sample.index_search Sample.index Sample.corpus
           [[1; 0]%Q] 2 (Some "computer"%string) (Some "cab"%string)).
  vm_compute. reflexivity.
Defined.

Section KeywordTop.
Variable bm25_get_scores : list (list string) -> list string -> list Q.

Lemma keyword_search_unfold self query top_k department source res :
  KeywordSearch.search bm25_get_scores self query top_k department source = Ok res ->
  res = [] \/
  exists m raw,
    raw = bm25_get_scores (KeywordSearch._bm25 self) (KeywordSearch._tokenise query) /\
    KeywordSearch.array_max raw = Ok m /\
    KeywordSearch.kw_loop (KeywordSearch._records self) top_k department source
      (sorted_desc snd
         (KeywordSearch.enumerate
            (map (fun x => (x / (if Qgt_bool m 0 then m else 1))%Q) raw))) []
    = Ok res.
Proof.
  unfold KeywordSearch.search. intros H.
  destruct (KeywordSearch._tokenise query) as [|t ts]; [left; congruence|].
  inv_bind H. right. eauto.
Qed.

Lemma normed_scores_le_1 m raw :
  KeywordSearch.array_max raw = Ok m ->
  Forall (fun p : Z * Q => (snd p <= 1)%Q)
    (sorted_desc snd
       (KeywordSearch.enumerate
          (map (fun x => (x / (if Qgt_bool m 0 then m else 1))%Q) raw))).
Proof.
  intros Hm. apply sorted_desc_Forall. apply (enumerate_snd (fun x => (x <= 1)%Q)).
  apply Forall_map. eapply Forall_impl; [exact (array_max_ge _ _ Hm)|].
  intros x Hx. now apply normed_le_1.
Qed.
End KeywordTop.

(** X2.  Every result of the keyword search is the copy of a corpus row
    that satisfies the active filters, with [keyword_score] as its only
    score key and a score in (0, 1]; the results come in descending order
    of that score, and there are at most [top_k] of them (at most one when
    [top_k] is below one). *)
Theorem keyword_search_results
    (bm25_get_scores : list (list string) -> list string -> list Q)
    (self : KeywordSearch.KeywordSearcher) (query : string) (top_k : Z)
    (department source : option string) (res : list Rec) :
  KeywordSearch.search bm25_get_scores self query top_k department source = Ok res ->
  Z.of_nat (length res) <= Z.max 1 top_k /\
  StronglySorted (desc kw_key) res /\
  Forall (fun r =>
            fields r ∈ KeywordSearch._records self /\
            matches_filters department source (fields r) /\
            (exists x, keyword_score r = Some x /\ (0 < x)%Q /\ (x <= 1)%Q) /\
            similarity_score r = None /\ final_score r = None /\ rrf_score r = None) res.
Proof.
  intros H. apply keyword_search_unfold in H as [-> | (m & raw & -> & Hm & H)].
  { split; [cbn; lia|]. split; constructor. }
  split; [|split].
  - eapply kw_loop_length; [| |exact H]; cbn [length]; [lia | now right].
  - eapply kw_loop_sorted; [| constructor | constructor | exact H].
    apply (sorted_desc_sorted snd).
  - eapply (kw_loop_rows top_k department source _ _ (fun x => (x <= 1)%Q));
      [| apply normed_scores_le_1; exact Hm | constructor | exact H].
    intros rec score Hin Hp H0 H1. cbn. split; [exact Hin|].
    split; [now apply passes_filters_matches|]. eauto 10.
Qed.

Lemma keyword_search_results_witness :
  Z.of_nat (length Scenario.keyword_out) <= Z.max 1 50 /\
  StronglySorted (desc kw_key) Scenario.keyword_out /\
  Forall (fun r =>
            fields r ∈ KeywordSearch._records Sample.keyword_searcher /\
            matches_filters None None (fields r) /\
            (exists x, keyword_score r = Some x /\ (0 < x)%Q /\ (x <= 1)%Q) /\
            similarity_score r = None /\ final_score r = None /\ rrf_score r = None)
         Scenario.keyword_out.
Proof.
  apply (keyword_search_results Sample.bm25_get_scores Sample.keyword_searcher
           "software engineering" 50 None None).
  vm_compute. reflexivity.
Defined.

Lemma passes_filters_inactive department source rec :
  truthy department = false -> truthy source = false ->
  passes_filters department source rec = Ok true.
Proof. intros Hd Hs. unfold passes_filters. now rewrite Hd, Hs. Qed.

Lemma fold_left_Qmax_elem l : forall x, fold_left Qmax l x ∈ x :: l.
Proof.
  induction l as [|y l IH]; intros x; cbn [fold_left].
  - apply elem_of_cons. now left.
  - specialize (IH (Qmax x y)). apply elem_of_cons in IH as [->|IH].
    + unfold Qmax, GenericMinMax.gmax. destruct (x ?= y)%Q.
      * apply elem_of_cons. now left.
      * apply elem_of_cons. right. apply elem_of_cons. now left.
      * apply elem_of_cons. now left.
    + apply elem_of_cons. right. apply elem_of_cons. now right.
Qed.

Lemma array_max_elem l m : KeywordSearch.array_max l = Ok m -> m ∈ l.
Proof.
  destruct l as [|x l]; cbn [KeywordSearch.array_max]; [discriminate|].
  intros [= <-]. apply fold_left_Qmax_elem.
Qed.

Lemma enumerate_elem {A} (l : list A) (x : A) :
  x ∈ l -> exists i, (i, x) ∈ KeywordSearch.enumerate l.
Proof.
  intros Hx. apply list_elem_of_lookup in Hx as [j Hj].
  exists (Z.of_nat j). unfold KeywordSearch.enumerate.
  apply elem_of_lookup_imap. eauto.
Qed.

Lemma kw_loop_prefix records top_k department source scored : forall acc res,
  KeywordSearch.kw_loop records top_k department source scored acc = Ok res ->
  exists t, res = acc ++ t.
Proof.
  induction scored as [|[idx score] scored IH]; intros acc res H;
    cbn [KeywordSearch.kw_loop] in H.
  - injection H as <-. exists []. now rewrite app_nil_r.
  - destruct (Qle_bool score 0); [injection H as <-; exists []; now rewrite app_nil_r|].
    inv_bind H. inv_bind H. destruct a0; cbn [negb] in H; [|eauto].
    destruct (_ >=? _).
    + injection H as <-. eauto.
    + apply IH in H as [t ->]. rewrite <- app_assoc. eauto.
Qed.

(** X3.  With no filter active, the first result of the keyword search
    has [keyword_score] 1: the scores are divided by the largest raw score
    of the query, and the document that attains it comes first. *)
Theorem unfiltered_keyword_search_top_score_is_one
    (bm25_get_scores : list (list string) -> list string -> list Q)
    (self : KeywordSearch.KeywordSearcher) (query : string) (top_k : Z)
    (department source : option string) (r : Rec) (rest : list Rec) :
  truthy department = false -> truthy source = false ->
  KeywordSearch.search bm25_get_scores self query top_k department source
    = Ok (r :: rest) ->
  exists x, keyword_score r = Some x /\ (x == 1)%Q.
Proof.
  intros Hd Hs H.
  apply keyword_search_unfold in H as [? | (m & raw & -> & Hm & H)]; [discriminate|].
  pose proof (normed_scores_le_1 m _ Hm) as Hle.
  pose proof (sorted_desc_sorted snd
                (KeywordSearch.enumerate
                   (map (fun x => (x / (if Qgt_bool m 0 then m else 1))%Q)
                      (bm25_get_scores (KeywordSearch._bm25 self)
                         (KeywordSearch._tokenise query))))) as Hsorted.
  pose proof (sorted_desc_perm snd
                (KeywordSearch.enumerate
                   (map (fun x => (x / (if Qgt_bool m 0 then m else 1))%Q)
                      (bm25_get_scores (KeywordSearch._bm25 self)
                         (KeywordSearch._tokenise query))))) as Hperm.
  destruct (sorted_desc snd _) as [|[idx score] scored]; [discriminate|].
  cbn [KeywordSearch.kw_loop] in H.
  destruct (Qle_bool score 0) eqn:E0; [discriminate|].
  assert (Hpos : (0 < score)%Q).
  { apply Qnot_le_lt. intros Hx. apply Qle_bool_iff in Hx. congruence. }
  inv_bind H. rewrite (passes_filters_inactive _ _ a Hd Hs) in H.
  cbn [bind negb app] in H.
  assert (Hr : r = set_keyword (dict_of a) score).
  { destruct (_ >=? _); [congruence|].
    apply kw_loop_prefix in H as [t Ht]. cbn [app] in Ht. congruence. }
  subst r. exists score. split; [reflexivity|].
  apply Qle_antisym; [now inversion Hle|].
  assert (Hmpos : (0 < m)%Q).
  { destruct (Qgt_bool m 0) eqn:Eg.
    - unfold Qgt_bool in Eg. apply negb_true_iff in Eg.
      apply Qnot_le_lt. intros Hx. apply Qle_bool_iff in Hx. congruence.
    - exfalso. unfold Qgt_bool in Eg. apply negb_false_iff, Qle_bool_iff in Eg.
      assert (Hin : (idx, score) ∈ KeywordSearch.enumerate
                      (map (fun x => (x / 1)%Q)
                         (bm25_get_scores (KeywordSearch._bm25 self)
                            (KeywordSearch._tokenise query)))).
      { rewrite Hperm. apply elem_of_cons. now left. }
      unfold KeywordSearch.enumerate in Hin.
      apply elem_of_lookup_imap in Hin as (j & y & [= _ ->] & Hj).
      apply list_elem_of_lookup_2, list_elem_of_In, in_map_iff in Hj
        as (x & <- & Hx).
      pose proof (array_max_ge _ _ Hm) as Hall. rewrite Forall_forall in Hall.
      apply list_elem_of_In, Hall in Hx.
      assert (H1 : (x / 1 == x)%Q) by field. rewrite H1 in Hpos. lra. }
  assert (Eg : Qgt_bool m 0 = true).
  { unfold Qgt_bool. apply negb_true_iff.
    destruct (Qle_bool m 0) eqn:E; [|reflexivity].
    apply Qle_bool_iff in E. lra. }
  rewrite Eg in *.
  destruct (enumerate_elem
              (map (fun x => (x / m)%Q)
                 (bm25_get_scores (KeywordSearch._bm25 self)
                    (KeywordSearch._tokenise query))) (m / m)%Q) as [i Hi].
  { apply list_elem_of_In, in_map_iff. exists m. split; [reflexivity|].
    apply list_elem_of_In. now apply array_max_elem. }
  rewrite Hperm in Hi. apply elem_of_cons in Hi as [[= _ Hi]|Hi].
  - rewrite <- Hi. rewrite Qdiv_self; [apply Qle_refl | lra].
  - apply StronglySorted_cons in Hsorted as [Hhd _].
    rewrite Forall_forall in Hhd. specialize (Hhd _ Hi). unfold desc in Hhd.
    cbn [snd] in Hhd. rewrite Qdiv_self in Hhd; [exact Hhd | lra].
Qed.

Lemma unfiltered_keyword_search_top_score_is_one_witness :
  exists x,
    keyword_score (set_keyword (dict_of Sample.csci0320) (2 # 2)) = Some x /\ (x == 1)%Q.
Proof.
  apply (unfiltered_keyword_search_top_score_is_one Sample.bm25_get_scores
           Sample.keyword_searcher "software engineering" 50 None None
           (set_keyword (dict_of Sample.csci0320) (2 # 2)) []);
    [reflexivity | reflexivity |].
  vm_compute. reflexivity.
Defined.

(** ** What the fusion keeps of its legs *)

Section FusionShape.
Import Hybrid.

(** A property of the copied course fields alone. *)
Variable F : Course -> Prop.

Lemma fields_entry (c : odict) code (fresh : Rec) :
  Forall (fun r => F (fields r)) (od_values c) -> F (fields fresh) ->
  F (fields (match od_get c code with Some e => e | None => fresh end)).
Proof.
  intros Hc Hf. destruct (od_get c code) as [e|] eqn:E; [|exact Hf].
  apply od_get_In in E. rewrite Forall_forall in Hc. now apply Hc, list_elem_of_In.
Qed.

Lemma ws_sem_step_fields c rec c' :
  Forall (fun r => F (fields r)) (od_values c) -> F (fields rec) ->
  ws_sem_step c rec = Ok c' -> Forall (fun r => F (fields r)) (od_values c').
Proof.
  intros Hc Hrec H. unfold ws_sem_step in H. inv_bind H. injection H as <-.
  apply od_set_Forall; [exact Hc|]. cbn [fields set_similarity].
  apply fields_entry; [exact Hc|]. now rewrite fields_setdefault_keyword.
Qed.

Lemma ws_kw_step_fields c rec c' :
  Forall (fun r => F (fields r)) (od_values c) -> F (fields rec) ->
  ws_kw_step c rec = Ok c' -> Forall (fun r => F (fields r)) (od_values c').
Proof.
  intros Hc Hrec H. unfold ws_kw_step in H. inv_bind H. injection H as <-.
  apply od_set_Forall; [exact Hc|]. cbn [fields set_keyword].
  apply fields_entry; [exact Hc|]. now rewrite fields_setdefault_similarity.
Qed.

Lemma rrf_sem_step_fields k c rank rec c' :
  Forall (fun r => F (fields r)) (od_values c) -> F (fields rec) ->
  rrf_sem_step k c rank rec = Ok c' -> Forall (fun r => F (fields r)) (od_values c').
Proof.
  intros Hc Hrec H. unfold rrf_sem_step in H. inv_bind H. inv_bind H.
  injection H as <-.
  apply od_set_Forall; [exact Hc|]. cbn [fields set_rrf].
  apply fields_entry; [exact Hc|]. now rewrite fields_setdefault_keyword.
Qed.

Lemma rrf_kw_step_fields k c rank rec c' :
  Forall (fun r => F (fields r)) (od_values c) -> F (fields rec) ->
  rrf_kw_step k c rank rec = Ok c' -> Forall (fun r => F (fields r)) (od_values c').
Proof.
  intros Hc Hrec H. unfold rrf_kw_step in H. inv_bind H. inv_bind H.
  injection H as <-.
  apply od_set_Forall; [exact Hc|]. cbn [fields set_rrf].
  rewrite fields_setdefault_keyword.
  apply fields_entry; [exact Hc|]. now rewrite fields_setdefault_similarity.
Qed.

Lemma rrf_normalise_fields results :
  Forall (fun r => F (fields r)) results ->
  Forall (fun r => F (fields r)) (rrf_normalise results).
Proof.
  intros H. destruct results as [|r0 rest]; [constructor|].
  unfold rrf_normalise. apply Forall_map.
  eapply Forall_impl; [exact H|]. intros r Hr. cbn beta.
  destruct (Qeq_bool _ 0); exact Hr.
Qed.

(** Both fusions return copies of records of their legs. *)
Lemma weighted_sum_fields sem kw alpha beta out :
  Forall (fun r => F (fields r)) sem -> Forall (fun r => F (fields r)) kw ->
  _weighted_sum sem kw alpha beta = Ok out -> Forall (fun r => F (fields r)) out.
Proof.
  intros Hs Hw H. unfold _weighted_sum in H. inv_bind H. injection H as <-.
  unfold ws_combined in Ha. inv_bind Ha. inv_bind Ha. injection Ha as <-.
  apply sorted_desc_Forall.
  assert (H1 : Forall (fun r => F (fields r)) (od_values a0)).
  { refine (plain_loop_inv (fun c => Forall (fun r => F (fields r)) (od_values c))
              (fun r => F (fields r)) ws_sem_step sem _ Hs [] a0 _ Ha0);
      [|constructor].
    intros c rec c' Hc Hrec Hstep. exact (ws_sem_step_fields c rec c' Hc Hrec Hstep). }
  assert (H2 : Forall (fun r => F (fields r)) (od_values a1)).
  { refine (plain_loop_inv (fun c => Forall (fun r => F (fields r)) (od_values c))
              (fun r => F (fields r)) ws_kw_step kw _ Hw a0 a1 H1 Ha1).
    intros c rec c' Hc Hrec Hstep. exact (ws_kw_step_fields c rec c' Hc Hrec Hstep). }
  unfold od_values in *. rewrite map_map. cbn [snd].
  rewrite Forall_map in H2. apply Forall_map.
  eapply Forall_impl; [exact H2|]. intros [code r] Hr. exact Hr.
Qed.

Lemma rrf_fields sem kw k out :
  Forall (fun r => F (fields r)) sem -> Forall (fun r => F (fields r)) kw ->
  _reciprocal_rank_fusion sem kw k = Ok out -> Forall (fun r => F (fields r)) out.
Proof.
  intros Hs Hw H. unfold _reciprocal_rank_fusion in H. inv_bind H. injection H as <-.
  unfold rrf_combined in Ha. inv_bind Ha.
  apply rrf_normalise_fields, sorted_desc_Forall.
  refine (ranked_loop_inv (fun c => Forall (fun r => F (fields r)) (od_values c))
            (fun r => F (fields r)) (rrf_kw_step k) kw _ Hw a0 1 a _ _ Ha);
    [| lia |].
  - intros c rank rec c' _ Hc Hrec Hstep.
    exact (rrf_kw_step_fields k c rank rec c' Hc Hrec Hstep).
  - refine (ranked_loop_inv (fun c => Forall (fun r => F (fields r)) (od_values c))
              (fun r => F (fields r)) (rrf_sem_step k) sem _ Hs [] 1 a0 _ _ Ha0);
      [| lia | constructor].
    intros c rank rec c' _ Hc Hrec Hstep.
    exact (rrf_sem_step_fields k c rank rec c' Hc Hrec Hstep).
Qed.
End FusionShape.

Lemma slice_to_length {A} (l : list A) (k : Z) :
  0 <= k -> Z.of_nat (length (slice_to l k)) <= k.
Proof.
  intros Hk. unfold slice_to. destruct (Z.ltb_spec k 0) as [?|_]; [lia|].
  rewrite length_take. lia.
Qed.

Lemma fields_filled r :
  fields (setdefault_final (setdefault_keyword (setdefault_similarity r 0) 0) 0)
  = fields r.
Proof. destruct r as [fl [s|] [k|] [f|] rr]; reflexivity. Qed.

Section SearchRows.
Variable embed_texts : list string -> result (list VectorStore.vec).
Variable index_search :
  VectorStore.Index -> list VectorStore.vec -> Z -> list (list (Q * Z)).
Variable bm25_get_scores : list (list string) -> list string -> list Q.

Lemma vector_rows (P : Rec -> Prop) index metadata q top_k department source res :
  (forall rec score, rec ∈ metadata -> passes_filters department source rec = Ok true ->
                     P (set_similarity (dict_of rec) (VectorStore.clip01 score))) ->
  VectorStore.search index_search index metadata q top_k department source = Ok res ->
  Forall P res /\ Z.of_nat (length res) <= Z.max 1 top_k.
Proof.
  intros HP H. unfold VectorStore.search in H.
  destruct (index_search _ _ _) as [|cands others]; [discriminate|]. split.
  - eapply search_loop_rows; [exact HP | constructor | exact H].
  - eapply search_loop_length; [| |exact H]; cbn [length]; [lia | now right].
Qed.

Lemma keyword_rows (P : Rec -> Prop) self query top_k department source res :
  (forall rec score, rec ∈ KeywordSearch._records self ->
                     passes_filters department source rec = Ok true ->
                     (0 < score)%Q -> (score <= 1)%Q ->
                     P (set_keyword (dict_of rec) score)) ->
  KeywordSearch.search bm25_get_scores self query top_k department source = Ok res ->
  Forall P res.
Proof.
  intros HP H. apply keyword_search_unfold in H as [-> | (m & raw & -> & Hm & H)];
    [constructor|].
  eapply (kw_loop_rows top_k department source _ P (fun x => (x <= 1)%Q));
    [exact HP | apply normed_scores_le_1; exact Hm | constructor | exact H].
Qed.
End SearchRows.

(** X4.  In vector-only mode every result has [keyword_score] 0 and a
    [final_score] equal to its [similarity_score]; it is the copy of a
    metadata row that satisfies the active filters, and there are at most
    [top_k] results (at most one when [top_k] is below one). *)
Theorem vector_mode_results
    (embed_texts : list string -> result (list VectorStore.vec))
    (index_search : VectorStore.Index -> list VectorStore.vec -> Z -> list (list (Q * Z)))
    (query : string) (index : VectorStore.Index) (metadata : list Course)
    (top_k : Z) (department source : option string) (out : list Rec) :
  Hybrid.vector_search embed_texts index_search query index metadata
    top_k department source = Ok out ->
  Z.of_nat (length out) <= Z.max 1 top_k /\
  Forall (fun r =>
            fields r ∈ metadata /\ matches_filters department source (fields r) /\
            keyword_score r = Some 0%Q /\
            (exists x, similarity_score r = Some x /\ final_score r = Some x) /\
            rrf_score r = None) out.
Proof.
  intros H. unfold Hybrid.vector_search in H. inv_bind H. inv_bind H.
  injection H as <-. rewrite length_map.
  destruct (vector_rows index_search
              (fun r => fields r ∈ metadata /\
                        matches_filters department source (fields r) /\
                        keyword_score r = None /\ rrf_score r = None /\
                        exists x, similarity_score r = Some x)
              index metadata a top_k department source a0) as [HP Hlen];
    [| exact Ha0 |].
  { intros rec score Hin Hp. cbn. split; [exact Hin|].
    split; [now apply passes_filters_matches|]. eauto. }
  split; [exact Hlen|]. apply Forall_map.
  eapply Forall_impl; [exact HP|].
  intros [fl s k f rr] (Hin & Hm & Hk & Hr & x & Hx). cbn in *. subst.
  cbn. eauto 10.
Qed.

Lemma vector_mode_results_witness :
  Z.of_nat (length Scenario.vector_out) <= Z.max 1 2 /\
  Forall (fun r =>
            fields r ∈ Sample.corpus /\ matches_filters None None (fields r) /\
            keyword_score r = Some 0%Q /\
            (exists x, similarity_score r = Some x /\ final_score r = Some x) /\
            rrf_score r = None) Scenario.vector_out.
Proof.
  apply (vector_mode_results Sample.embed_texts Sample.index_search
           "software engineering" Sample.index Sample.corpus 2 None None).
  vm_compute. reflexivity.
Defined.

(** X5.  For a [top_k] that is not negative, the hybrid search returns at
    most [top_k] results, under either fusion; each is the copy of a row
    of the metadata or of the keyword searcher's records that satisfies
    the active filters. *)
Theorem hybrid_search_results_are_filtered_rows
    (embed_texts : list string -> result (list VectorStore.vec))
    (index_search : VectorStore.Index -> list VectorStore.vec -> Z -> list (list (Q * Z)))
    (bm25_get_scores : list (list string) -> list string -> list Q)
    (query : string) (index : VectorStore.Index) (metadata : list Course)
    (keyword_searcher : KeywordSearch.KeywordSearcher)
    (top_k : Z) (department source : option string) (fusion : string)
    (alpha beta : Q) (semantic_pool keyword_pool : Z) (out : list Rec) :
  0 <= top_k ->
  Hybrid.hybrid_search embed_texts index_search bm25_get_scores query index metadata
    keyword_searcher top_k department source fusion alpha beta
    semantic_pool keyword_pool = Ok out ->
  Z.of_nat (length out) <= top_k /\
  Forall (fun r =>
            (fields r ∈ metadata \/ fields r ∈ KeywordSearch._records keyword_searcher) /\
            matches_filters department source (fields r)) out.
Proof.
  intros Hk H. unfold Hybrid.hybrid_search in H.
  inv_bind H. inv_bind H. inv_bind H. inv_bind H. injection H as <-.
  split; [now apply slice_to_length|].
  set (F := fun c : Course =>
              (c ∈ metadata \/ c ∈ KeywordSearch._records keyword_searcher) /\
              matches_filters department source c).
  apply slice_to_Forall, Forall_map.
  assert (Hs : Forall (fun r => F (fields r)) a0).
  { refine (proj1 (vector_rows index_search (fun r => F (fields r)) index metadata a
                     semantic_pool department source a0 _ Ha0)).
    intros rec score Hin Hp. cbn. split; [now left | now apply passes_filters_matches]. }
  assert (Hw : Forall (fun r => F (fields r)) a1).
  { refine (keyword_rows bm25_get_scores (fun r => F (fields r)) keyword_searcher query
              keyword_pool department source a1 _ Ha1).
    intros rec score Hin Hp _ _. cbn.
    split; [now right | now apply passes_filters_matches]. }
  assert (Hm : Forall (fun r => F (fields r)) a2).
  { destruct (String.eqb fusion "rrf").
    - exact (rrf_fields F a0 a1 60 a2 Hs Hw Ha2).
    - exact (weighted_sum_fields F a0 a1 alpha beta a2 Hs Hw Ha2). }
  eapply Forall_impl; [exact Hm|]. intros r Hr. cbn beta.
  rewrite fields_filled. exact Hr.
Qed.

Lemma hybrid_search_results_are_filtered_rows_witness :
  Z.of_nat (length (Sample.hybrid_out "rrf")) <= 2 /\
  Forall (fun r =>
            (fields r ∈ Sample.corpus \/
             fields r ∈ KeywordSearch._records Sample.keyword_searcher) /\
            matches_filters None None (fields r)) (Sample.hybrid_out "rrf").
Proof.
  apply (hybrid_search_results_are_filtered_rows Sample.embed_texts Sample.index_search
           Sample.bm25_get_scores "software engineering" Sample.index Sample.corpus
           Sample.keyword_searcher 2 None None "rrf" (7 # 10) (3 # 10) 50 50).
  - lia.
  - vm_compute. reflexivity.
Defined.

(** ** The merged entries *)

Section MergedEntries.
Import Hybrid.

Lemma ws_loops_present sem kw c1 c2 :
  plain_loop ws_sem_step [] sem = Ok c1 -> plain_loop ws_kw_step c1 kw = Ok c2 ->
  Forall both_present (od_values c2).
Proof.
  intros H1 H2.
  assert (I1 : Forall both_present (od_values c1)).
  { refine (plain_loop_inv (fun c => Forall both_present (od_values c)) (fun _ => True)
              ws_sem_step sem _ _ [] c1 _ H1).
    - intros c0 rec c' Hc _. now apply ws_sem_step_present.
    - apply Forall_forall. auto.
    - constructor. }
  refine (plain_loop_inv (fun c => Forall both_present (od_values c)) (fun _ => True)
            ws_kw_step kw _ _ c1 c2 I1 H2).
  - intros c0 rec c' Hc _. now apply ws_kw_step_present.
  - apply Forall_forall. auto.
Qed.

Lemma weighted_sum_formula sem kw alpha beta out :
  _weighted_sum sem kw alpha beta = Ok out -> Forall (weighted_formula alpha beta) out.
Proof.
  intros H. unfold _weighted_sum in H. inv_bind H. injection H as <-.
  unfold ws_combined in Ha. inv_bind Ha. inv_bind Ha. injection Ha as <-.
  apply sorted_desc_Forall.
  pose proof (ws_loops_present sem kw a0 a1 Ha0 Ha1) as Hp.
  unfold od_values in *. rewrite map_map. cbn [snd].
  rewrite Forall_map in Hp. apply Forall_map.
  eapply Forall_impl; [exact Hp|]. intros [code r] [Hs Hk]. cbn [snd] in *.
  destruct r as [fl [s|] [k|] fo rr]; cbn in Hs, Hk; try congruence.
  exists s, k. cbn. auto.
Qed.

Lemma ws_sem_step_no_rrf c rec c' :
  Forall (fun r => rrf_score r = None) (od_values c) -> rrf_score rec = None ->
  ws_sem_step c rec = Ok c' -> Forall (fun r => rrf_score r = None) (od_values c').
Proof.
  intros Hc Hrec H. unfold ws_sem_step in H. inv_bind H. injection H as <-.
  apply od_set_Forall; [exact Hc|]. cbn [rrf_score set_similarity].
  destruct (od_get c a) as [e|] eqn:E.
  - apply od_get_In in E. rewrite Forall_forall in Hc. now apply Hc, list_elem_of_In.
  - unfold setdefault_keyword. now destruct (keyword_score rec).
Qed.

Lemma ws_kw_step_no_rrf c rec c' :
  Forall (fun r => rrf_score r = None) (od_values c) -> rrf_score rec = None ->
  ws_kw_step c rec = Ok c' -> Forall (fun r => rrf_score r = None) (od_values c').
Proof.
  intros Hc Hrec H. unfold ws_kw_step in H. inv_bind H. injection H as <-.
  apply od_set_Forall; [exact Hc|]. cbn [rrf_score set_keyword].
  destruct (od_get c a) as [e|] eqn:E.
  - apply od_get_In in E. rewrite Forall_forall in Hc. now apply Hc, list_elem_of_In.
  - unfold setdefault_similarity. now destruct (similarity_score rec).
Qed.

Lemma weighted_sum_no_rrf sem kw alpha beta out :
  Forall (fun r => rrf_score r = None) sem -> Forall (fun r => rrf_score r = None) kw ->
  _weighted_sum sem kw alpha beta = Ok out -> Forall (fun r => rrf_score r = None) out.
Proof.
  intros Hs Hw H. unfold _weighted_sum in H. inv_bind H. injection H as <-.
  unfold ws_combined in Ha. inv_bind Ha. inv_bind Ha. injection Ha as <-.
  apply sorted_desc_Forall.
  assert (H1 : Forall (fun r => rrf_score r = None) (od_values a0)).
  { refine (plain_loop_inv (fun c => Forall (fun r => rrf_score r = None) (od_values c))
              (fun r => rrf_score r = None) ws_sem_step sem _ Hs [] a0 _ Ha0);
      [|constructor].
    intros c rec c' Hc Hrec Hstep. exact (ws_sem_step_no_rrf c rec c' Hc Hrec Hstep). }
  assert (H2 : Forall (fun r => rrf_score r = None) (od_values a1)).
  { refine (plain_loop_inv (fun c => Forall (fun r => rrf_score r = None) (od_values c))
              (fun r => rrf_score r = None) ws_kw_step kw _ Hw a0 a1 H1 Ha1).
    intros c rec c' Hc Hrec Hstep. exact (ws_kw_step_no_rrf c rec c' Hc Hrec Hstep). }
  unfold od_values in *. rewrite map_map. cbn [snd].
  rewrite Forall_map in H2. apply Forall_map.
  eapply Forall_impl; [exact H2|]. intros [code r] Hr. exact Hr.
Qed.

(** After the normalisation no [rrf_score] key is left and every final
    score is in (0, 1]. *)
Lemma rrf_normalise_popped results :
  StronglySorted (desc rrf_key) results -> Forall rrf_pos results ->
  Forall (fun r => rrf_score r = None /\
                   exists f, final_score r = Some f /\ (0 < f)%Q /\ (f <= 1)%Q)
         (rrf_normalise results).
Proof.
  intros Hsorted Hpos. destruct results as [|r0 rest]; [constructor|].
  unfold rrf_normalise.
  assert (Hmax : Forall (fun r => (rrf_key r <= rrf_key r0)%Q) (r0 :: rest)).
  { inversion Hsorted; subst. constructor; [apply Qle_refl | assumption]. }
  inversion Hpos as [|? ? (q0 & Hq0 & Hgt) _]; subst.
  unfold rrf_key in Hmax. rewrite Hq0 in *. cbn [get_or default from_option id] in *.
  rewrite (Qeq_bool_false_pos q0 Hgt).
  apply Forall_map. rewrite Forall_forall in *. intros r Hr.
  destruct (Hpos r Hr) as (q & Hq & Hqpos). specialize (Hmax r Hr).
  rewrite Hq in *. cbn [get_or default from_option id] in *.
  split; [reflexivity|]. eexists. split; [reflexivity|]. split.
  - now apply Qdiv_pos.
  - now apply Qdiv_le_1.
Qed.

Lemma rrf_popped sem kw k out :
  0 <= k ->
  Forall (fun r => no_rrf r = true) sem -> Forall (fun r => no_rrf r = true) kw ->
  _reciprocal_rank_fusion sem kw k = Ok out ->
  Forall (fun r => rrf_score r = None /\
                   exists f, final_score r = Some f /\ (0 < f)%Q /\ (f <= 1)%Q) out.
Proof.
  intros Hk Hs Hw H. unfold _reciprocal_rank_fusion in H. inv_bind H.
  injection H as <-. apply rrf_normalise_popped.
  - apply (sorted_desc_sorted rrf_key).
  - apply sorted_desc_Forall. exact (rrf_combined_pos sem kw k a Hk Hs Hw Ha).
Qed.
End MergedEntries.

(** X6.  Every result of the weighted sum carries both leg scores, and
    its [final_score] is [alpha * similarity_score + beta * keyword_score]
    of those two; so does every result of the hybrid search under the
    weighted fusion. *)
Theorem weighted_results_obey_the_formula
    (embed_texts : list string -> result (list VectorStore.vec))
    (index_search : VectorStore.Index -> list VectorStore.vec -> Z -> list (list (Q * Z)))
    (bm25_get_scores : list (list string) -> list string -> list Q)
    (alpha beta : Q) :
  (forall sem kw out,
     Hybrid._weighted_sum sem kw alpha beta = Ok out ->
     Forall (weighted_formula alpha beta) out) /\
  (forall query index metadata keyword_searcher top_k department source fusion
          semantic_pool keyword_pool out,
     String.eqb fusion "rrf" = false ->
     Hybrid.hybrid_search embed_texts index_search bm25_get_scores query index metadata
       keyword_searcher top_k department source fusion alpha beta
       semantic_pool keyword_pool = Ok out ->
     Forall (weighted_formula alpha beta) out).
Proof.
  split; [intros sem kw out; apply weighted_sum_formula|].
  intros query index metadata ks top_k department source fusion sp kp out Hf H.
  apply (hybrid_search_weighted_prefix _ _ _ _ _ _ _ _ _ _ _ _ _ _ _ _ Hf) in H
    as (q & sem & kw & merged & _ & _ & _ & Hm & ->).
  apply slice_to_Forall. now apply weighted_sum_formula in Hm.
Qed.

Lemma weighted_results_obey_the_formula_witness :
  Forall (weighted_formula (7 # 10) (3 # 10)) (Sample.hybrid_out "weighted").
Proof.
  destruct (weighted_results_obey_the_formula Sample.embed_texts Sample.index_search
              Sample.bm25_get_scores (7 # 10) (3 # 10)) as [_ H].
  apply (H "software engineering"%string Sample.index Sample.corpus
           Sample.keyword_searcher 2 None None "weighted"%string 50 50);
    [reflexivity|].
  vm_compute. reflexivity.
Defined.

(** X7.  No result of the hybrid search keeps the internal [rrf_score]
    key; and under reciprocal rank fusion every [final_score] is strictly
    positive (and at most 1). *)
Theorem hybrid_results_drop_the_raw_rrf_score
    (embed_texts : list string -> result (list VectorStore.vec))
    (index_search : VectorStore.Index -> list VectorStore.vec -> Z -> list (list (Q * Z)))
    (bm25_get_scores : list (list string) -> list string -> list Q)
    (query : string) (index : VectorStore.Index) (metadata : list Course)
    (keyword_searcher : KeywordSearch.KeywordSearcher)
    (top_k : Z) (department source : option string) (fusion : string)
    (alpha beta : Q) (semantic_pool keyword_pool : Z) (out : list Rec) :
  Hybrid.hybrid_search embed_texts index_search bm25_get_scores query index metadata
    keyword_searcher top_k department source fusion alpha beta
    semantic_pool keyword_pool = Ok out ->
  Forall (fun r => rrf_score r = None) out /\
  (String.eqb fusion "rrf" = true ->
   Forall (fun r => exists f, final_score r = Some f /\ (0 < f)%Q /\ (f <= 1)%Q) out).
Proof.
  intros H. unfold Hybrid.hybrid_search in H.
  inv_bind H. inv_bind H. inv_bind H. inv_bind H. injection H as <-.
  apply semantic_leg_ok, Forall_and in Ha0 as [Hs _].
  apply keyword_leg_ok, Forall_and in Ha1 as [Hw _].
  destruct (String.eqb fusion "rrf") eqn:Ef.
  - pose proof (rrf_popped a0 a1 60 a2 ltac:(lia) Hs Hw Ha2) as Hp.
    apply Forall_and in Hp as [Hp1 Hp2].
    split; [|intros _]; apply slice_to_Forall, Forall_map.
    + eapply Forall_impl; [exact Hp1|]. intros [fl [s|] [k|] [f|] rr]; cbn; auto.
    + eapply Forall_impl; [exact Hp2|].
      intros [fl [s|] [k|] [f|] rr] (x & Hx & H0 & H1); cbn in *;
        try discriminate; eauto.
  - split; [|discriminate]. apply slice_to_Forall, Forall_map.
    assert (Hm : Forall (fun r => rrf_score r = None) a2).
    { eapply weighted_sum_no_rrf; [| |exact Ha2].
      - eapply Forall_impl; [exact Hs|]. intros r. apply no_rrf_None.
      - eapply Forall_impl; [exact Hw|]. intros r. apply no_rrf_None. }
    eapply Forall_impl; [exact Hm|]. intros [fl [s|] [k|] [f|] rr]; cbn; auto.
Qed.

Lemma hybrid_results_drop_the_raw_rrf_score_witness :
  Forall (fun r => rrf_score r = None) (Sample.hybrid_out "rrf") /\
  (String.eqb "rrf" "rrf" = true ->
   Forall (fun r => exists f, final_score r = Some f /\ (0 < f)%Q /\ (f <= 1)%Q)
          (Sample.hybrid_out "rrf")).
Proof.
  apply (hybrid_results_drop_the_raw_rrf_score Sample.embed_texts Sample.index_search
           Sample.bm25_get_scores "software engineering" Sample.index Sample.corpus
           Sample.keyword_searcher 2 None None "rrf" (7 # 10) (3 # 10) 50 50).
  vm_compute. reflexivity.
Defined.

(** ** The tokeniser *)

Ltac each_char c := destruct c as [[] [] [] [] [] [] [] []].

Lemma lower_upper_char c : lower_char (upper_char c) = lower_char c.
Proof. each_char c; reflexivity. Qed.

Lemma upper_lower_char c : upper_char (lower_char c) = upper_char c.
Proof. each_char c; reflexivity. Qed.

Lemma lower_lower_char c : lower_char (lower_char c) = lower_char c.
Proof. each_char c; reflexivity. Qed.

Lemma upper_upper_char c : upper_char (upper_char c) = upper_char c.
Proof. each_char c; reflexivity. Qed.



Lemma clean_lower_word c :
  is_word c = true ->
  clean_char (lower_char c) = lower_char c /\ is_space (lower_char c) = false.
Proof. each_char c; intros H; solve [split; reflexivity | discriminate H]. Qed.

Lemma map_chars_compose f g s : map_chars f (map_chars g s) = map_chars (fun c => f (g c)) s.
Proof. induction s as [|c s IH]; simpl; congruence. Qed.

Lemma map_chars_ext f g s : (forall c, f c = g c) -> map_chars f s = map_chars g s.
Proof. intros H. induction s as [|c s IH]; simpl; congruence. Qed.

Lemma append_cons c s t : (String c s +:+ t = String c (s +:+ t))%string.
Proof. reflexivity. Qed.

Lemma append_nil_l t : ("" +:+ t = t)%string.
Proof. reflexivity. Qed.

Lemma append_nil_r s : (s +:+ "" = s)%string.
Proof. induction s as [|c s IH]; [reflexivity|]. now rewrite append_cons, IH. Qed.

Lemma append_assoc s t u : ((s +:+ t) +:+ u = s +:+ (t +:+ u))%string.
Proof. induction s as [|c s IH]; [reflexivity|]. now rewrite !append_cons, IH. Qed.

Lemma map_chars_app f s t : map_chars f (s +:+ t) = map_chars f s +:+ map_chars f t.
Proof.
  induction s as [|c s IH]; [reflexivity|].
  cbn [map_chars]. rewrite !append_cons. cbn [map_chars]. now rewrite IH.
Qed.

Lemma map_chars_nil f s : map_chars f s = ""%string <-> s = ""%string.
Proof. destruct s; simpl; split; congruence. Qed.

Lemma lower_upper s : lower (upper s) = lower s.
Proof.
  unfold lower, upper. rewrite map_chars_compose.
  apply map_chars_ext, lower_upper_char.
Qed.

Lemma upper_lower s : upper (lower s) = upper s.
Proof.
  unfold lower, upper. rewrite map_chars_compose.
  apply map_chars_ext, upper_lower_char.
Qed.

Lemma lower_lower s : lower (lower s) = lower s.
Proof.
  unfold lower. rewrite map_chars_compose.
  apply map_chars_ext, lower_lower_char.
Qed.

Lemma upper_upper s : upper (upper s) = upper s.
Proof.
  unfold upper. rewrite map_chars_compose.
  apply map_chars_ext, upper_upper_char.
Qed.

Lemma tokenise_unfold text :
  KeywordSearch._tokenise text
  = split (map_chars (fun c => clean_char (lower_char c)) text).
Proof.
  unfold KeywordSearch._tokenise, lower. now rewrite map_chars_compose.
Qed.









(** A run of non-space characters is read into the current piece. *)
Lemma split_go_run w s cur :
  all_chars (fun c => negb (is_space c)) w = true ->
  split_go (w +:+ s) cur = split_go s (rev (list_ascii_of_string w) ++ cur).
Proof.
  revert cur. induction w as [|c w IH]; intros cur H; [reflexivity|].
  cbn [all_chars] in H. apply andb_prop in H as [Hc H]. apply negb_true_iff in Hc.
  rewrite append_cons. cbn [split_go list_ascii_of_string rev]. rewrite Hc.
  rewrite IH by exact H. now rewrite <- app_assoc.
Qed.

Lemma split_go_word w c s :
  w <> ""%string -> all_chars (fun c => negb (is_space c)) w = true ->
  is_space c = true ->
  split_go (w +:+ String c s) [] = w :: split_go s [].
Proof.
  intros Hw Hall Hc. rewrite split_go_run by exact Hall. simpl. rewrite Hc.
  rewrite app_nil_r, rev_involutive, string_of_list_ascii_of_string.
  destruct (rev (list_ascii_of_string w)) eqn:E; [|reflexivity].
  apply (f_equal (@rev ascii)) in E. rewrite rev_involutive in E. simpl in E.
  destruct w; [congruence | discriminate].
Qed.

Lemma split_word w :
  w <> ""%string -> all_chars (fun c => negb (is_space c)) w = true ->
  split w = [w].
Proof.
  intros Hw Hall. unfold split.
  rewrite <- (append_nil_r w) at 1.
  rewrite split_go_run by exact Hall. simpl.
  rewrite app_nil_r, rev_involutive, string_of_list_ascii_of_string.
  destruct (rev (list_ascii_of_string w)) eqn:E; [|reflexivity].
  apply (f_equal (@rev ascii)) in E. rewrite rev_involutive in E. simpl in E.
  destruct w; [congruence | discriminate].
Qed.

Lemma clean_lower_of_word code :
  all_chars is_word code = true ->
  map_chars (fun c => clean_char (lower_char c)) code = lower code /\
  all_chars (fun c => negb (is_space c)) (lower code) = true.
Proof.
  unfold lower. induction code as [|c code IH]; simpl; [auto|].
  intros H. apply andb_prop in H as [Hc H].
  destruct (clean_lower_word c Hc) as [-> ->]. destruct (IH H) as [-> ->]. auto.
Qed.


(** ** Case and the searches *)

Lemma lower_nil s : lower s = ""%string <-> s = ""%string.
Proof. apply map_chars_nil. Qed.

Lemma same_case_truthy a b : same_case a b -> truthy a = truthy b.
Proof.
  unfold same_case. destruct a as [x|], b as [y|]; simpl; try discriminate; [|reflexivity].
  intros [= H]. destruct x, y; simpl in *; try reflexivity; discriminate.
Qed.

Lemma same_case_lower a b :
  same_case a b -> lower (default ""%string a) = lower (default ""%string b).
Proof.
  unfold same_case. destruct a as [x|], b as [y|]; simpl; try discriminate; [|reflexivity].
  now intros [= H].
Qed.

Lemma same_case_upper a b :
  same_case a b -> upper (default ""%string a) = upper (default ""%string b).
Proof.
  intros H. apply same_case_lower in H.
  rewrite <- (upper_lower (default ""%string a)), H. apply upper_lower.
Qed.

Lemma passes_filters_same_case d d' s s' rec :
  same_case d d' -> same_case s s' ->
  passes_filters d s rec = passes_filters d' s' rec.
Proof.
  intros Hd Hs. unfold passes_filters.
  now rewrite (same_case_truthy _ _ Hd), (same_case_truthy _ _ Hs),
    (same_case_lower _ _ Hd), (same_case_upper _ _ Hs).
Qed.

Lemma search_loop_same_case metadata top_k d d' s s' cands results :
  same_case d d' -> same_case s s' ->
  VectorStore.search_loop metadata top_k d s cands results
  = VectorStore.search_loop metadata top_k d' s' cands results.
Proof.
  intros Hd Hs. revert results.
  induction cands as [|[score idx] cands IH]; intros results; [reflexivity|].
  cbn [VectorStore.search_loop]. destruct (idx =? -1); [apply IH|].
  destruct (getitem metadata idx) as [rec|]; [|reflexivity]. cbn [bind].
  rewrite (passes_filters_same_case d d' s s' rec Hd Hs).
  destruct (passes_filters d' s' rec) as [[|]|]; cbn [bind negb];
    [|apply IH|reflexivity].
  destruct (_ >=? _); [reflexivity | apply IH].
Qed.

Lemma kw_loop_same_case records top_k d d' s s' scored results :
  same_case d d' -> same_case s s' ->
  KeywordSearch.kw_loop records top_k d s scored results
  = KeywordSearch.kw_loop records top_k d' s' scored results.
Proof.
  intros Hd Hs. revert results.
  induction scored as [|[idx score] scored IH]; intros results; [reflexivity|].
  cbn [KeywordSearch.kw_loop]. destruct (Qle_bool score 0); [reflexivity|].
  destruct (getitem records idx) as [rec|]; [|reflexivity]. cbn [bind].
  rewrite (passes_filters_same_case d d' s s' rec Hd Hs).
  destruct (passes_filters d' s' rec) as [[|]|]; cbn [bind negb];
    [|apply IH|reflexivity].
  destruct (_ >=? _); [reflexivity | apply IH].
Qed.

Lemma tokenise_same_case q q' :
  lower q = lower q' -> KeywordSearch._tokenise q = KeywordSearch._tokenise q'.
Proof. unfold KeywordSearch._tokenise. now intros ->. Qed.

(** X9.  The keyword search ignores the case of its texts: two calls
    whose queries, department filters and source filters differ only in
    the case of their letters give the same outcome. *)
Theorem keyword_search_ignores_case :
  forall bm25_get_scores self q q' top_k d d' s s',
    lower q = lower q' -> same_case d d' -> same_case s s' ->
    KeywordSearch.search bm25_get_scores self q top_k d s
    = KeywordSearch.search bm25_get_scores self q' top_k d' s'.
Proof.
  intros bm25_get_scores self q q' top_k d d' s s' Hq Hd Hs.
  unfold KeywordSearch.search. rewrite (tokenise_same_case q q' Hq).
  destruct (KeywordSearch._tokenise q'); [reflexivity|].
  destruct (KeywordSearch.array_max _); [|reflexivity]. cbn [bind].
  now apply kw_loop_same_case.
Qed.

Lemma keyword_search_ignores_case_witness :
  KeywordSearch.search Sample.bm25_get_scores Sample.keyword_searcher
    "Software ENGINEERING" 50 (Some "COMPUTER"%string) (Some "bulletin"%string)
  = KeywordSearch.search Sample.bm25_get_scores Sample.keyword_searcher
      "software engineering" 50 (Some "computer"%string) (Some "BULLETIN"%string).
Proof.
  apply keyword_search_ignores_case; reflexivity.
Defined.

(** X10.  The filters of the vector-store search ignore case: two
    calls whose department filters and source filters differ only in the
    case of their letters give the same outcome. *)
Theorem vector_store_filters_ignore_case :
  forall index_search index metadata query_vec top_k d d' s s',
    same_case d d' -> same_case s s' ->
    VectorStore.search index_search index metadata query_vec top_k d s
    = VectorStore.search index_search index metadata query_vec top_k d' s'.
Proof.
  intros index_search index metadata query_vec top_k d d' s s' Hd Hs.
  unfold VectorStore.search, VectorStore.fetch_k.
  rewrite (same_case_truthy _ _ Hd), (same_case_truthy _ _ Hs).
  destruct (index_search _ _ _); [reflexivity|].
  now apply search_loop_same_case.
Qed.

Lemma vector_store_filters_ignore_case_witness :
  VectorStore.search Sample.index_search Sample.index Sample.corpus [[1; 0]%Q] 2
    (Some "Computer"%string) (Some "cab"%string)
  = VectorStore.search Sample.index_search Sample.index Sample.corpus [[1; 0]%Q] 2
      (Some "COMPUTER"%string) (Some "CAB"%string).
Proof.
  apply vector_store_filters_ignore_case; reflexivity.
Defined.



(** ** The document text and its tokens *)

Lemma build_embed_text_shape record code text :
  record !! "course_code"%string = Some (VStr code) ->
  Embedder.build_embed_text record = Ok text ->
  exists rest, text = (code +:+ String " " rest)%string.
Proof.
  intros Hc. unfold Embedder.build_embed_text, Embedder.fmt. rewrite Hc.
  destruct (record !! "description"%string) as [[d|]|]; cbn [bind]; try discriminate;
    (match goal with |- context [String.eqb ?p ""] => destruct (String.eqb p "") end);
    intros [= <-]; cbn [Embedder.join_space fold_left app];
    rewrite !append_assoc; eexists; reflexivity.
Qed.

(** X12.  A course code made of letters, digits and underscores is one
    token as a query, and that token is the first token of the document
    text [build_embed_text] gives for the course: an exact course-code
    query shares a token with the course's document. *)
Theorem course_code_is_a_token_of_its_document :
  forall record code text,
    record !! "course_code"%string = Some (VStr code) ->
    code <> ""%string -> all_chars is_word code = true ->
    Embedder.build_embed_text record = Ok text ->
    KeywordSearch._tokenise code = [lower code] /\
    exists tokens, KeywordSearch._tokenise text = lower code :: tokens.
Proof.
  intros record code text Hc Hne Hw Ht.
  destruct (clean_lower_of_word code Hw) as [Hm Hns].
  assert (Hl : lower code <> ""%string) by (intros E; apply Hne; apply (proj1 (lower_nil code)); exact E).
  split.
  - rewrite tokenise_unfold, Hm. now apply split_word.
  - destruct (build_embed_text_shape record code text Hc Ht) as [rest ->].
    rewrite tokenise_unfold, map_chars_app, Hm. cbn [map_chars].
    unfold split. rewrite split_go_word; [eauto | exact Hl | exact Hns | reflexivity].
Qed.

Lemma course_code_is_a_token_of_its_document_witness :
  KeywordSearch._tokenise "CSCI0320" = [lower "CSCI0320"] /\
  exists tokens,
    KeywordSearch._tokenise Scenario.csci0320_text = lower "CSCI0320" :: tokens.
Proof.
  apply (course_code_is_a_token_of_its_document Sample.csci0320).
  - reflexivity.
  - discriminate.
  - reflexivity.
  - vm_compute. reflexivity.
Defined.

(** ** Building the keyword searcher and the index *)

Lemma map_result_Forall2 {A B} (f : A -> result B) l ys :
  map_result f l = Ok ys -> Forall2 (fun x y => f x = Ok y) l ys.
Proof.
  revert ys. induction l as [|x l IH]; intros ys H; cbn [map_result] in H.
  - injection H as <-. constructor.
  - destruct (f x) as [y|] eqn:E; [|discriminate]. cbn [bind] in H.
    destruct (map_result f l) as [ys'|]; [|discriminate]. cbn [bind] in H.
    injection H as <-. constructor; auto.
Qed.

Lemma map_result_total {A B} (f : A -> result B) l :
  Forall (fun x => exists y, f x = Ok y) l -> exists ys, map_result f l = Ok ys.
Proof.
  induction 1 as [|x l [y Hy] _ [ys IH]]; cbn [map_result]; [eauto|].
  rewrite Hy, IH. cbn [bind]. eauto.
Qed.

Lemma map_result_raises {A B} (f : A -> result B) e0 l :
  (forall x e, f x = Raise e -> e = e0) ->
  Exists (fun x => exists e, f x = Raise e) l ->
  map_result f l = Raise e0.
Proof.
  intros Hf. induction 1 as [x l [e He]|x l _ IH]; cbn [map_result].
  - rewrite He. cbn [bind]. f_equal. eauto.
  - destruct (f x) as [y|e] eqn:E; cbn [bind].
    + now rewrite IH.
    + f_equal. eauto.
Qed.

Lemma build_embed_text_Ok r :
  not_null r "description" = true -> exists text, Embedder.build_embed_text r = Ok text.
Proof.
  unfold not_null, Embedder.build_embed_text.
  destruct (r !! "description"%string) as [[d|]|]; try discriminate; cbn [bind]; eauto.
Qed.

Lemma build_embed_text_Raise r e :
  Embedder.build_embed_text r = Raise e ->
  e = TypeError /\ r !! "description"%string = Some VNone.
Proof.
  unfold Embedder.build_embed_text.
  destruct (r !! "description"%string) as [[d|]|]; cbn [bind]; try discriminate.
  now intros [= <-].
Qed.

Lemma build_embed_text_null r :
  r !! "description"%string = Some VNone ->
  Embedder.build_embed_text r = Raise TypeError.
Proof. unfold Embedder.build_embed_text. now intros ->. Qed.

Lemma build_embed_text_not_null r text :
  Embedder.build_embed_text r = Ok text -> not_null r "description" = true.
Proof.
  unfold not_null, Embedder.build_embed_text.
  destruct (r !! "description"%string) as [[d|]|]; cbn [bind]; try discriminate; auto.
Qed.

Lemma keyword_searcher_init_Ok records :
  Forall (fun r => not_null r "description" = true) records ->
  exists corpus,
    KeywordSearch.KeywordSearcher_init records
    = Ok (KeywordSearch.mkKeywordSearcher records corpus) /\
    Forall2 tokens_of records corpus.
Proof.
  intros H. unfold KeywordSearch.KeywordSearcher_init.
  destruct (map_result_total
              (fun r => do t <- Embedder.build_embed_text r; Ok (KeywordSearch._tokenise t))
              records) as [corpus Hc].
  { eapply Forall_impl; [exact H|]. intros r Hr. cbn beta.
    destruct (build_embed_text_Ok r Hr) as [t ->]. cbn [bind]. eauto. }
  rewrite Hc. cbn [bind]. exists corpus. split; [reflexivity|].
  apply map_result_Forall2 in Hc.
  eapply Forall2_impl; [exact Hc|]. intros r toks Hr. cbn beta in Hr.
  destruct (Embedder.build_embed_text r) as [t|] eqn:E; [|discriminate].
  cbn [bind] in Hr. injection Hr as <-. exists t. auto.
Qed.

Lemma keyword_searcher_init_Raise records :
  Exists (fun r => r !! "description"%string = Some VNone) records ->
  KeywordSearch.KeywordSearcher_init records = Raise TypeError.
Proof.
  intros H. unfold KeywordSearch.KeywordSearcher_init.
  rewrite (map_result_raises _ TypeError); [reflexivity| |].
  - intros r e Hr. destruct (Embedder.build_embed_text r) as [t|e'] eqn:E;
      cbn [bind] in Hr; [discriminate|].
    injection Hr as <-. now apply build_embed_text_Raise in E.
  - eapply Exists_impl; [exact H|]. intros r Hr. cbn beta.
    rewrite (build_embed_text_null r Hr). cbn [bind]. eauto.
Qed.

(** X13.  Building the keyword searcher succeeds when no record has a
    [None] description: the searcher then keeps the records as given and
    holds, row for row, the token list of each record's document text.
    It raises [TypeError] as soon as one record has a [None]
    description. *)
Theorem keyword_searcher_init_outcomes :
  forall records,
    (Forall (fun r => not_null r "description" = true) records ->
     exists corpus,
       KeywordSearch.KeywordSearcher_init records
       = Ok (KeywordSearch.mkKeywordSearcher records corpus) /\
       Forall2 tokens_of records corpus) /\
    (Exists (fun r => r !! "description"%string = Some VNone) records ->
     KeywordSearch.KeywordSearcher_init records = Raise TypeError).
Proof.
  intros records. split.
  - apply keyword_searcher_init_Ok.
  - apply keyword_searcher_init_Raise.
Qed.

Lemma keyword_searcher_init_outcomes_witness :
  (exists corpus,
     KeywordSearch.KeywordSearcher_init Sample.corpus
     = Ok (KeywordSearch.mkKeywordSearcher Sample.corpus corpus) /\
     Forall2 tokens_of Sample.corpus corpus) /\
  KeywordSearch.KeywordSearcher_init [Sample.csci0150; Scenario.undescribed]
  = Raise TypeError.
Proof.
  split.
  - apply (proj1 (keyword_searcher_init_outcomes Sample.corpus)).
    repeat constructor.
  - apply (proj2 (keyword_searcher_init_outcomes
                    [Sample.csci0150; Scenario.undescribed])).
    apply Exists_cons_tl, Exists_cons_hd. reflexivity.
Defined.

Section BuildFacts.
Variable embed_texts : list string -> result (list VectorStore.vec).

Lemma build_index_inv records index meta :
  VectorStore.build_index embed_texts records = Ok (index, meta) ->
  meta = records /\
  exists texts,
    map_result Embedder.build_embed_text records = Ok texts /\
    embed_texts texts = Ok (VectorStore.rows index) /\
    VectorStore.rows index <> [].
Proof.
  unfold VectorStore.build_index.
  destruct (map_result Embedder.build_embed_text records) as [texts|] eqn:Et;
    [|discriminate]. cbn [bind].
  destruct (embed_texts texts) as [[|v vs]|] eqn:Ee; cbn [bind]; try discriminate.
  intros [= <- <-]. split; [reflexivity|]. exists texts. cbn. auto.
Qed.

Lemma build_index_descriptions records index meta :
  VectorStore.build_index embed_texts records = Ok (index, meta) ->
  Forall (fun r => not_null r "description" = true) records.
Proof.
  intros H. apply build_index_inv in H as (_ & texts & Ht & _).
  apply map_result_Forall2 in Ht.
  induction Ht as [|r t records texts Hr _ IH]; constructor; [|exact IH].
  eapply build_embed_text_not_null, Hr.
Qed.
End BuildFacts.

(** X14.  With an embedding model that returns one vector per text, a
    successful [build_index] returns the records themselves as metadata
    and an index with exactly one row per record; the corpus is then not
    empty and no record has a [None] description. *)
Theorem build_index_has_one_row_per_record :
  forall embed_texts records index meta,
    one_vector_per_text embed_texts ->
    VectorStore.build_index embed_texts records = Ok (index, meta) ->
    meta = records /\
    VectorStore.ntotal index = Z.of_nat (length meta) /\
    records <> [] /\
    Forall (fun r => not_null r "description" = true) records.
Proof.
  intros embed_texts records index meta Hone H.
  pose proof (build_index_descriptions _ _ _ _ H) as Hd.
  apply build_index_inv in H as (-> & texts & Ht & He & Hne).
  pose proof (Hone _ _ He) as Hlen.
  apply map_result_Forall2, Forall2_length in Ht.
  assert (Hl : length (VectorStore.rows index) = length records) by congruence.
  repeat split; [ | | exact Hd].
  - unfold VectorStore.ntotal. now rewrite Hl.
  - intros ->. destruct (VectorStore.rows index); [congruence | discriminate].
Qed.

Lemma build_index_has_one_row_per_record_witness :
  Sample.corpus = Sample.corpus /\
  VectorStore.ntotal (VectorStore.mkIndex [[1; 0]; [1; 0]; [1; 0]]%Q)
  = Z.of_nat (length Sample.corpus) /\
  Sample.corpus <> [] /\
  Forall (fun r => not_null r "description" = true) Sample.corpus.
Proof.
  apply (build_index_has_one_row_per_record Sample.embed_texts).
  - intros texts embeddings [= <-]. apply length_map.
  - vm_compute. reflexivity.
Defined.

(** ** What [load_or_build] leaves on disk *)

Lemma save_index_courses env index metadata disk :
  VectorStore.COURSES_PATH (fst (VectorStore.save_index env index metadata disk))
  = VectorStore.COURSES_PATH disk.
Proof.
  unfold VectorStore.save_index, VectorStore.write_file.
  destruct (VectorStore.index_write env); [|reflexivity..].
  destruct (VectorStore.meta_write env); reflexivity.
Qed.

Lemma save_index_Ok env index metadata disk :
  snd (VectorStore.save_index env index metadata disk) = Ok tt ->
  VectorStore.load_index (fst (VectorStore.save_index env index metadata disk))
  = Ok (index, metadata).
Proof.
  unfold VectorStore.save_index, VectorStore.write_file.
  destruct (VectorStore.index_write env); cbn; try discriminate.
  destruct (VectorStore.meta_write env); cbn; try discriminate. reflexivity.
Qed.

Lemma save_index_result env index metadata disk1 disk2 :
  snd (VectorStore.save_index env index metadata disk1)
  = snd (VectorStore.save_index env index metadata disk2).
Proof.
  unfold VectorStore.save_index, VectorStore.write_file.
  destruct (VectorStore.index_write env); [|reflexivity..].
  destruct (VectorStore.meta_write env); reflexivity.
Qed.

Lemma bind_unit_Ok {A} (r : result unit) (a b : A) :
  (do _ <- r; Ok a) = Ok b -> r = Ok tt /\ a = b.
Proof. destruct r as [[]|]; cbn [bind]; [|discriminate]. now intros [= ->]. Qed.

(** X15.  [load_or_build] never touches [courses.json], and whenever it
    returns a pair, that pair is what [load_index] reads from the disk it
    leaves: the caller never holds a snapshot that is not persisted. *)
Theorem load_or_build_returns_what_is_on_disk :
  forall embed_texts env force_rebuild disk disk' r,
    VectorStore.load_or_build embed_texts env force_rebuild disk = (disk', r) ->
    VectorStore.COURSES_PATH disk' = VectorStore.COURSES_PATH disk /\
    (forall snapshot, r = Ok snapshot -> VectorStore.load_index disk' = Ok snapshot).
Proof.
  intros embed_texts env force_rebuild disk disk' r H.
  apply load_or_build_cases in H
    as [(_ & _ & -> & ->) | [(-> & e & ->) | (c & records & index & meta & _ & _ & _ & -> & ->)]].
  - split; [reflexivity | auto].
  - split; [reflexivity | discriminate].
  - split; [apply save_index_courses|].
    intros snapshot Hs. apply bind_unit_Ok in Hs as [Hs <-].
    now apply save_index_Ok.
Qed.

Lemma load_or_build_returns_what_is_on_disk_witness :
  VectorStore.load_index
    (fst (VectorStore.load_or_build Sample.embed_texts Sample.env_ok false
            Sample.stale_disk))
  = Ok (VectorStore.mkIndex [[1; 0]; [1; 0]; [1; 0]]%Q, Sample.corpus).
Proof.
  refine (proj2 (load_or_build_returns_what_is_on_disk Sample.embed_texts
                   Sample.env_ok false Sample.stale_disk _ _ _) _ _).
  - vm_compute. reflexivity.
  - reflexivity.
Defined.

(** X16.  A forced rebuild reads nothing but [courses.json]: on two
    disks with the same corpus file it has the same outcome, whatever
    index and metadata files they hold, and the metadata it returns is the
    content of the corpus file. *)
Theorem forced_rebuild_reads_only_the_corpus_file :
  forall embed_texts env disk1 disk2,
    VectorStore.COURSES_PATH disk1 = VectorStore.COURSES_PATH disk2 ->
    snd (VectorStore.load_or_build embed_texts env true disk1)
    = snd (VectorStore.load_or_build embed_texts env true disk2) /\
    (forall index meta,
       snd (VectorStore.load_or_build embed_texts env true disk1) = Ok (index, meta) ->
       exists c, VectorStore.COURSES_PATH disk1 = Some c /\
                 VectorStore.content c = VectorStore.Valid meta).
Proof.
  intros embed_texts env disk1 disk2 Hc.
  unfold VectorStore.load_or_build. cbn [negb andb]. rewrite <- Hc.
  destruct (VectorStore.COURSES_PATH disk1) as [c|]; [|split; [reflexivity|discriminate]].
  destruct (VectorStore.content c) as [records|] eqn:Er;
    [|split; [reflexivity|discriminate]].
  destruct (VectorStore.build_index embed_texts records) as [[index meta]|] eqn:Eb;
    [|split; [reflexivity|discriminate]].
  apply build_index_inv in Eb as [-> _].
  pose proof (save_index_result env index records disk1 disk2) as Hs.
  destruct (VectorStore.save_index env index records disk1) as [d1 r1].
  destruct (VectorStore.save_index env index records disk2) as [d2 r2].
  cbn [snd] in *. subst r2. split; [reflexivity|].
  intros index' meta' H. apply bind_unit_Ok in H as [_ [= _ <-]]. eauto.
Qed.

Lemma forced_rebuild_reads_only_the_corpus_file_witness :
  snd (VectorStore.load_or_build Sample.embed_texts Sample.env_ok true
         Sample.stale_disk)
  = snd (VectorStore.load_or_build Sample.embed_texts Sample.env_ok true
           Sample.mismatched_disk).
Proof.
  apply (forced_rebuild_reads_only_the_corpus_file Sample.embed_texts Sample.env_ok
           Sample.stale_disk Sample.mismatched_disk).
  reflexivity.
Defined.

(** ** The pipeline object and [rebuild] *)

Section LifecycleFacts.
Variable embed_texts : list string -> result (list VectorStore.vec).
Variable BM25Okapi : list (list string) -> result unit.

(** A forced [load_or_build] that returns has built the pair from the
    corpus file and has persisted it. *)
Lemma forced_build_inv env disk disk' index meta :
  VectorStore.load_or_build embed_texts env true disk = (disk', Ok (index, meta)) ->
  (exists c, VectorStore.COURSES_PATH disk = Some c /\
             VectorStore.content c = VectorStore.Valid meta) /\
  VectorStore.build_index embed_texts meta = Ok (index, meta) /\
  VectorStore.load_index disk' = Ok (index, meta).
Proof.
  intros H. apply load_or_build_cases in H
    as [(Hf & _) | [(_ & e & He) | (c & records & i & m & Hc & Hv & Hb & -> & Hr)]];
    try discriminate.
  symmetry in Hr. apply bind_unit_Ok in Hr as [Hs [= -> ->]].
  pose proof (build_index_inv _ _ _ _ Hb) as [-> _].
  split; [eauto|]. split; [exact Hb|]. now apply save_index_Ok.
Qed.

Lemma keyword_searcher_inv records ks :
  Lifecycle.KeywordSearcher BM25Okapi records = Ok ks ->
  KeywordSearch.KeywordSearcher_init records = Ok ks /\
  BM25Okapi (KeywordSearch._bm25 ks) = Ok tt.
Proof.
  unfold Lifecycle.KeywordSearcher.
  destruct (KeywordSearch.KeywordSearcher_init records) as [k|]; [|discriminate].
  cbn [bind]. destruct (BM25Okapi (KeywordSearch._bm25 k)) as [[]|] eqn:E;
    [|discriminate]. cbn [bind]. now intros [= <-].
Qed.

Lemma keyword_searcher_init_consistent records ks :
  KeywordSearch.KeywordSearcher_init records = Ok ks ->
  KeywordSearch._records ks = records /\
  Forall2 tokens_of records (KeywordSearch._bm25 ks).
Proof.
  intros H.
  assert (Hd : Forall (fun r => not_null r "description" = true) records).
  { unfold KeywordSearch.KeywordSearcher_init in H.
    destruct (map_result _ records) as [corpus|] eqn:Ec; [|discriminate].
    apply map_result_Forall2 in Ec. clear H.
    induction Ec as [|r t rs ts Hr _ IH]; constructor; [|exact IH].
    cbn beta in Hr. destruct (Embedder.build_embed_text r) as [x|] eqn:E;
      [|discriminate].
    eapply build_embed_text_not_null, E. }
  destruct (keyword_searcher_init_Ok records Hd) as (corpus & Hk & Hc).
  rewrite Hk in H. injection H as <-. auto.
Qed.

(** The four ways [rebuild] ends. *)
Lemma rebuild_inv env self disk disk' self' r :
  Lifecycle.rebuild embed_texts BM25Okapi env self disk = (disk', (self', r)) ->
  (exists e,
     VectorStore.load_or_build embed_texts env true disk = (disk', Raise e) /\
     self' = Lifecycle.mkState true (Lifecycle.loaded self) /\ r = Raise e) \/
  (exists index meta,
     VectorStore.load_or_build embed_texts env true disk = (disk', Ok (index, meta)) /\
     ((exists e,
         Lifecycle.KeywordSearcher BM25Okapi meta = Raise e /\
         self' = Lifecycle.mkState true
                   (Pipeline.mkRAGPipeline index meta
                      (Pipeline._keyword_searcher (Lifecycle.loaded self))) /\
         r = Raise e) \/
      (exists ks,
         Lifecycle.KeywordSearcher BM25Okapi meta = Ok ks /\
         self' = Lifecycle.mkState false (Pipeline.mkRAGPipeline index meta ks) /\
         r = Ok tt))).
Proof.
  unfold Lifecycle.rebuild, Lifecycle._load. cbn [Lifecycle.force_rebuild Lifecycle.loaded].
  destruct (VectorStore.load_or_build embed_texts env true disk) as [d [[index meta]|e]].
  - destruct (Lifecycle.KeywordSearcher BM25Okapi meta) as [ks|e] eqn:Ek.
    + intros [= <- <- <-]. right. exists index, meta. split; [reflexivity|].
      right. exists ks. auto.
    + intros [= <- <- <-]. right. exists index, meta. split; [reflexivity|].
      left. exists e. auto.
  - intros [= <- <- <-]. left. exists e. auto.
Qed.
End LifecycleFacts.

(** X17.  When [rebuild] returns, the flag [force_rebuild] is down
    again, the keyword searcher was built from the new metadata (its
    records are the metadata and its corpus holds their token lists row
    for row), the metadata is the content of [courses.json], and the disk
    holds exactly the index and the metadata now in memory. *)
Theorem rebuild_leaves_a_consistent_persisted_pipeline :
  forall embed_texts BM25Okapi env self disk disk' self',
    Lifecycle.rebuild embed_texts BM25Okapi env self disk = (disk', (self', Ok tt)) ->
    Lifecycle.force_rebuild self' = false /\
    consistent (Lifecycle.loaded self') /\
    persisted (Lifecycle.loaded self') disk' /\
    exists c, VectorStore.COURSES_PATH disk = Some c /\
              VectorStore.content c
              = VectorStore.Valid (Pipeline._metadata (Lifecycle.loaded self')).
Proof.
  intros embed_texts BM25Okapi env self disk disk' self' H.
  apply rebuild_inv in H
    as [(e & _ & _ & He) | (index & meta & Hl & [(e & _ & _ & He) | (ks & Hk & -> & _)])];
    try discriminate.
  apply forced_build_inv in Hl as (Hc & _ & Hp).
  apply keyword_searcher_inv in Hk as [Hk _].
  apply keyword_searcher_init_consistent in Hk as [Hr Ht].
  repeat split; assumption.
Qed.

Lemma rebuild_leaves_a_consistent_persisted_pipeline_witness :
  Lifecycle.force_rebuild (fst (snd Scenario.rebuilt)) = false /\
  consistent (Lifecycle.loaded (fst (snd Scenario.rebuilt))) /\
  persisted (Lifecycle.loaded (fst (snd Scenario.rebuilt))) (fst Scenario.rebuilt) /\
  exists c, VectorStore.COURSES_PATH Sample.stale_disk = Some c /\
            VectorStore.content c
            = VectorStore.Valid
                (Pipeline._metadata (Lifecycle.loaded (fst (snd Scenario.rebuilt)))).
Proof.
  apply (rebuild_leaves_a_consistent_persisted_pipeline Sample.embed_texts
           Scenario.BM25Okapi Sample.env_ok Scenario.old_state Sample.stale_disk).
  vm_compute. reflexivity.
Defined.

(** X18.  When [rebuild] raises, the flag [force_rebuild] stays up and
    the keyword searcher is the old one.  Either the three loaded fields
    are all what they were, or the exception came from the constructor of
    [BM25Okapi]: then the index and the metadata are already the rebuilt
    ones, persisted on disk, next to the keyword searcher of the old
    corpus.  The document texts never cause the second case: they were
    built once already for the embedding. *)
Theorem failed_rebuild_keeps_the_flag_and_the_old_searcher :
  forall embed_texts BM25Okapi env self disk disk' self' e,
    Lifecycle.rebuild embed_texts BM25Okapi env self disk = (disk', (self', Raise e)) ->
    Lifecycle.force_rebuild self' = true /\
    Pipeline._keyword_searcher (Lifecycle.loaded self')
    = Pipeline._keyword_searcher (Lifecycle.loaded self) /\
    (Lifecycle.loaded self' = Lifecycle.loaded self \/
     (exists ks,
        KeywordSearch.KeywordSearcher_init (Pipeline._metadata (Lifecycle.loaded self'))
        = Ok ks /\
        BM25Okapi (KeywordSearch._bm25 ks) = Raise e /\
        persisted (Lifecycle.loaded self') disk')).
Proof.
  intros embed_texts BM25Okapi env self disk disk' self' e H.
  apply rebuild_inv in H
    as [(e' & _ & -> & _) | (index & meta & Hl & [(e' & Hk & -> & He) | (ks & _ & _ & He)])];
    try discriminate.
  - cbn. auto.
  - injection He as <-. cbn. split; [reflexivity|]. split; [reflexivity|]. right.
    apply forced_build_inv in Hl as (_ & Hb & Hp).
    apply build_index_descriptions in Hb.
    destruct (keyword_searcher_init_Ok meta Hb) as (corpus & Hi & _).
    unfold Lifecycle.KeywordSearcher in Hk. rewrite Hi in Hk. cbn [bind] in Hk.
    cbn [KeywordSearch._bm25] in Hk.
    destruct (BM25Okapi corpus) as [[]|e'] eqn:Eb; [discriminate|].
    cbn [bind] in Hk. injection Hk as ->.
    eexists. split; [exact Hi|]. split; [exact Eb | exact Hp].
Qed.

Lemma failed_rebuild_keeps_the_flag_and_the_old_searcher_witness :
  Lifecycle.force_rebuild (fst (snd Scenario.rebuild_torn)) = true /\
  Pipeline._keyword_searcher (Lifecycle.loaded (fst (snd Scenario.rebuild_torn)))
  = Scenario.old_searcher.
Proof.
  destruct (failed_rebuild_keeps_the_flag_and_the_old_searcher Sample.embed_texts
              Scenario.BM25Okapi_raises Sample.env_ok Scenario.old_state
              Sample.stale_disk (fst Scenario.rebuild_torn)
              (fst (snd Scenario.rebuild_torn)) ZeroDivisionError)
    as (Hf & Hk & _).
  - vm_compute. reflexivity.
  - split; [exact Hf | exact Hk].
Defined.

(** X19.  With an embedding model that returns one vector per text, a
    pipeline that [rebuild] has returned reports as many index rows as
    records, and at least one. *)
Theorem rebuilt_pipeline_has_one_vector_per_record :
  forall embed_texts BM25Okapi env self disk disk' self',
    one_vector_per_text embed_texts ->
    Lifecycle.rebuild embed_texts BM25Okapi env self disk = (disk', (self', Ok tt)) ->
    Lifecycle.index_size self' = Lifecycle.num_records self' /\
    0 < Lifecycle.num_records self'.
Proof.
  intros embed_texts BM25Okapi env self disk disk' self' Hone H.
  apply rebuild_inv in H
    as [(e & _ & _ & He) | (index & meta & Hl & [(e & _ & _ & He) | (ks & Hk & -> & _)])];
    try discriminate.
  apply forced_build_inv in Hl as (_ & Hb & _).
  apply build_index_inv in Hb as (_ & texts & Ht & He & Hne).
  pose proof (Hone _ _ He) as Hlen.
  apply map_result_Forall2, Forall2_length in Ht.
  unfold Lifecycle.index_size, Lifecycle.num_records, VectorStore.ntotal. cbn.
  split; [congruence|].
  destruct (VectorStore.rows index); [congruence|].
  cbn [length] in Hlen. lia.
Qed.

Lemma rebuilt_pipeline_has_one_vector_per_record_witness :
  Lifecycle.index_size (fst (snd Scenario.rebuilt))
  = Lifecycle.num_records (fst (snd Scenario.rebuilt)) /\
  0 < Lifecycle.num_records (fst (snd Scenario.rebuilt)).
Proof.
  apply (rebuilt_pipeline_has_one_vector_per_record Sample.embed_texts
           Scenario.BM25Okapi Sample.env_ok Scenario.old_state Sample.stale_disk
           (fst Scenario.rebuilt)).
  - intros texts embeddings [= <-]. apply length_map.
  - vm_compute. reflexivity.
Defined.
